(** * CocktailCalculator: the recipe model and the cost engine

    A shallow embedding of [model.py], [calc.py] and the calculation parts
    of [cost_dialog.py].  Python's [decimal.Decimal] is modelled as it is
    specified (General Decimal Arithmetic, as implemented by the C module
    [_decimal] and mirrored by the pure-Python [_pydecimal]): a sign, an
    integer coefficient and a base-10 exponent, with every arithmetic
    result rounded in the current context (28 significant digits,
    ROUND_HALF_EVEN, Emax = 999999, Emin = -999999, traps on
    InvalidOperation, DivisionByZero and Overflow). *)

From Stdlib Require Import ZArith NArith Lia String Ascii List Bool.
Import ListNotations.

Open Scope Z_scope.

(** ** Python exceptions and fallible computations *)

Inductive pyerr :=
| ValueError
| KeyError
| TypeError
| AttributeError
| InvalidOperation   (** [decimal.InvalidOperation] and its subclasses *)
| DivisionByZero
| Overflow           (** [decimal.Overflow] *)
| OverflowError.

Inductive result (A : Type) :=
| Ok (a : A)
| Err (e : pyerr).
Arguments Ok {A} a.
Arguments Err {A} e.

Definition bind {A B} (m : result A) (k : A -> result B) : result B :=
  match m with Ok a => k a | Err e => Err e end.

Notation "x <- m ;; k" := (bind m (fun x => k))
  (at level 61, m at next level, right associativity).

(** ** Decimal digit strings ([str(int)] and [int(str)]) *)

Definition digit_char (d : N) : ascii := ascii_of_N (48 + d).

Fixpoint digits_aux (fuel : nat) (n : N) (acc : string) : string :=
  match fuel with
  | O => acc
  | S f =>
      let acc' := String (digit_char (n mod 10)) acc in
      if (n <? 10)%N then acc' else digits_aux f (n / 10) acc'
  end.

(** [str(n)] for a natural number [n]. *)
Definition str_N (n : N) : string := digits_aux (S (N.size_nat n)) n EmptyString.

(** [len(str(n))]: the number of digits of a coefficient ([len(self._int)]). *)
Definition ndigits (n : N) : Z := Z.of_nat (String.length (str_N n)).

Definition digit_val (c : ascii) : option N :=
  let k := N_of_ascii c in
  if (48 <=? k)%N && (k <=? 57)%N then Some (k - 48)%N else None.

Definition is_digit (c : ascii) : bool :=
  match digit_val c with Some _ => true | None => false end.

(** The value of a string of ASCII digits, read after [acc]. *)
Fixpoint digits_val (acc : N) (s : string) : option N :=
  match s with
  | EmptyString => Some acc
  | String c s' =>
      match digit_val c with
      | Some d => digits_val (acc * 10 + d) s'
      | None => None
      end
  end.

Fixpoint zeros (n : nat) : string :=
  match n with O => EmptyString | S k => String "0" (zeros k) end.

(** ** Decimal values *)

Inductive dec :=
| Fin (sign : bool) (coef : N) (exp : Z)   (** (-1)^sign * coef * 10^exp *)
| Inf (sign : bool)
| NaN (sign : bool) (payload : N)
| SNaN (sign : bool) (payload : N).

(** [Decimal(n)] for a Python [int] [n]: exact. *)
Definition dec_of_Z (z : Z) : dec := Fin (z <? 0) (Z.abs_N z) 0.

Definition dzero : dec := Fin false 0 0.

(** The signed integer [(-1)^s * c]. *)
Definition signed (s : bool) (c : N) : Z := if s then - Z.of_N c else Z.of_N c.

(** ** The decimal context of [calc.py]: [getcontext().prec = 28] *)

Definition prec : Z := 28.
Definition Emax : Z := 999999.
Definition Emin : Z := -999999.
Definition Etiny : Z := Emin - prec + 1.
Definition Etop : Z := Emax - prec + 1.

Inductive rounding := ROUND_HALF_EVEN | ROUND_HALF_UP.

(** Whether dropping the digits [r] (of [m] = 10^k) from the kept digits
    [q] rounds [q] up ([_round_half_up], [_round_half_even]). *)
Definition round_up (mode : rounding) (q r m : N) : bool :=
  match mode with
  | ROUND_HALF_UP => (m <=? 2 * r)%N
  | ROUND_HALF_EVEN => if (2 * r =? m)%N then N.odd q else (m <? 2 * r)%N
  end.

(** Drop [k] digits of [c] with rounding [mode] (the [_int[:digits]] and
    [changed] computation of [_fix] and [_rescale]). *)
Definition drop_digits (mode : rounding) (c : N) (k : Z) : N :=
  let m := (10 ^ Z.to_N k)%N in
  let q := (c / m)%N in
  let r := (c mod m)%N in
  if round_up mode q r m then (q + 1)%N else q.

(** [Decimal._fix]: round a result to the context. *)
Definition fix_dec (x : dec) : result dec :=
  match x with
  | Fin s c e =>
      if (c =? 0)%N then Ok (Fin s 0 (Z.min (Z.max e Etiny) Emax))
      else
        let exp_min0 := ndigits c + e - prec in
        if Etop <? exp_min0 then Err Overflow
        else
          let exp_min := Z.max exp_min0 Etiny in
          if e <? exp_min then
            let c' := drop_digits ROUND_HALF_EVEN c (exp_min - e) in
            let '(c'', exp') :=
              if prec <? ndigits c' then ((c' / 10)%N, exp_min + 1) else (c', exp_min) in
            if Etop <? exp' then Err Overflow else Ok (Fin s c'' exp')
          else Ok x
  | _ => Ok x
  end.

(** [Decimal._fix_nan]: the payload keeps at most [prec] digits. *)
Definition fix_nan (x : dec) : dec :=
  match x with
  | NaN s p => if prec <? ndigits p then NaN s (p mod 10 ^ Z.to_N prec) else x
  | SNaN s p => if prec <? ndigits p then SNaN s (p mod 10 ^ Z.to_N prec) else x
  | _ => x
  end.

(** [Decimal._check_nans]: [None] when neither operand is a NaN. *)
Definition check_nans (x y : dec) : option (result dec) :=
  match x, y with
  | SNaN _ _, _ => Some (Err InvalidOperation)
  | _, SNaN _ _ => Some (Err InvalidOperation)
  | NaN _ _, _ => Some (Ok (fix_nan x))
  | _, NaN _ _ => Some (Ok (fix_nan y))
  | _, _ => None
  end.

Definition dsign (x : dec) : bool :=
  match x with Fin s _ _ | Inf s | NaN s _ | SNaN s _ => s end.

(** [Decimal.adjusted] of a finite value. *)
Definition adjusted (c : N) (e : Z) : Z := ndigits c + e - 1.

(** [Decimal._rescale]: change the exponent to [te], rounding with [mode]. *)
Definition rescale (s : bool) (c : N) (e te : Z) (mode : rounding) : dec :=
  if (c =? 0)%N then Fin s 0 te
  else if te <=? e then Fin s (c * 10 ^ Z.to_N (e - te)) te
  else Fin s (drop_digits mode c (te - e)) te.

(** [x.quantize(q, rounding=mode)]. *)
Definition quantize (x q : dec) (mode : rounding) : result dec :=
  match check_nans x q with
  | Some r => r
  | None =>
      match x, q with
      | Inf _, Inf _ => Ok x
      | Fin s c e, Fin _ _ te =>
          if negb ((Etiny <=? te) && (te <=? Emax)) then Err InvalidOperation
          else if (c =? 0)%N then fix_dec (Fin s 0 te)
          else if Emax <? adjusted c e then Err InvalidOperation
          else if prec <? adjusted c e - te + 1 then Err InvalidOperation
          else
            match rescale s c e te mode with
            | Fin s' c' e' =>
                if Emax <? adjusted c' e' then Err InvalidOperation
                else if prec <? ndigits c' then Err InvalidOperation
                else fix_dec (Fin s' c' e')
            | ans => Ok ans
            end
      | _, _ => Err InvalidOperation
      end
  end.

(** [x * y]. *)
Definition dec_mul (x y : dec) : result dec :=
  match check_nans x y with
  | Some r => r
  | None =>
      let sign := xorb (dsign x) (dsign y) in
      match x, y with
      | Inf _, Inf _ => Ok (Inf sign)
      | Inf _, Fin _ c _ | Fin _ c _, Inf _ =>
          if (c =? 0)%N then Err InvalidOperation else Ok (Inf sign)
      | Fin _ c1 e1, Fin _ c2 e2 => fix_dec (Fin sign (c1 * c2) (e1 + e2))
      | _, _ => Err InvalidOperation
      end
  end.

(** [x + y].  Two non-zero finite operands: the exact sum, rounded once by
    [_fix] (the truncation done by [_normalize] in [_pydecimal] is chosen so
    that it gives this same rounded result, which [_decimal] computes). *)
Definition dec_add (x y : dec) : result dec :=
  match check_nans x y with
  | Some r => r
  | None =>
      match x, y with
      | Inf s1, Inf s2 => if Bool.eqb s1 s2 then Ok x else Err InvalidOperation
      | Inf _, _ => Ok x
      | _, Inf _ => Ok y
      | Fin s1 c1 e1, Fin s2 c2 e2 =>
          let e := Z.min e1 e2 in
          if (c1 =? 0)%N && (c2 =? 0)%N then fix_dec (Fin (s1 && s2) 0 e)
          else if (c1 =? 0)%N then
            let e' := Z.max e (e2 - prec - 1) in
            fix_dec (Fin s2 (c2 * 10 ^ Z.to_N (e2 - e')) e')
          else if (c2 =? 0)%N then
            let e' := Z.max e (e1 - prec - 1) in
            fix_dec (Fin s1 (c1 * 10 ^ Z.to_N (e1 - e')) e')
          else
            let m := signed s1 c1 * 10 ^ (e1 - e) + signed s2 c2 * 10 ^ (e2 - e) in
            fix_dec (Fin (m <? 0) (Z.abs_N m) e)
      | _, _ => Err InvalidOperation
      end
  end.

(** The loop of [__truediv__] that moves an exact quotient towards the
    ideal exponent: [while exp < ideal_exp and coeff % 10 == 0]. *)
Fixpoint strip_zeros (fuel : nat) (c : N) (e : Z) : N * Z :=
  match fuel with
  | O => (c, e)
  | S f => if (c mod 10 =? 0)%N then strip_zeros f (c / 10) (e + 1) else (c, e)
  end.

(** [x / y] ([Decimal.__truediv__]). *)
Definition dec_div (x y : dec) : result dec :=
  match check_nans x y with
  | Some r => r
  | None =>
      let sign := xorb (dsign x) (dsign y) in
      match x, y with
      | Inf _, Inf _ => Err InvalidOperation
      | Inf _, _ => Ok (Inf sign)
      | Fin _ _ _, Inf _ => Ok (Fin sign 0 Etiny)
      | Fin _ c1 e1, Fin _ c2 e2 =>
          if (c2 =? 0)%N then Err (if (c1 =? 0)%N then InvalidOperation else DivisionByZero)
          else if (c1 =? 0)%N then fix_dec (Fin sign 0 (e1 - e2))
          else
            let shift := ndigits c2 - ndigits c1 + prec + 1 in
            let exp := e1 - e2 - shift in
            let '(q, r) :=
              if 0 <=? shift then N.div_eucl (c1 * 10 ^ Z.to_N shift) c2
              else N.div_eucl c1 (c2 * 10 ^ Z.to_N (- shift)) in
            let '(coeff, exp') :=
              if negb (r =? 0)%N then
                (if (q mod 5 =? 0)%N then (q + 1)%N else q, exp)
              else strip_zeros (Z.to_nat (e1 - e2 - exp)) q exp in
            fix_dec (Fin sign coeff exp')
      | _, _ => Err InvalidOperation
      end
  end.

(** [Decimal._isinfinity]. *)
Definition inf_rank (x : dec) : Z :=
  match x with Inf false => 1 | Inf true => -1 | _ => 0 end.

(** [Decimal._cmp] of two non-NaN values. *)
Definition cmp_dec (x y : dec) : comparison :=
  match x, y with
  | Fin s1 c1 e1, Fin s2 c2 e2 =>
      let e := Z.min e1 e2 in
      Z.compare (signed s1 c1 * 10 ^ (e1 - e)) (signed s2 c2 * 10 ^ (e2 - e))
  | _, _ => Z.compare (inf_rank x) (inf_rank y)
  end.

Definition is_nan (x : dec) : bool :=
  match x with NaN _ _ | SNaN _ _ => true | _ => false end.

(** An ordering comparison ([<], [<=], [>], [>=]): [_compare_check_nans]
    raises InvalidOperation on any NaN operand. *)
Definition dec_compare (x y : dec) : result comparison :=
  if is_nan x || is_nan y then Err InvalidOperation else Ok (cmp_dec x y).

Definition dec_le (x y : dec) : result bool :=
  c <- dec_compare x y ;; Ok (match c with Gt => false | _ => true end).
Definition dec_lt (x y : dec) : result bool :=
  c <- dec_compare x y ;; Ok (match c with Lt => true | _ => false end).
Definition dec_gt (x y : dec) : result bool :=
  c <- dec_compare x y ;; Ok (match c with Gt => true | _ => false end).

(** ** Python strings: [str.strip], [str(int)], [Decimal(str)] and [str(Decimal)]

    A Python [str] is modelled as a [string] whose characters are the code
    points below 256. *)

Open Scope string_scope.
Open Scope Z_scope.

(** [str.isspace] on those code points. *)
Definition is_space (c : ascii) : bool :=
  let k := N_of_ascii c in
  ((9 <=? k) && (k <=? 13))%N || ((28 <=? k) && (k <=? 32))%N
  || (k =? 133)%N || (k =? 160)%N.

Fixpoint lstrip (s : string) : string :=
  match s with
  | String c s' => if is_space c then lstrip s' else s
  | EmptyString => EmptyString
  end.

Fixpoint rev_string (s : string) : string :=
  match s with
  | String c s' => rev_string s' ++ String c EmptyString
  | EmptyString => EmptyString
  end.

(** [s.strip()]. *)
Definition strip (s : string) : string := rev_string (lstrip (rev_string (lstrip s))).

Definition is_blank (s : string) : bool :=
  match strip s with EmptyString => true | _ => false end.

(** [str(z)] for a Python [int]. *)
Definition str_Z (z : Z) : string :=
  if z <? 0 then String "-" (str_N (Z.abs_N z)) else str_N (Z.to_N z).

(** The exponent part of [str(Decimal)]: ['%+d' % n]. *)
Definition str_Z_signed (z : Z) : string :=
  if z <? 0 then String "-" (str_N (Z.abs_N z)) else String "+" (str_N (Z.to_N z)).

Fixpoint remove_underscores (s : string) : string :=
  match s with
  | String c s' =>
      if Ascii.eqb c "_" then remove_underscores s' else String c (remove_underscores s')
  | EmptyString => EmptyString
  end.

(** ASCII lower case. *)
Definition lower_char (c : ascii) : ascii :=
  let k := N_of_ascii c in
  if (65 <=? k)%N && (k <=? 90)%N then ascii_of_N (k + 32) else c.

Fixpoint lower (s : string) : string :=
  match s with
  | String c s' => String (lower_char c) (lower s')
  | EmptyString => EmptyString
  end.

(** The longest prefix of ASCII digits, and the rest. *)
Fixpoint span_digits (s : string) : string * string :=
  match s with
  | String c s' =>
      if is_digit c then let '(d, r) := span_digits s' in (String c d, r) else (EmptyString, s)
  | EmptyString => (EmptyString, EmptyString)
  end.

Definition all_digits (s : string) : bool :=
  match span_digits s with (_, EmptyString) => true | _ => false end.

(** An optionally signed, non-empty string of digits: the exponent of a
    numeric string. *)
Definition parse_exponent (s : string) : option Z :=
  let '(neg, r) :=
    match s with
    | String "-" r => (true, r)
    | String "+" r => (false, r)
    | _ => (false, s)
    end in
  match r with
  | EmptyString => None
  | _ => match digits_val 0 r with
         | Some n => Some (if neg then - Z.of_N n else Z.of_N n)
         | None => None
         end
  end.

(** [digits ['.' digits] [('e'|'E') exponent]] with at least one digit:
    the coefficient and the exponent. *)
Definition parse_number (s : string) : option (N * Z) :=
  let '(ip, r1) := span_digits s in
  let '(fp, r2) :=
    match r1 with
    | String "." r => span_digits r
    | _ => (EmptyString, r1)
    end in
  match ip ++ fp with
  | EmptyString => None
  | ds =>
      let ex :=
        match r2 with
        | EmptyString => Some 0
        | String c r => if Ascii.eqb (lower_char c) "e" then parse_exponent r else None
        end in
      match ex, digits_val 0 ds with
      | Some x, Some c => Some (c, x - Z.of_nat (String.length fp))
      | _, _ => None
      end
  end.

(** [Inf], [Infinity], [NaN] with a payload, [sNaN] with a payload (any case). *)
Definition parse_special (sg : bool) (s : string) : option dec :=
  let l := lower s in
  if String.eqb l "inf" || String.eqb l "infinity" then Some (Inf sg)
  else
    match l with
    | String "n" (String "a" (String "n" ds)) =>
        if all_digits ds then option_map (NaN sg) (digits_val 0 ds) else None
    | String "s" (String "n" (String "a" (String "n" ds))) =>
        if all_digits ds then option_map (SNaN sg) (digits_val 0 ds) else None
    | _ => None
    end.

(** The limits of libmpdec that an exact conversion must respect. *)
Definition MAX_EMAX : Z := 999999999999999999.
Definition MIN_ETINY : Z := -1999999999999999997.

Definition in_exact_range (c : N) (e : Z) : bool :=
  if (c =? 0)%N then (MIN_ETINY <=? e) && (e <=? MAX_EMAX)
  else (MIN_ETINY <=? e) && (adjusted c e <=? MAX_EMAX).

(** [Decimal(s)] for a [str] [s]: exact, no context rounding.  The
    surrounding whitespace is stripped first, then every underscore is
    dropped ([s.strip().replace('_', '')] in [_pydecimal], the same order in
    [numeric_as_ascii] of [_decimal]); what remains must be a number or a
    special value, anything else raises InvalidOperation
    (ConversionSyntax). *)
Definition dec_of_string (s0 : string) : result dec :=
  let s := remove_underscores (strip s0) in
  let '(sg, rest) :=
    match s with
    | String "-" r => (true, r)
    | String "+" r => (false, r)
    | _ => (false, s)
    end in
  match parse_special sg rest with
  | Some d => Ok d
  | None =>
      match parse_number rest with
      | Some (c, e) => if in_exact_range c e then Ok (Fin sg c e) else Err InvalidOperation
      | None => Err InvalidOperation
      end
  end.

Definition sign_str (s : bool) : string := if s then "-" else "".

(** [str(d)] ([Decimal.__str__], scientific string). *)
Definition dec_to_string (d : dec) : string :=
  match d with
  | Inf s => sign_str s ++ "Infinity"
  | NaN s p => sign_str s ++ "NaN" ++ (if (p =? 0)%N then "" else str_N p)
  | SNaN s p => sign_str s ++ "sNaN" ++ (if (p =? 0)%N then "" else str_N p)
  | Fin s c e =>
      let int := str_N c in
      let len := ndigits c in
      let leftdigits := e + len in
      let dotplace := if (e <=? 0) && (-6 <? leftdigits) then leftdigits else 1 in
      let '(intpart, fracpart) :=
        if dotplace <=? 0 then
          ("0"%string, String "." (zeros (Z.to_nat (- dotplace)) ++ int))
        else if len <=? dotplace then
          (int ++ zeros (Z.to_nat (dotplace - len)), EmptyString)
        else
          (substring 0 (Z.to_nat dotplace) int,
           String "." (substring (Z.to_nat dotplace) (Z.to_nat (len - dotplace)) int)) in
      let expstr :=
        if leftdigits =? dotplace then EmptyString
        else String "E" (str_Z_signed (leftdigits - dotplace)) in
      sign_str s ++ intpart ++ fracpart ++ expstr
  end.

(** [format(d, 'f')]. *)
Definition format_f (d : dec) : string :=
  match d with
  | Fin s c0 e0 =>
      let '(c, e) := if (c0 =? 0)%N && (0 <? e0) then (0%N, 0) else (c0, e0) in
      let int := str_N c in
      let len := ndigits c in
      let dotplace := e + len in
      let '(intpart, fracpart) :=
        if dotplace <? 0 then ("0"%string, zeros (Z.to_nat (- dotplace)) ++ int)
        else if len <? dotplace then (int ++ zeros (Z.to_nat (dotplace - len)), EmptyString)
        else
          (match substring 0 (Z.to_nat dotplace) int with
           | EmptyString => "0"%string
           | ip => ip
           end,
           substring (Z.to_nat dotplace) (Z.to_nat (len - dotplace)) int) in
      sign_str s ++ intpart ++
        (match fracpart with EmptyString => EmptyString | _ => String "." fracpart end)
  | Inf s => sign_str s ++ dec_to_string (Inf false)
  | NaN s p => sign_str s ++ dec_to_string (NaN false p)
  | SNaN s p => sign_str s ++ dec_to_string (SNaN false p)
  end.

(** ** Python [float]

    A [float] is given by its [repr()], which [str()] also returns: the
    shortest decimal string that reads back as the same binary64 value,
    such as "0.1", "1e+22", "-0.0", "inf" or "nan". *)

(** [2^k * b <= a] for an integer [k] of any sign. *)
Definition pow2_le (a b k : Z) : bool :=
  if 0 <=? k then b * 2 ^ k <=? a else b <=? a * 2 ^ (- k).

(** The binary64 value nearest to the positive rational [a / b], ties to
    even, as [(m, k)] for [m * 2^k]: 53 significant bits, subnormal below
    2^-1022; [None] when it overflows to infinity.  For the decimal value
    of a [repr()] this is the [float] itself. *)
Definition nearest_double (a b : Z) : option (Z * Z) :=
  let t0 := Z.log2 a - Z.log2 b in
  (* 2^t <= a / b < 2^(t+1) *)
  let t := if pow2_le a b t0 then t0 else t0 - 1 in
  let k := Z.max (t - 52) (-1074) in
  let '(num, den) := if 0 <=? k then (a, b * 2 ^ k) else (a * 2 ^ (- k), b) in
  let m0 := num / den in
  let r := num mod den in
  let m := if (den <? 2 * r) || ((2 * r =? den) && Z.odd m0) then m0 + 1 else m0 in
  if 1024 <=? Z.log2 m + k then None else Some (m, k).

(** [int(f)] for a finite [float] whose [repr()] reads as [(-1)^s * c *
    10^e]: the float's value truncated toward zero. *)
Definition float_trunc (s : bool) (c : N) (e : Z) : result Z :=
  if (c =? 0)%N then Ok 0
  else
    let '(a, b) := if 0 <=? e then (Z.of_N c * 10 ^ e, 1) else (Z.of_N c, 10 ^ (- e)) in
    match nearest_double a b with
    | Some (m, k) =>
        let v := if 0 <=? k then m * 2 ^ k else m / 2 ^ (- k) in
        Ok (if s then - v else v)
    | None => Err OverflowError
    end.

(** ** Python values handled by [model.py]

    Values read from a JSON record or passed to the constructors. *)

Local Unset Elimination Schemes.
Inductive pyval :=
| PNone
| PInt (z : Z)
| PFloat (r : string)   (** a [float], by its [repr()] *)
| PStr (s : string)
| PDec (d : dec)
| PList (l : list pyval)
| PDict (kvs : list (string * pyval)).
Local Set Elimination Schemes.

(** [d[k]] and [d.get(k, default)] on a dict. *)
Fixpoint lookup (k : string) (kvs : list (string * pyval)) : option pyval :=
  match kvs with
  | [] => None
  | (k', v) :: rest => if String.eqb k k' then Some v else lookup k rest
  end.

Definition getitem (d : pyval) (k : string) : result pyval :=
  match d with
  | PDict kvs => match lookup k kvs with Some v => Ok v | None => Err KeyError end
  | _ => Err TypeError
  end.

Definition get (d : pyval) (k : string) (default : pyval) : result pyval :=
  match d with
  | PDict kvs => match lookup k kvs with Some v => Ok v | None => Ok default end
  | _ => Err AttributeError
  end.

(** Truthiness, [bool(v)]. *)
Definition truthy (v : pyval) : bool :=
  match v with
  | PNone => false
  | PInt z => negb (z =? 0)
  | PFloat r => match dec_of_string r with Ok (Fin _ c _) => negb (c =? 0)%N | _ => true end
  | PStr s => match s with EmptyString => false | _ => true end
  | PDec d => match d with Fin _ c _ => negb (c =? 0)%N | _ => true end
  | PList l => match l with [] => false | _ => true end
  | PDict l => match l with [] => false | _ => true end
  end.

(** [str(z)] for an [int]: ValueError beyond the 4300 digits of the
    default int-to-str conversion limit ([sys.get_int_max_str_digits()]). *)
Definition str_int (z : Z) : result string :=
  if 4300 <? ndigits (Z.abs_N z) then Err ValueError else Ok (str_Z z).

(** [Decimal(str(v))]: [str] of a number or a string, then the exact
    conversion.  [str] of [None], a list or a dict ("None", "[...]",
    "{...}") never converts. *)
Definition decimal_of_str_of (v : pyval) : result dec :=
  match v with
  | PInt z => s <- str_int z ;; dec_of_string s
  | PFloat r => dec_of_string r
  | PStr s => dec_of_string s
  | PDec d => dec_of_string (dec_to_string d)
  | _ => Err InvalidOperation
  end.

(** ** [model.py]: [Ingredient] *)

Record Ingredient := mkIngredient {
  name : string;
  quantity : dec;
  unit : pyval;
  price_per_unit : dec
}.

(** [if isinstance(x, (int, float, str)): x = Decimal(str(x))]; a
    [Decimal] is kept as it is. *)
Definition normalize_number (v : pyval) : result pyval :=
  match v with
  | PInt _ | PFloat _ | PStr _ => d <- decimal_of_str_of v ;; Ok (PDec d)
  | _ => Ok v
  end.

(** [if not name or not name.strip(): raise ValueError(...)]; only a [str]
    has [strip]. *)
Definition check_name (v : pyval) : result string :=
  if negb (truthy v) then Err ValueError
  else match v with
       | PStr s => if is_blank s then Err ValueError else Ok s
       | _ => Err AttributeError
       end.

(** [x <= 0] and [x < 0] for a normalized field: Decimal against [int]. *)
Definition le_zero (v : pyval) : result bool :=
  match v with PDec d => dec_le d dzero | _ => Err TypeError end.
Definition lt_zero (v : pyval) : result bool :=
  match v with PDec d => dec_lt d dzero | _ => Err TypeError end.

(** [Ingredient(name, quantity, unit, price_per_unit)], running
    [__post_init__]. *)
Definition Ingredient_new (nm : pyval) (q : pyval) (u : pyval) (p : pyval)
  : result Ingredient :=
  q' <- normalize_number q ;;
  p' <- normalize_number p ;;
  n <- check_name nm ;;
  qle <- le_zero q' ;;
  if qle then Err ValueError else
  plt <- lt_zero p' ;;
  if plt then Err ValueError else
  match q', p' with
  | PDec dq, PDec dp => Ok (mkIngredient n dq u dp)
  | _, _ => Err TypeError
  end.

(** The construction invariant: [__post_init__] accepts the fields. *)
Definition ingredient_ok (i : Ingredient) : Prop :=
  Ingredient_new (PStr (name i)) (PDec (quantity i)) (unit i) (PDec (price_per_unit i)) = Ok i.

Definition Ingredient_to_dict (i : Ingredient) : pyval :=
  PDict [("name", PStr (name i));
         ("quantity", PStr (dec_to_string (quantity i)));
         ("unit", unit i);
         ("price_per_unit", PStr (dec_to_string (price_per_unit i)))].

(** [Ingredient.from_dict]: the keyword arguments are evaluated left to right. *)
Definition Ingredient_from_dict (d : pyval) : result Ingredient :=
  nm <- getitem d "name" ;;
  qv <- getitem d "quantity" ;;
  q <- decimal_of_str_of qv ;;
  u <- get d "unit" (PStr "") ;;
  pv <- getitem d "price_per_unit" ;;
  p <- decimal_of_str_of pv ;;
  Ingredient_new nm (PDec q) u (PDec p).

(** ** [model.py]: [Recipe] *)

Record Recipe := mkRecipe {
  rname : pyval;
  ingredients : list Ingredient;
  servings : Z
}.

Definition Recipe_validate (r : Recipe) : result Datatypes.unit :=
  _ <- check_name (rname r) ;;
  if servings r <? 1 then Err ValueError else Ok tt.

Definition Recipe_to_dict (r : Recipe) : pyval :=
  PDict [("name", rname r);
         ("servings", PInt (servings r));
         ("ingredients", PList (map Ingredient_to_dict (ingredients r)))].

(** [int(v)]: an [int] is kept, a [float] truncated toward zero, a [str]
    parsed (surrounding whitespace,
    an optional sign, digits with single underscores between them, at most
    4300 digits: the default limit of [sys.get_int_max_str_digits()]). *)
Definition int_of_string (s0 : string) : result Z :=
  let s := strip s0 in
  let '(neg, r) :=
    match s with
    | String "-" r => (true, r)
    | String "+" r => (false, r)
    | _ => (false, s)
    end in
  let ok_us :=
    (fix go (prev_digit : bool) (t : string) : bool :=
       match t with
       | EmptyString => prev_digit
       | String c t' =>
           if is_digit c then go true t'
           else if Ascii.eqb c "_" then
             prev_digit && (match t' with String c' _ => is_digit c' | _ => false end)
             && go false t'
           else false
       end) false r in
  if ok_us then
    let ds := remove_underscores r in
    if (4300 <? String.length ds)%nat then Err ValueError
    else
      match digits_val 0 ds with
      | Some n => Ok (if neg then - Z.of_N n else Z.of_N n)
      | None => Err ValueError
      end
  else Err ValueError.

Definition py_int (v : pyval) : result Z :=
  match v with
  | PInt z => Ok z
  | PFloat r =>
      match dec_of_string r with
      | Ok (Fin s c e) => float_trunc s c e
      | Ok (Inf _) => Err OverflowError
      | _ => Err ValueError
      end
  | PStr s => int_of_string s
  | PDec (Fin s c e) =>
      Ok (signed s (if 0 <=? e then (c * 10 ^ Z.to_N e)%N else (c / 10 ^ Z.to_N (- e))%N))
  | PDec (Inf _) => Err OverflowError
  | PDec _ => Err ValueError
  | _ => Err TypeError
  end.

(** [for i in v]: a list yields its items, a [str] its characters, a dict
    its keys; other values are not iterable. *)
Definition iterate (v : pyval) : result (list pyval) :=
  match v with
  | PList l => Ok l
  | PStr s => Ok (map (fun c => PStr (String c EmptyString)) (list_ascii_of_string s))
  | PDict kvs => Ok (map (fun kv => PStr (fst kv)) kvs)
  | _ => Err TypeError
  end.

(** A list comprehension whose element expression may raise. *)
Fixpoint map_result {A B} (f : A -> result B) (l : list A) : result (list B) :=
  match l with
  | [] => Ok []
  | x :: rest => y <- f x ;; ys <- map_result f rest ;; Ok (y :: ys)
  end.

Definition Recipe_from_dict (d : pyval) : result Recipe :=
  iv <- get d "ingredients" (PList []) ;;
  items <- iterate iv ;;
  ings <- map_result Ingredient_from_dict items ;;
  nm <- get d "name" (PStr "") ;;
  sv <- get d "servings" (PInt 1) ;;
  n <- py_int sv ;;
  Ok (mkRecipe nm ings n).

(** ** [calc.py] *)

(** [MONEY_QUANT = Decimal("0.01")]. *)
Definition MONEY_QUANT : dec := Fin false 1 (-2).

Definition quantize_money (d : dec) : result dec := quantize d MONEY_QUANT ROUND_HALF_UP.

(** The loop [for ing in recipe.ingredients: total += q * p]. *)
Fixpoint sum_costs (total : dec) (ings : list Ingredient) : result dec :=
  match ings with
  | [] => Ok total
  | ing :: rest =>
      qp <- dec_mul (quantity ing) (price_per_unit ing) ;;
      total' <- dec_add total qp ;;
      sum_costs total' rest
  end.

Definition calculate_total_cost (r : Recipe) : result dec :=
  total <- sum_costs (Fin false 0 0) (ingredients r) ;;
  quantize_money total.

Definition calculate_cost_per_serving (r : Recipe) : result dec :=
  if servings r <=? 0 then Err ValueError
  else
    total <- calculate_total_cost r ;;
    per <- dec_div total (dec_of_Z (servings r)) ;;
    quantize_money per.

(** ** [cost_dialog.py]: the calculation parts of [CocktailCostDialog]

    One table row is the text of its five [QLineEdit] cells. *)

Record row_texts := mkRow {
  t_name : string;        (** COL_NAME *)
  t_row_price : string;   (** COL_ROW_PRICE *)
  t_qty : string;         (** COL_QTY *)
  t_unit : string;        (** COL_UNIT, the unit spec *)
  t_ppu : string          (** COL_PRICE_PER_UNIT *)
}.

(** [_format_ppu]. *)
Definition format_ppu (value : dec) : string :=
  match quantize value (Fin false 1 (-2)) ROUND_HALF_UP with
  | Ok out => format_f out
  | Err _ => dec_to_string value
  end.

(** [w.text().strip() if w and w.text() else default]. *)
Definition text_or (t default : string) : string :=
  match t with EmptyString => default | _ => strip t end.

(** [Decimal(text)], falling back to [Decimal("0")] on any exception. *)
Definition dec_or_zero (text : string) : dec :=
  match dec_of_string text with Ok d => d | Err _ => Fin false 0 0 end.

(** [_update_price_per_unit_for_row]: the new text of the row's
    price-per-unit cell.  Any exception inside the outer [try] leaves the
    cell as it is at that point.  [_set_debug] always raises
    AttributeError (the dialog builds no [debug_label]) right after the
    cell has been written, which ends the call. *)
Definition update_price_per_unit_for_row (rw : row_texts) : string :=
  let row_price_text := text_or (t_row_price rw) "" in
  let qty_text := text_or (t_qty rw) "0" in
  let unit_spec_text := text_or (t_unit rw) "0" in
  let row_price :=
    match row_price_text with
    | EmptyString => None
    | _ => match dec_of_string row_price_text with Ok d => Some d | Err _ => None end
    end in
  let qty := dec_or_zero qty_text in
  let unit_spec := dec_or_zero unit_spec_text in
  let body : result string :=
    match row_price with
    | Some rp =>
        qpos <- dec_gt qty dzero ;;
        upos <- (if qpos then dec_gt unit_spec dzero else Ok false) ;;
        if upos then
          ratio <- dec_div unit_spec qty ;;
          m <- dec_mul rp ratio ;;
          ppu <- quantize m (Fin false 1 (-6)) ROUND_HALF_EVEN ;;
          Ok (format_ppu ppu)
        else Ok EmptyString
    | None =>
        match row_price_text with
        | EmptyString => Ok (t_ppu rw)
        | _ => Ok EmptyString
        end
    end in
  match body with Ok t => t | Err _ => t_ppu rw end.

(** [t or default] for a [str]. *)
Definition or_text (t default : string) : string :=
  match t with EmptyString => default | _ => t end.

(** [_parse_decimal]: InvalidOperation becomes ValueError. *)
Definition parse_decimal (text : string) : result dec :=
  match dec_of_string (strip text) with Ok d => Ok d | Err _ => Err ValueError end.

(** One iteration of the row loop of [get_recipe]: [None] for a row that
    is skipped (blank name).  (The editor texts gathered at the start of
    [get_recipe] are never read.) *)
Definition get_recipe_row (rw : row_texts) : option (result Ingredient) :=
  if is_blank (t_name rw) then None
  else Some (
    let ing_name := strip (t_name rw) in
    qty <- parse_decimal (or_text (t_qty rw) "0") ;;
    let u := strip (t_unit rw) in
    let row_price_val :=
      if is_blank (t_row_price rw) then None
      else match dec_of_string (strip (t_row_price rw)) with
           | Ok d => Some d
           | Err _ => None
           end in
    use_row_price <-
      (match row_price_val with Some _ => dec_gt qty dzero | None => Ok false end) ;;
    price <-
      (match row_price_val with
       | Some rp => if use_row_price then dec_div rp qty
                    else parse_decimal (or_text (t_ppu rw) "0")
       | None => parse_decimal (or_text (t_ppu rw) "0")
       end) ;;
    Ingredient_new (PStr ing_name) (PDec qty) (PStr u) (PDec price)).

Fixpoint get_ingredients (rows : list row_texts) : result (list Ingredient) :=
  match rows with
  | [] => Ok []
  | rw :: rest =>
      match get_recipe_row rw with
      | None => get_ingredients rest
      | Some r => i <- r ;; is <- get_ingredients rest ;; Ok (i :: is)
      end
  end.

(** [get_recipe]: the servings control was removed, servings is 1. *)
Definition get_recipe (name_text : string) (rows : list row_texts) : result Recipe :=
  ings <- get_ingredients rows ;;
  Ok (mkRecipe (PStr (strip name_text)) ings 1).

(** ** Auxiliary notions used by the proofs *)

(** Every character of [s] satisfies [p]. *)
Fixpoint all_chars (p : ascii -> bool) (s : string) : bool :=
  match s with EmptyString => true | String c s' => p c && all_chars p s' end.

(** Characters of a printed decimal: neither blank nor an underscore. *)
Definition plain_char (c : ascii) : bool := negb (is_space c) && negb (Ascii.eqb c "_").

(** The exponent part written by [dec_to_string]: nothing when [b], else
    [E] and the signed exponent [x]. *)
Definition exp_suffix (b : bool) (x : Z) : string :=
  if b then "" else String "E" (str_Z_signed x).

(** ** Notions used to state the properties *)

(** A finite value whose printed form [Decimal] reads back exactly (the
    coefficient and exponent limits of the exact conversion); infinities
    and NaNs always are. *)
Definition repr_in_range (d : dec) : bool :=
  match d with Fin _ c e => in_exact_range c e | _ => true end.

(** The exact decimal denoted by an [int], a [str] or a [Decimal]
    argument; for a [float], the decimal that its [str()] writes (not the
    exact binary value: 0.1 gives 0.1). *)
Definition exact_decimal (v : pyval) : option dec :=
  match v with
  | PInt z => Some (dec_of_Z z)
  | PFloat r => match dec_of_string r with Ok d => Some d | Err _ => None end
  | PStr s => match dec_of_string s with Ok d => Some d | Err _ => None end
  | PDec d => Some d
  | _ => None
  end.

(** [str] of an [int] is within the 4300-digit limit of int-to-str
    conversion. *)
Definition int_str_ok (v : pyval) : Prop :=
  match v with PInt z => ndigits (Z.abs_N z) <= 4300 | _ => True end.

Definition missing_key (k : string) (kvs : list (string * pyval)) : bool :=
  match lookup k kvs with None => true | Some _ => false end.

(** A decimal field stored as a string that does not convert. *)
Definition non_numeric (v : option pyval) : bool :=
  match v with
  | Some (PStr s) => match dec_of_string s with Err _ => true | Ok _ => false end
  | _ => false
  end.

(** A persisted ingredient record with a missing key or a non-numeric
    decimal string (anything but a dict is malformed too). *)
Definition malformed_ingredient (v : pyval) : bool :=
  match v with
  | PDict kvs =>
      missing_key "name" kvs || missing_key "quantity" kvs || missing_key "price_per_unit" kvs
      || non_numeric (lookup "quantity" kvs) || non_numeric (lookup "price_per_unit" kvs)
  | _ => true
  end.

(** [v >= 0] evaluates to [True] (no exception). *)
Definition is_nonneg (v : dec) : bool :=
  match dec_compare v dzero with Ok Lt | Err _ => false | Ok _ => true end.

(** The representation of a value that is not below zero: a non-negative
    sign or a zero coefficient, or positive infinity. *)
Definition nonneg_repr (d : dec) : bool :=
  match d with
  | Fin s c _ => negb s || (c =? 0)%N
  | Inf s => negb s
  | _ => false
  end.

(** [a / n] rounded to an integer, ties away from zero: a cost in cents
    divided by a number of servings, rounded half-up to cents. *)
Definition round_div_half_up (a n : Z) : Z :=
  if a <? 0 then - ((2 * (- a) + n) / (2 * n)) else (2 * a + n) / (2 * n).

(** A sample recipe. *)
Definition gin_tonic : Recipe :=
  mkRecipe (PStr "G&T")
    [mkIngredient "Gin" (Fin false 50 0) (PStr "ml") (Fin false 2 (-2));
     mkIngredient "Tonic" (Fin false 150 0) (PStr "ml") (Fin false 5 (-3))] 1.

(** ** The objects of a session, for the frame property of [Ingredient]

    [Ingredient] is a plain [@dataclass] (not frozen): its instances are
    Python objects whose four attributes can be read and assigned.  They
    live in a store, a location being an index; a [Recipe] object refers
    to its ingredient objects by location.  A computation on the heap is
    a state-and-error monad.  [Ingredient(...)] allocates the object with
    the four arguments (the generated [__init__]) and runs
    [__post_init__] on it, which assigns the normalized quantity and
    price_per_unit to the object's attributes before validating. *)

Inductive field := FName | FQuantity | FUnit | FPricePerUnit.

Record obj := mkObj {
  o_name : pyval;
  o_quantity : pyval;
  o_unit : pyval;
  o_price_per_unit : pyval
}.

Definition get_field (f : field) (o : obj) : pyval :=
  match f with
  | FName => o_name o
  | FQuantity => o_quantity o
  | FUnit => o_unit o
  | FPricePerUnit => o_price_per_unit o
  end.

Definition set_field (f : field) (v : pyval) (o : obj) : obj :=
  match f with
  | FName => mkObj v (o_quantity o) (o_unit o) (o_price_per_unit o)
  | FQuantity => mkObj (o_name o) v (o_unit o) (o_price_per_unit o)
  | FUnit => mkObj (o_name o) (o_quantity o) v (o_price_per_unit o)
  | FPricePerUnit => mkObj (o_name o) (o_quantity o) (o_unit o) v
  end.

Record recipe_obj := mkRecipeObj {
  ro_name : pyval;
  ro_ingredients : list nat;   (** locations of the ingredient objects *)
  ro_servings : Z
}.

Record heap := mkHeap {
  store : list obj;
  recipes : list recipe_obj
}.

(** The list with its [n]-th element replaced (unchanged out of range). *)
Fixpoint list_set {A} (xs : list A) (n : nat) (x : A) : list A :=
  match xs, n with
  | [], _ => []
  | _ :: rest, O => x :: rest
  | y :: rest, S n' => y :: list_set rest n' x
  end.

Definition st (A : Type) : Type := heap -> heap * result A.

Definition ret {A} (a : A) : st A := fun h => (h, Ok a).
Definition raise {A} (e : pyerr) : st A := fun h => (h, Err e).
Definition lift {A} (r : result A) : st A := fun h => (h, r).
Definition st_bind {A B} (m : st A) (k : A -> st B) : st B :=
  fun h => let '(h', r) := m h in
           match r with Ok a => k a h' | Err e => (h', Err e) end.

Notation "x <-- m ;;; k" := (st_bind m (fun x => k))
  (at level 61, m at next level, right associativity).

(** [obj.f] *)
Definition getattr (l : nat) (f : field) : st pyval :=
  fun h => match nth_error (store h) l with
           | Some o => (h, Ok (get_field f o))
           | None => (h, Err AttributeError)
           end.

(** [obj.f = v] *)
Definition setattr (l : nat) (f : field) (v : pyval) : st Datatypes.unit :=
  fun h => match nth_error (store h) l with
           | Some o => (mkHeap (list_set (store h) l (set_field f v o)) (recipes h), Ok tt)
           | None => (h, Err AttributeError)
           end.

Definition new_obj (o : obj) : st nat :=
  fun h => (mkHeap (store h ++ [o])%list (recipes h), Ok (length (store h))).

Definition new_recipe (ro : recipe_obj) : st nat :=
  fun h => (mkHeap (store h) (recipes h ++ [ro])%list, Ok (length (recipes h))).

(** [isinstance(v, (int, float, str))] *)
Definition is_num_or_str (v : pyval) : bool :=
  match v with PInt _ | PFloat _ | PStr _ => true | _ => false end.

(** [Ingredient.__post_init__] on the object at [self]. *)
Definition post_init (self : nat) : st Datatypes.unit :=
  q <-- getattr self FQuantity ;;;
  _ <-- (if is_num_or_str q then d <-- lift (decimal_of_str_of q) ;;;
                                 setattr self FQuantity (PDec d)
         else ret tt) ;;;
  p <-- getattr self FPricePerUnit ;;;
  _ <-- (if is_num_or_str p then d <-- lift (decimal_of_str_of p) ;;;
                                 setattr self FPricePerUnit (PDec d)
         else ret tt) ;;;
  nm <-- getattr self FName ;;;
  _ <-- lift (check_name nm) ;;;
  q' <-- getattr self FQuantity ;;;
  qle <-- lift (le_zero q') ;;;
  if qle then raise ValueError else
  p' <-- getattr self FPricePerUnit ;;;
  plt <-- lift (lt_zero p') ;;;
  if plt then raise ValueError else ret tt.

(** [Ingredient(name=nm, quantity=q, unit=u, price_per_unit=p)]: the
    location of the new object.  When [__post_init__] raises, the object
    stays in the store, unreachable. *)
Definition Ingredient_init (nm q u p : pyval) : st nat :=
  self <-- new_obj (mkObj nm q u p) ;;;
  _ <-- post_init self ;;;
  ret self.

Definition Ingredient_from_dict_h (d : pyval) : st nat :=
  nm <-- lift (getitem d "name") ;;;
  qv <-- lift (getitem d "quantity") ;;;
  q <-- lift (decimal_of_str_of qv) ;;;
  u <-- lift (get d "unit" (PStr "")) ;;;
  pv <-- lift (getitem d "price_per_unit") ;;;
  p <-- lift (decimal_of_str_of pv) ;;;
  Ingredient_init nm (PDec q) u (PDec p).

Fixpoint map_st {A B} (f : A -> st B) (l : list A) : st (list B) :=
  match l with
  | [] => ret []
  | x :: rest => y <-- f x ;;; ys <-- map_st f rest ;;; ret (y :: ys)
  end.

(** [Recipe.from_dict]: the location of the new recipe object. *)
Definition Recipe_from_dict_h (d : pyval) : st nat :=
  iv <-- lift (get d "ingredients" (PList [])) ;;;
  items <-- lift (iterate iv) ;;;
  ings <-- map_st Ingredient_from_dict_h items ;;;
  nm <-- lift (get d "name" (PStr "")) ;;;
  sv <-- lift (get d "servings" (PInt 1)) ;;;
  n <-- lift (py_int sv) ;;;
  new_recipe (mkRecipeObj nm ings n).

(** The row loop body of [get_recipe] up to the call [Ingredient(...)]:
    the arguments of the call. *)
Definition get_recipe_row_args (rw : row_texts) : option (result (pyval * pyval * pyval * pyval)) :=
  if is_blank (t_name rw) then None
  else Some (
    let ing_name := strip (t_name rw) in
    qty <- parse_decimal (or_text (t_qty rw) "0") ;;
    let u := strip (t_unit rw) in
    let row_price_val :=
      if is_blank (t_row_price rw) then None
      else match dec_of_string (strip (t_row_price rw)) with
           | Ok d => Some d
           | Err _ => None
           end in
    use_row_price <-
      (match row_price_val with Some _ => dec_gt qty dzero | None => Ok false end) ;;
    price <-
      (match row_price_val with
       | Some rp => if use_row_price then dec_div rp qty
                    else parse_decimal (or_text (t_ppu rw) "0")
       | None => parse_decimal (or_text (t_ppu rw) "0")
       end) ;;
    Ok (PStr ing_name, PDec qty, PStr u, PDec price)).

Fixpoint get_ingredients_h (rows : list row_texts) : st (list nat) :=
  match rows with
  | [] => ret []
  | rw :: rest =>
      match get_recipe_row_args rw with
      | None => get_ingredients_h rest
      | Some r =>
          a <-- lift r ;;;
          l <-- (let '(nm, q, u, p) := a in Ingredient_init nm q u p) ;;;
          ls <-- get_ingredients_h rest ;;;
          ret (l :: ls)
      end
  end.

Definition get_recipe_h (name_text : string) (rows : list row_texts) : st nat :=
  ls <-- get_ingredients_h rows ;;;
  new_recipe (mkRecipeObj (PStr (strip name_text)) ls 1).

(** The [Ingredient] value an object holds, when its attributes have the
    types [__post_init__] leaves (a [str] name, [Decimal] quantity and
    price_per_unit). *)
Definition obj_ingredient (o : obj) : option Ingredient :=
  match o_name o, o_quantity o, o_price_per_unit o with
  | PStr n, PDec q, PDec p => Some (mkIngredient n q (o_unit o) p)
  | _, _, _ => None
  end.

(** The object an [Ingredient] value is held in. *)
Definition ingredient_obj (i : Ingredient) : obj :=
  mkObj (PStr (name i)) (PDec (quantity i)) (unit i) (PDec (price_per_unit i)).

Fixpoint deref (st : list obj) (ls : list nat) : option (list Ingredient) :=
  match ls with
  | [] => Some []
  | l :: rest =>
      match nth_error st l, deref st rest with
      | Some o, Some is =>
          match obj_ingredient o with Some i => Some (i :: is) | None => None end
      | _, _ => None
      end
  end.

(** The recipe object at index [k], read through the heap. *)
Definition view (h : heap) (k : nat) : option Recipe :=
  match nth_error (recipes h) k with
  | Some ro =>
      match deref (store h) (ro_ingredients ro) with
      | Some is => Some (mkRecipe (ro_name ro) is (ro_servings ro))
      | None => None
      end
  | None => None
  end.

(** The operations of [model.py], [calc.py] and [cost_dialog.py] that
    produce or take these objects, and the assignment [obj.f = v] to an
    attribute of an ingredient object, which the class allows any code
    holding the object to do. *)
Inductive op :=
| NewIngredient (nm q u p : pyval)               (** [Ingredient(...)] *)
| SetAttr (l : nat) (f : field) (v : pyval)      (** [ing.f = v] *)
| NewRecipe (nm : pyval) (ls : list nat) (n : Z) (** [Recipe(nm, [ings], n)] *)
| LoadRecipe (d : pyval)                         (** [Recipe.from_dict(d)] *)
| DialogRecipe (name : string) (rows : list row_texts)  (** [get_recipe()] *)
| UpdateRow (rw : row_texts)                     (** [_update_price_per_unit_for_row] *)
| TotalCost (k : nat)                            (** [calculate_total_cost] *)
| CostPerServing (k : nat)                       (** [calculate_cost_per_serving] *)
| Validate (k : nat)                             (** [Recipe.validate] *)
| SaveRecipe (k : nat).                          (** [Recipe.to_dict] *)

(** What an operation returns; [OUnit] also stands for a recipe whose
    objects no longer hold the attribute types of an [Ingredient]. *)
Inductive outcome :=
| OUnit
| ORef (r : result nat)
| OAssign (r : result Datatypes.unit)
| ODec (r : result dec)
| OValid (r : result Datatypes.unit)
| ODict (d : pyval)
| OText (t : string).

(** One operation: the new heap and what it returns. *)
Definition exec (o : op) (h : heap) : heap * outcome :=
  match o with
  | NewIngredient nm q u p => let '(h', r) := Ingredient_init nm q u p h in (h', ORef r)
  | SetAttr l f v => let '(h', r) := setattr l f v h in (h', OAssign r)
  | NewRecipe nm ls n => let '(h', r) := new_recipe (mkRecipeObj nm ls n) h in (h', ORef r)
  | LoadRecipe d => let '(h', r) := Recipe_from_dict_h d h in (h', ORef r)
  | DialogRecipe name rows => let '(h', r) := get_recipe_h name rows h in (h', ORef r)
  | UpdateRow rw => (h, OText (update_price_per_unit_for_row rw))
  | TotalCost k =>
      (h, match view h k with Some r => ODec (calculate_total_cost r) | None => OUnit end)
  | CostPerServing k =>
      (h, match view h k with Some r => ODec (calculate_cost_per_serving r) | None => OUnit end)
  | Validate k =>
      (h, match view h k with Some r => OValid (Recipe_validate r) | None => OUnit end)
  | SaveRecipe k =>
      (h, match view h k with Some r => ODict (Recipe_to_dict r) | None => OUnit end)
  end.

Fixpoint run_ops (ops : list op) (h : heap) : heap :=
  match ops with
  | [] => h
  | o :: rest => run_ops rest (fst (exec o h))
  end.

(** The outcomes of a run, in order. *)
Fixpoint run_outcomes (ops : list op) (h : heap) : list outcome :=
  match ops with
  | [] => []
  | o :: rest => snd (exec o h) :: run_outcomes rest (fst (exec o h))
  end.

(** The assignments [obj.f = v] to the object at [l], in order. *)
Fixpoint assignments (l : nat) (ops : list op) : list (field * pyval) :=
  match ops with
  | [] => []
  | SetAttr l' f v :: rest =>
      if Nat.eqb l' l then (f, v) :: assignments l rest else assignments l rest
  | _ :: rest => assignments l rest
  end.

Definition apply_assignments (asg : list (field * pyval)) (o : obj) : obj :=
  fold_left (fun o fv => set_field (fst fv) (snd fv) o) asg o.

(** [m] keeps the first [n] objects of the store as they are. *)
Definition frames {A} (n : nat) (m : st A) : Prop :=
  forall h, (n <= length (store h))%nat ->
    (n <= length (store (fst (m h))))%nat /\
    forall l, (l < n)%nat -> nth_error (store (fst (m h))) l = nth_error (store h) l.

(** A session: an ingredient, a recipe holding it, its total; then an
    assignment of a negative quantity to the ingredient, and the total
    again. *)
Definition session : list op :=
  [NewIngredient (PStr "Gin") (PInt 50) (PStr "ml") (PStr "0.02");
   NewRecipe (PStr "G&T") [0%nat] 1;
   TotalCost 0;
   SetAttr 0 FQuantity (PDec (Fin true 50 0));
   TotalCost 0].

(** ** Exact costs, for the rounding of the total

    A finite decimal with an exponent of at least -12 as an integer number
    of 10^-12 units; quantities and prices of at most six decimal places as
    integers of 10^-6 units. *)

Definition scaled12 (d : dec) : option Z :=
  match d with
  | Fin s c e => if -12 <=? e then Some (signed s c * 10 ^ (e + 12)) else None
  | _ => None
  end.
(** At most six decimal places. *)
Definition six_places (d : dec) : bool :=
  match d with Fin _ _ e => -6 <=? e | _ => false end.
Definition val6 (d : dec) : Z :=
  match d with Fin s c e => signed s c * 10 ^ (e + 6) | _ => 0 end.
(** The exact [sum(quantity * price_per_unit)], in units of 10^-12. *)
Definition exact_cost12 (ings : list Ingredient) : Z :=
  fold_right (fun i acc => val6 (quantity i) * val6 (price_per_unit i) + acc) 0 ings.
(** [sum(abs(quantity * price_per_unit))], in units of 10^-12. *)
Definition abs_cost12 (ings : list Ingredient) : Z :=
  fold_right (fun i acc => Z.abs (val6 (quantity i) * val6 (price_per_unit i)) + acc) 0 ings.
(** An amount of 10^-12 units rounded to cents, ties away from zero
    (ROUND_HALF_UP). *)
Definition round_half_up_cents (S : Z) : Z :=
  if S <? 0 then - ((- S + 5 * 10 ^ 9) / 10 ^ 10) else (S + 5 * 10 ^ 9) / 10 ^ 10.

(** A recipe with a price of 29 significant digits. *)
Definition big_price_recipe : Recipe :=
  mkRecipe (PStr "Gold")
    [mkIngredient "Gold leaf" (Fin false 1 0) (PStr "g")
                  (Fin false 10000000000000000000000000005 (-3))] 1.

(** A recipe of two servings whose total has 28 significant digits. *)
Definition shared_bottle : Recipe :=
  mkRecipe (PStr "Gold")
    [mkIngredient "Gold leaf" (Fin false 1 0) (PStr "g")
                  (Fin false 9999999999999999999999999997 (-2))] 2.


(** ** [cost_dialog.py]: the table operations of [CocktailCostDialog]

    The table is the list of its rows and the text of [ppu_sum_label].
    [setText] on a cell runs the slots of its [textChanged] signal at
    once, when the text changes. *)

Record table := mkTable {
  tb_rows : list row_texts;
  tb_label : string    (** the text of [ppu_sum_label] *)
}.

(** One iteration of [_update_ppu_sum]: [total += Decimal(w.text())]
    inside [try]; a cell that does not convert, or whose addition raises,
    is skipped. *)
Definition ppu_sum_step (total : dec) (rw : row_texts) : dec :=
  if is_blank (t_ppu rw) then total
  else match d <- dec_of_string (t_ppu rw) ;; dec_add total d with
       | Ok t => t
       | Err _ => total
       end.

Definition ppu_sum (rows : list row_texts) : dec := fold_left ppu_sum_step rows (Fin false 0 0).

(** [_update_ppu_sum]: the text set on the label. *)
Definition update_ppu_sum (rows : list row_texts) : string :=
  "PPU sum: " ++ format_ppu (ppu_sum rows).

Definition set_ppu (rw : row_texts) (t : string) : row_texts :=
  mkRow (t_name rw) (t_row_price rw) (t_qty rw) (t_unit rw) t.

(** [_update_all_price_per_unit]: each price-per-unit cell gets the text
    [_update_price_per_unit_for_row] computes from the cells of its row
    (the slots of that cell only refresh the label); then the label. *)
Definition update_all_price_per_unit (rows : list row_texts) : table :=
  let rows' := map (fun rw => set_ppu rw (update_price_per_unit_for_row rw)) rows in
  mkTable rows' (update_ppu_sum rows').

(** [QTableWidget.removeRow]: a row number out of range removes nothing. *)
Fixpoint remove_row (rows : list row_texts) (r : nat) : list row_texts :=
  match rows, r with
  | [], _ => []
  | _ :: rest, O => rest
  | rw :: rest, S r' => rw :: remove_row rest r'
  end.

(** [sorted(..., reverse=True)] on row numbers. *)
Fixpoint insert_desc (x : nat) (l : list nat) : list nat :=
  match l with
  | [] => [x]
  | y :: l' => if (y <=? x)%nat then x :: l else y :: insert_desc x l'
  end.
Definition sort_desc (l : list nat) : list nat := fold_right insert_desc [] l.

(** [remove_selected_row], given the row numbers of the selected indexes
    (a row appears once per selected cell). *)
Definition remove_selected_row (selected : list nat) (rows : list row_texts) : table :=
  update_all_price_per_unit
    (fold_left remove_row (sort_desc (nodup Nat.eq_dec selected)) rows).

(** [CocktailCostDialog.validate]. *)
Definition dialog_validate (name_text : string) (rows : list row_texts) : result Datatypes.unit :=
  recipe <- get_recipe name_text rows ;; Recipe_validate recipe.

Inductive accept_outcome :=
| Accepted            (** [super().accept()]: the dialog closes *)
| Warned (e : pyerr). (** [QMessageBox.warning] with [str(exc)] *)

(** [CocktailCostDialog.accept]. *)
Definition accept (name_text : string) (rows : list row_texts) : accept_outcome :=
  match recipe <- get_recipe name_text rows ;; Recipe_validate recipe with
  | Ok _ => Accepted
  | Err e => Warned e
  end.

(** One iteration of the row loop of [on_calculate]: [None] when the row
    is left as it is, [Some t] when [t] is set on its row-price cell.  An
    exception outside the inner [try] ends [on_calculate]. *)
Definition on_calculate_row (rw : row_texts) : result (option string) :=
  if is_blank (t_name rw) then Ok None
  else
    let item_text := text_or (t_row_price rw) "" in
    let qty := dec_or_zero (or_text (t_qty rw) "0") in
    let ppu := dec_or_zero (or_text (t_ppu rw) "0") in
    match item_text with
    | EmptyString =>
        m <- dec_mul qty ppu ;;
        displayed_row_cost <- quantize m (Fin false 1 (-2)) ROUND_HALF_UP ;;
        Ok (Some (dec_to_string displayed_row_cost))
    | _ => Ok None
    end.

Fixpoint set_row_price_at (rows : list row_texts) (i : nat) (t : string) : list row_texts :=
  match rows, i with
  | [], _ => []
  | rw :: rest, O => mkRow (t_name rw) t (t_qty rw) (t_unit rw) (t_ppu rw) :: rest
  | rw :: rest, S i' => rw :: set_row_price_at rest i' t
  end.

(** [row_price_w.setText(t)] on row [i]: when the text changes, its slot
    [_update_all_price_per_unit] runs. *)
Definition set_row_price (tb : table) (i : nat) (t : string) : table :=
  match nth_error (tb_rows tb) i with
  | Some rw =>
      if String.eqb (t_row_price rw) t then tb
      else update_all_price_per_unit (set_row_price_at (tb_rows tb) i t)
  | None => tb
  end.

(** [for r in range(self.table.rowCount())], from row [i], [k] rows left. *)
Fixpoint on_calculate_loop (k i : nat) (tb : table) : table * option pyerr :=
  match k with
  | O => (tb, None)
  | S k' =>
      match nth_error (tb_rows tb) i with
      | None => (tb, None)
      | Some rw =>
          match on_calculate_row rw with
          | Err e => (tb, Some e)
          | Ok None => on_calculate_loop k' (S i) tb
          | Ok (Some t) => on_calculate_loop k' (S i) (set_row_price tb i t)
          end
      end
  end.

Inductive warning :=
| NoIngredient        (** "Add at least one ingredient" *)
| ErrorWarning (e : pyerr).

(** [on_calculate]: the table afterwards and the warning shown, if any. *)
Definition on_calculate (name_text : string) (tb : table) : table * option warning :=
  match recipe <- get_recipe name_text (tb_rows tb) ;;
        match ingredients recipe with
        | [] => Ok false
        | _ =>
            _ <- Recipe_validate recipe ;;
            _ <- calculate_total_cost recipe ;;
            _ <- calculate_cost_per_serving recipe ;;
            Ok true
        end with
  | Err e => (tb, Some (ErrorWarning e))
  | Ok false => (tb, Some NoIngredient)
  | Ok true =>
      let '(tb', err) := on_calculate_loop (length (tb_rows tb)) 0 tb in
      (tb', option_map ErrorWarning err)
  end.

(** [ch.upper()] for a code point [ch] below 256: the ASCII and Latin-1
    small letters; the sharp s (223) gives ["SS"]; the upper cases of the
    micro sign (181) and of the y with diaeresis (255) are above 255 ([None]). *)
Definition upper_char (c : ascii) : option string :=
  let k := N_of_ascii c in
  if ((97 <=? k) && (k <=? 122))%N then Some (String (ascii_of_N (k - 32)) EmptyString)
  else if ((224 <=? k) && (k <=? 254) && negb (k =? 247))%N
  then Some (String (ascii_of_N (k - 32)) EmptyString)
  else if (k =? 223)%N then Some "SS"
  else if ((k =? 181) || (k =? 255))%N then None
  else Some (String c EmptyString).

(** [_capitalize_first]: the text of the widget afterwards ([None] when
    it would hold a code point above 255). *)
Definition capitalize_first (text : string) : option string :=
  match text with
  | EmptyString => Some text
  | String c rest =>
      match upper_char c with
      | Some u =>
          let new := (u ++ rest)%string in
          if negb (String.eqb new text) then Some new else Some text
      | None => None
      end
  end.

(** The rows that are not selected, numbering from [i]. *)
Fixpoint keep_rows (sel : nat -> bool) (i : nat) (rows : list row_texts) : list row_texts :=
  match rows with
  | [] => []
  | rw :: rest => if sel i then keep_rows sel (S i) rest else rw :: keep_rows sel (S i) rest
  end.

(** Strictly decreasing. *)
Fixpoint strictly_desc (l : list nat) : Prop :=
  match l with
  | [] => True
  | x :: l' => Forall (fun y => (y < x)%nat) l' /\ strictly_desc l'
  end.

(** The first character is not blank. *)
Definition head_nonspace (s : string) : Prop :=
  match s with EmptyString => True | String c _ => is_space c = false end.

(** A row that [get_recipe] reads: its name is not blank. *)
Definition named (rw : row_texts) : bool := negb (is_blank (t_name rw)).

(** A price-per-unit cell that [_update_ppu_sum] skips: blank, or not a
    decimal. *)
Definition skipped_cell (t : string) : bool :=
  is_blank t || match dec_of_string t with Ok _ => false | Err _ => true end.

(** The value of a price-per-unit cell in units of 10^-12 (0 for a
    skipped cell, or one with more than twelve decimal places). *)
Definition cell12 (t : string) : Z :=
  if is_blank t then 0
  else match dec_of_string t with
       | Ok d => match scaled12 d with Some v => v | None => 0 end
       | Err _ => 0
       end.

(** A cell that is skipped, or holds a decimal with at most twelve
    decimal places. *)
Definition cell_ok (t : string) : bool :=
  skipped_cell t ||
  match dec_of_string t with Ok d => match scaled12 d with Some _ => true | None => false end | Err _ => false end.

(** The sum of the cells, and of their absolute values, in units of
    10^-12. *)
Definition sum12 (rows : list row_texts) : Z := fold_right (fun rw acc => cell12 (t_ppu rw) + acc) 0 rows.
Definition abs_sum12 (rows : list row_texts) : Z :=
  fold_right (fun rw acc => Z.abs (cell12 (t_ppu rw)) + acc) 0 rows.

(** [j] is among the selected row numbers. *)
Definition selected_in (l : list nat) (j : nat) : bool := existsb (Nat.eqb j) l.

(** A row whose row-price cell [on_calculate] leaves alone: a blank name,
    or a row price that is not blank. *)
Definition keeps_row_price (rw : row_texts) : bool :=
  is_blank (t_name rw) || negb (is_blank (t_row_price rw)).

(** [rw'] is [rw] after [on_calculate]: the same name, quantity and unit
    spec, and the same row price when [on_calculate] leaves it alone. *)
Definition kept (rw rw' : row_texts) : Prop :=
  t_name rw' = t_name rw /\ t_qty rw' = t_qty rw /\ t_unit rw' = t_unit rw /\
  (keeps_row_price rw = true -> t_row_price rw' = t_row_price rw).

(** A table of the dialog: a named row priced per unit, a row with a blank
    name, and a row with a row price. *)
Definition sample_rows : list row_texts :=
  [mkRow " Gin " "" "50" "ml" "0.03";
   mkRow "  " "" "" "" "abc";
   mkRow "Tonic" "2.50" "200" "100" ""].

Definition sample_table : table := mkTable sample_rows "PPU sum: 0.00".

(** [sample_table] after [on_calculate]: the Gin row price is filled in,
    and the sweep that follows clears the Gin price per unit (its unit spec
    is not a number) and fills the Tonic one. *)
Definition calculated_table : table :=
  mkTable [mkRow " Gin " "1.50" "50" "ml" "";
           mkRow "  " "" "" "" "abc";
           mkRow "Tonic" "2.50" "200" "100" "1.25"] "PPU sum: 1.25".

Definition sample_recipe : Recipe :=
  mkRecipe (PStr "G&T")
    [mkIngredient "Gin" (Fin false 50 0) (PStr "ml") (Fin false 3 (-2));
     mkIngredient "Tonic" (Fin false 200 0) (PStr "100") (Fin false 125 (-4))] 1.


(** * Proofs *)

(** ** Digit strings, and [Decimal(str(d)) == d] *)

Lemma sapp_assoc (a b c : string) : (a ++ b) ++ c = a ++ (b ++ c).
Proof. induction a as [|x a IH]; simpl; [reflexivity | now rewrite IH]. Qed.

Lemma sapp_nil_r (a : string) : a ++ "" = a.
Proof. induction a as [|x a IH]; simpl; [reflexivity | now rewrite IH]. Qed.

Lemma slength_app (a b : string) : String.length (a ++ b) = (String.length a + String.length b)%nat.
Proof. induction a as [|x a IH]; simpl; [reflexivity | now rewrite IH]. Qed.

Lemma digits_aux_acc (f : nat) : forall n acc, digits_aux f n acc = digits_aux f n "" ++ acc.
Proof.
  induction f as [|f IH]; intros n acc; simpl; [reflexivity|].
  destruct (n <? 10)%N; [reflexivity|].
  rewrite (IH _ (String _ acc)), (IH _ (String _ "")), sapp_assoc. reflexivity.
Qed.

Lemma digits_val_app (s1 s2 : string) : forall a,
  digits_val a (s1 ++ s2) =
  match digits_val a s1 with Some v => digits_val v s2 | None => None end.
Proof.
  induction s1 as [|c s1 IH]; intros a; simpl; [reflexivity|].
  destruct (digit_val c); [apply IH | reflexivity].
Qed.

Lemma digit_val_char (d : N) : (d < 10)%N -> digit_val (digit_char d) = Some d.
Proof.
  intros Hd. unfold digit_val, digit_char.
  rewrite N_ascii_embedding by lia.
  replace ((48 <=? 48 + d)%N && (48 + d <=? 57)%N) with true.
  - f_equal; lia.
  - symmetry; apply andb_true_intro; split; apply N.leb_le; lia.
Qed.

Lemma is_digit_char (d : N) : (d < 10)%N -> is_digit (digit_char d) = true.
Proof. intros Hd; unfold is_digit; now rewrite digit_val_char. Qed.

Lemma digits_aux_val (f : nat) : forall n,
  (n < 10 ^ N.of_nat f)%N -> f <> O -> digits_val 0 (digits_aux f n "") = Some n.
Proof.
  induction f as [|f IH]; intros n Hn Hf; [congruence|]. simpl.
  assert (Hm : (n mod 10 < 10)%N) by (apply N.mod_lt; lia).
  destruct (n <? 10)%N eqn:E.
  - apply N.ltb_lt in E. simpl. rewrite digit_val_char by exact Hm.
    f_equal. rewrite N.mod_small by exact E. lia.
  - apply N.ltb_ge in E.
    rewrite digits_aux_acc, digits_val_app.
    assert (Hf' : f <> O).
    { intros ->. simpl in Hn. lia. }
    rewrite IH; [| |exact Hf'].
    + simpl. rewrite digit_val_char by exact Hm.
      f_equal. pose proof (N.div_mod n 10). lia.
    + rewrite Nat2N.inj_succ, N.pow_succ_r' in Hn.
      apply N.Div0.div_lt_upper_bound; lia.
Qed.

Lemma size_nat_bound (n : N) : (n < 10 ^ N.of_nat (S (N.size_nat n)))%N.
Proof.
  assert (H2 : (n < 2 ^ N.of_nat (N.size_nat n))%N).
  { destruct n as [|p]; simpl; [lia|].
    induction p as [p IH|p IH|]; cbn [N.size_nat Pos.size_nat] in *; rewrite ?Nat2N.inj_succ, ?N.pow_succ_r'.
    - change (N.pos p~1) with (2 * N.pos p + 1)%N. lia.
    - change (N.pos p~0) with (2 * N.pos p)%N. lia.
    - simpl. lia. }
  assert (forall k, (2 ^ k <= 10 ^ k)%N).
  { intros k. apply N.pow_le_mono_l. lia. }
  specialize (H (N.of_nat (N.size_nat n))).
  rewrite Nat2N.inj_succ, N.pow_succ_r'. lia.
Qed.

Lemma str_N_val (n : N) : digits_val 0 (str_N n) = Some n.
Proof. unfold str_N. apply digits_aux_val; [apply size_nat_bound | discriminate]. Qed.

Lemma all_chars_app p (a b : string) : all_chars p (a ++ b) = all_chars p a && all_chars p b.
Proof. induction a as [|c a IH]; simpl; [reflexivity|]. rewrite IH. apply andb_assoc. Qed.

Lemma all_chars_impl (p q : ascii -> bool) s :
  (forall c, p c = true -> q c = true) -> all_chars p s = true -> all_chars q s = true.
Proof.
  intros Hpq; induction s as [|c s IH]; simpl; [reflexivity|].
  intros H; apply andb_prop in H as [H1 H2]. now rewrite Hpq, IH.
Qed.

Lemma digits_aux_digits (f : nat) : forall n, all_chars is_digit (digits_aux f n "") = true.
Proof.
  induction f as [|f IH]; intros n; simpl; [reflexivity|].
  assert (Hm : (n mod 10 < 10)%N) by (apply N.mod_lt; lia).
  destruct (n <? 10)%N.
  - simpl. now rewrite is_digit_char.
  - rewrite digits_aux_acc, all_chars_app, IH. simpl. now rewrite is_digit_char.
Qed.

Lemma str_N_digits (n : N) : all_chars is_digit (str_N n) = true.
Proof. apply digits_aux_digits. Qed.

Lemma digits_aux_cons (f : nat) : forall n, f <> O ->
  exists c r, digits_aux f n "" = String c r /\ is_digit c = true.
Proof.
  induction f as [|f IH]; intros n Hf; [congruence|]. simpl.
  assert (Hm : (n mod 10 < 10)%N) by (apply N.mod_lt; lia).
  destruct (n <? 10)%N.
  - eexists _, _; split; [reflexivity|]. now apply is_digit_char.
  - destruct f as [|f'].
    + simpl. eexists _, _; split; [reflexivity|]. now apply is_digit_char.
    + rewrite digits_aux_acc.
      destruct (IH (n / 10)%N ltac:(discriminate)) as (c & r & -> & Hc).
      exists c, (r ++ String (digit_char (n mod 10)) ""). split; [reflexivity | exact Hc].
Qed.

Lemma str_N_cons (n : N) : exists c r, str_N n = String c r /\ is_digit c = true.
Proof. apply digits_aux_cons. discriminate. Qed.

Lemma digits_aux_length (f : nat) : forall n,
  (n < 10 ^ N.of_nat f)%N -> f <> O ->
  let L := String.length (digits_aux f n "") in
  (1 <= L)%nat /\ (n < 10 ^ N.of_nat L)%N /\ (n <> 0 -> 10 ^ (N.of_nat L - 1) <= n)%N.
Proof.
  induction f as [|f IH]; intros n Hn Hf; [congruence|]. simpl.
  destruct (n <? 10)%N eqn:E.
  - apply N.ltb_lt in E. simpl. split; [lia|]. split; [lia|]. intros Hn0. simpl. lia.
  - apply N.ltb_ge in E.
    assert (Hf' : f <> O) by (intros ->; change (N.of_nat 1) with 1%N in Hn; rewrite N.pow_1_r in Hn; lia).
    rewrite digits_aux_acc, slength_app. simpl String.length.
    assert (Hn' : (n / 10 < 10 ^ N.of_nat f)%N).
    { rewrite Nat2N.inj_succ, N.pow_succ_r' in Hn. apply N.Div0.div_lt_upper_bound; lia. }
    destruct (IH (n / 10)%N Hn' Hf') as (H1 & H2 & H3).
    set (L := String.length (digits_aux f (n / 10) "")) in *.
    assert (Hq : (n / 10 <> 0)%N) by (intros Hz; apply N.div_small_iff in Hz; lia).
    specialize (H3 Hq).
    pose proof (N.div_mod n 10 ltac:(lia)). pose proof (N.mod_lt n 10 ltac:(lia)).
    rewrite Nat.add_1_r, Nat2N.inj_succ, N.pow_succ_r'.
    split; [lia|]. split; [lia|]. intros _.
    rewrite N.sub_1_r, N.pred_succ. clearbody L.
    destruct L as [|L']; [lia|]. rewrite Nat2N.inj_succ in *.
    rewrite N.sub_1_r, N.pred_succ in H3. rewrite N.pow_succ_r'. apply N.le_trans with (10 * (n / 10))%N; [apply N.mul_le_mono_l; exact H3|]. rewrite H at 2. apply N.le_add_r.
Qed.

Lemma ndigits_spec (n : N) :
  1 <= ndigits n /\ (n < 10 ^ Z.to_N (ndigits n))%N /\ (n <> 0 -> 10 ^ Z.to_N (ndigits n - 1) <= n)%N.
Proof.
  unfold ndigits, str_N.
  destruct (digits_aux_length (S (N.size_nat n)) n (size_nat_bound n) ltac:(discriminate))
    as (H1 & H2 & H3).
  set (L := String.length _) in *.
  rewrite <- nat_N_Z, N2Z.id. split; [lia|]. split; [exact H2|].
  intros Hn. specialize (H3 Hn).
  replace (Z.of_N (N.of_nat L) - 1) with (Z.of_N (N.of_nat L - 1)) by lia.
  rewrite N2Z.id. exact H3.
Qed.

Lemma ndigits_Z c :
  1 <= ndigits c /\ Z.of_N c < 10 ^ ndigits c /\ (c <> 0%N -> 10 ^ (ndigits c - 1) <= Z.of_N c).
Proof.
  destruct (ndigits_spec c) as (H1 & H2 & H3). split; [exact H1|]. split.
  - apply N2Z.inj_lt in H2. rewrite N2Z.inj_pow, Z2N.id in H2 by lia. exact H2.
  - intros Hc. specialize (H3 Hc). apply N2Z.inj_le in H3. rewrite N2Z.inj_pow, Z2N.id in H3 by lia.
    exact H3.
Qed.

Lemma ndigits_le c k : 1 <= k -> Z.of_N c < 10 ^ k -> ndigits c <= k.
Proof.
  intros Hk Hc. destruct (N.eq_dec c 0) as [->|Hn].
  - change (ndigits 0) with 1. lia.
  - destruct (ndigits_Z c) as (H1 & _ & H3). specialize (H3 Hn).
    destruct (Z.le_gt_cases (ndigits c) k) as [|Hgt]; [assumption|].
    assert (10 ^ k <= 10 ^ (ndigits c - 1)) by (apply Z.pow_le_mono_r; lia). lia.
Qed.

Lemma ndigits_unique x k :
  x <> 0%N -> 1 <= k -> 10 ^ (k - 1) <= Z.of_N x < 10 ^ k -> ndigits x = k.
Proof.
  intros Hx Hk [H1 H2]. destruct (ndigits_Z x) as (N1 & N2 & N3). specialize (N3 Hx).
  destruct (Z.lt_trichotomy (ndigits x) k) as [Hlt|[Heq|Hgt]]; [|exact Heq|].
  - assert (10 ^ ndigits x <= 10 ^ (k - 1)) by (apply Z.pow_le_mono_r; lia). lia.
  - assert (10 ^ k <= 10 ^ (ndigits x - 1)) by (apply Z.pow_le_mono_r; lia). lia.
Qed.

Lemma digit_plain c : is_digit c = true -> plain_char c = true.
Proof.
  intros H. destruct c as [[] [] [] [] [] [] [] []]; vm_compute in H |- *; congruence.
Qed.

Lemma remove_underscores_app (a b : string) :
  remove_underscores (a ++ b) = remove_underscores a ++ remove_underscores b.
Proof.
  induction a as [|c a IH]; simpl; [reflexivity|].
  destruct (Ascii.eqb c "_"); simpl; now rewrite IH.
Qed.

Lemma remove_underscores_plain s : all_chars plain_char s = true -> remove_underscores s = s.
Proof.
  induction s as [|c s IH]; simpl; [reflexivity|].
  intros H; apply andb_prop in H as [H1 H2]. unfold plain_char in H1.
  apply andb_prop in H1 as [_ H1]. apply negb_true_iff in H1. rewrite H1. now rewrite IH.
Qed.

Lemma rev_string_app (a b : string) : rev_string (a ++ b) = rev_string b ++ rev_string a.
Proof.
  induction a as [|c a IH]; simpl.
  - now rewrite sapp_nil_r.
  - now rewrite IH, sapp_assoc.
Qed.

Lemma rev_string_involutive s : rev_string (rev_string s) = s.
Proof.
  induction s as [|c s IH]; simpl; [reflexivity|].
  rewrite rev_string_app, IH. reflexivity.
Qed.

Lemma all_chars_rev p s : all_chars p (rev_string s) = all_chars p s.
Proof.
  induction s as [|c s IH]; simpl; [reflexivity|].
  rewrite all_chars_app, IH. simpl. rewrite andb_true_r. apply andb_comm.
Qed.

Lemma lstrip_plain s : all_chars plain_char s = true -> lstrip s = s.
Proof.
  destruct s as [|c s]; simpl; [reflexivity|].
  intros H; apply andb_prop in H as [H1 _]. unfold plain_char in H1.
  apply andb_prop in H1 as [H1 _]. apply negb_true_iff in H1. now rewrite H1.
Qed.

Lemma strip_plain s : all_chars plain_char s = true -> strip s = s.
Proof.
  intros H. unfold strip. rewrite (lstrip_plain s H).
  rewrite lstrip_plain by now rewrite all_chars_rev.
  apply rev_string_involutive.
Qed.

Lemma zeros_digits k : all_chars is_digit (zeros k) = true.
Proof. induction k; simpl; auto. Qed.

Lemma zeros_length k : String.length (zeros k) = k.
Proof. induction k; simpl; auto. Qed.

Lemma digits_val_zeros k : forall a, digits_val a (zeros k) = Some (a * 10 ^ N.of_nat k)%N.
Proof.
  induction k as [|k IH]; intros a; cbn [zeros digits_val].
  - f_equal; lia.
  - replace (digit_val "0") with (Some 0%N) by reflexivity.
    rewrite IH. f_equal. rewrite Nat2N.inj_succ, N.pow_succ_r'.
    set (X := (10 ^ N.of_nat k)%N). lia.
Qed.

Lemma substring_split (s : string) : forall k,
  (k <= String.length s)%nat ->
  substring 0 k s ++ substring k (String.length s - k) s = s.
Proof.
  induction s as [|c s IH]; intros k Hk; simpl in *.
  - destruct k; reflexivity.
  - destruct k as [|k]; simpl.
    + f_equal. clear. induction s as [|c s IH]; simpl; [reflexivity|]. now rewrite IH.
    + f_equal. apply IH. lia.
Qed.

Lemma substring_length (s : string) : forall n m,
  (n + m <= String.length s)%nat -> String.length (substring n m s) = m.
Proof.
  induction s as [|c s IH]; intros n m H; simpl in *.
  - destruct n, m; simpl; lia.
  - destruct n as [|n]; destruct m as [|m]; simpl; auto.
    + f_equal. apply IH. lia.
    + apply IH. lia.
    + apply IH. lia.
Qed.

Lemma substring_all_chars p (s : string) : forall n m,
  all_chars p s = true -> all_chars p (substring n m s) = true.
Proof.
  induction s as [|c s IH]; intros n m H; simpl in *.
  - destruct n, m; reflexivity.
  - apply andb_prop in H as [H1 H2].
    destruct n as [|n]; destruct m as [|m]; simpl; auto.
    rewrite H1. simpl. auto.
Qed.

Lemma substring_head (s : string) c r k :
  s = String c r -> (1 <= k)%nat -> exists r', substring 0 k s = String c r'.
Proof. intros -> Hk. destruct k as [|k]; [lia|]. simpl. eauto. Qed.

Lemma span_digits_app (a r : string) :
  all_chars is_digit a = true ->
  span_digits (a ++ r) = (a ++ fst (span_digits r), snd (span_digits r)).
Proof.
  induction a as [|c a IH]; simpl; intros H.
  - destruct (span_digits r); reflexivity.
  - apply andb_prop in H as [H1 H2]. rewrite H1, IH by exact H2. reflexivity.
Qed.

Lemma span_digits_all (a : string) : all_chars is_digit a = true -> span_digits a = (a, "").
Proof.
  intros H. rewrite <- (sapp_nil_r a) at 1. rewrite span_digits_app by exact H.
  simpl. now rewrite sapp_nil_r.
Qed.

(** The exponent suffix written by [dec_to_string]. *)
Lemma parse_exponent_signed x : parse_exponent (str_Z_signed x) = Some x.
Proof.
  unfold str_Z_signed, parse_exponent.
  destruct (x <? 0) eqn:E.
  - destruct (str_N_cons (Z.abs_N x)) as (c & r & Hs & _). rewrite Hs. rewrite <- Hs.
    rewrite str_N_val. apply Z.ltb_lt in E. f_equal. lia.
  - destruct (str_N_cons (Z.to_N x)) as (c & r & Hs & _). rewrite Hs. rewrite <- Hs.
    rewrite str_N_val. apply Z.ltb_ge in E. f_equal. lia.
Qed.

Lemma span_digits_exp_suffix b x : span_digits (exp_suffix b x) = ("", exp_suffix b x).
Proof. destruct b; reflexivity. Qed.

Lemma parse_number_nodot ip b x :
  all_chars is_digit ip = true -> ip <> "" ->
  parse_number (ip ++ exp_suffix b x) =
  match digits_val 0 ip with
  | Some c => Some (c, if b then 0 else x)
  | None => None
  end.
Proof.
  intros Hd Hne. unfold parse_number.
  rewrite span_digits_app, span_digits_exp_suffix by exact Hd. simpl fst; simpl snd.
  rewrite !sapp_nil_r.
  assert (Hr1 : match exp_suffix b x with String "." r => span_digits r | _ => ("", exp_suffix b x) end
                = ("", exp_suffix b x)) by (destruct b; reflexivity).
  rewrite Hr1. rewrite sapp_nil_r.
  destruct ip as [|c ip]; [congruence|].
  destruct b; simpl exp_suffix; cbv iota beta.
  - destruct (digits_val 0 (String c ip)); reflexivity.
  - change (Ascii.eqb (lower_char "E") "e") with true. cbv iota beta.
    rewrite parse_exponent_signed.
    destruct (digits_val 0 (String c ip)); [|reflexivity].
    do 2 f_equal. simpl. lia.
Qed.

Lemma parse_number_dot ip fp b x :
  all_chars is_digit ip = true -> all_chars is_digit fp = true -> ip <> "" ->
  parse_number (ip ++ String "." (fp ++ exp_suffix b x)) =
  match digits_val 0 (ip ++ fp) with
  | Some c => Some (c, (if b then 0 else x) - Z.of_nat (String.length fp))
  | None => None
  end.
Proof.
  intros Hi Hf Hne. unfold parse_number.
  rewrite span_digits_app by exact Hi. simpl fst; simpl snd.
  rewrite sapp_nil_r. cbv iota beta.
  rewrite span_digits_app, span_digits_exp_suffix by exact Hf. simpl fst; simpl snd.
  rewrite sapp_nil_r.
  destruct ip as [|c ip]; [congruence|]. simpl (String c ip ++ fp). cbv iota beta.
  destruct b; simpl exp_suffix; cbv iota beta.
  - destruct (digits_val 0 (String c (ip ++ fp))); reflexivity.
  - change (Ascii.eqb (lower_char "E") "e") with true. cbv iota beta.
    rewrite parse_exponent_signed. reflexivity.
Qed.

Lemma sign_split_digit (c : ascii) (r : string) :
  is_digit c = true ->
  match String c r with
  | String "-" r' => (true, r')
  | String "+" r' => (false, r')
  | _ => (false, String c r)
  end = (false, String c r).
Proof.
  intros H. destruct c as [[] [] [] [] [] [] [] []]; vm_compute in H; try discriminate H; reflexivity.
Qed.

Lemma parse_special_digit sg (c : ascii) (r : string) :
  is_digit c = true -> parse_special sg (String c r) = None.
Proof.
  intros H. unfold parse_special. simpl lower.
  destruct c as [[] [] [] [] [] [] [] []]; vm_compute in H; try discriminate H; reflexivity.
Qed.

Lemma dec_of_string_body (sg : bool) (body : string) c e :
  all_chars plain_char body = true ->
  (exists d r, body = String d r /\ is_digit d = true) ->
  parse_number body = Some (c, e) ->
  dec_of_string (sign_str sg ++ body) =
  if in_exact_range c e then Ok (Fin sg c e) else Err InvalidOperation.
Proof.
  intros Hp (d & r & Hb & Hd) Hn. unfold dec_of_string.
  assert (Hp' : all_chars plain_char (sign_str sg ++ body) = true)
    by (rewrite all_chars_app, Hp; destruct sg; reflexivity).
  rewrite strip_plain, remove_underscores_plain by exact Hp'.
  destruct sg; simpl sign_str; simpl (_ ++ _).
  - rewrite Hb, parse_special_digit, <- Hb, Hn by exact Hd. reflexivity.
  - rewrite Hb, sign_split_digit, parse_special_digit, <- Hb, Hn by exact Hd. reflexivity.
Qed.

Lemma str_N_plain n : all_chars plain_char (str_N n) = true.
Proof. apply (all_chars_impl is_digit); [exact digit_plain | apply str_N_digits]. Qed.

Lemma exp_suffix_plain b x : all_chars plain_char (exp_suffix b x) = true.
Proof.
  destruct b; [reflexivity|]. simpl. unfold str_Z_signed.
  destruct (x <? 0); simpl; apply str_N_plain.
Qed.

Lemma dec_to_string_fin s c e :
  exists body, dec_to_string (Fin s c e) = sign_str s ++ body /\
    all_chars plain_char body = true /\
    (exists d r, body = String d r /\ is_digit d = true) /\
    parse_number body = Some (c, e).
Proof.
  unfold dec_to_string. cbv zeta.
  pose proof (ndigits_spec c) as (Hl1 & _ & _).
  pose proof (str_N_digits c) as Hdig.
  pose proof (str_N_plain c) as Hpl.
  pose proof (str_N_val c) as Hval.
  destruct (str_N_cons c) as (d0 & r0 & Hcons & Hd0).
  unfold ndigits in *.
  set (int := str_N c) in *.
  set (L := String.length int) in *.
  set (dp := if (e <=? 0) && (-6 <? e + Z.of_nat L) then e + Z.of_nat L else 1).
  fold (exp_suffix (e + Z.of_nat L =? dp) (e + Z.of_nat L - dp)).
  assert (Hdp : (dp = e + Z.of_nat L /\ e <= 0) \/ dp = 1).
  { unfold dp. destruct (e <=? 0) eqn:E; simpl; [|right; reflexivity].
    destruct (-6 <? e + Z.of_nat L); [left; split; [reflexivity | lia] | right; reflexivity]. }
  clearbody dp.
  pose proof (exp_suffix_plain (e + Z.of_nat L =? dp) (e + Z.of_nat L - dp)) as Hxp.
  set (X := exp_suffix _ _) in *.
  destruct (dp <=? 0) eqn:E1; [|destruct (Z.of_nat L <=? dp) eqn:E2].
  - (* 0.000ddd *)
    apply Z.leb_le in E1.
    assert (Hb : (e + Z.of_nat L =? dp) = true) by (apply Z.eqb_eq; lia).
    eexists; split; [reflexivity|].
    split; [|split].
    + change ("0" ++ (String "." (zeros (Z.to_nat (- dp)) ++ int) ++ X))
        with (String "0" (String "." ((zeros (Z.to_nat (- dp)) ++ int) ++ X))).
      cbn [all_chars]. rewrite !all_chars_app, Hpl, Hxp.
      rewrite (all_chars_impl is_digit plain_char (zeros _)); [reflexivity|exact digit_plain|apply zeros_digits].
    + eexists _, _; split; [reflexivity|reflexivity].
    + change ("0" ++ (String "." (zeros (Z.to_nat (- dp)) ++ int) ++ X))
        with ("0" ++ String "." ((zeros (Z.to_nat (- dp)) ++ int) ++ X)).
      unfold X. rewrite parse_number_dot; [| reflexivity | | discriminate].
      * rewrite Hb. simpl (digits_val 0 _). rewrite digits_val_app, digits_val_zeros.
        rewrite N.mul_0_l, Hval. f_equal. f_equal.
        rewrite slength_app, zeros_length. lia.
      * now rewrite all_chars_app, zeros_digits, Hdig.
  - (* ddd or dEx *)
    apply Z.leb_gt in E1. apply Z.leb_le in E2.
    assert (Hdl : dp = Z.of_nat L) by lia.
    replace (Z.to_nat (dp - Z.of_nat L)) with O by lia.
    simpl zeros. rewrite sapp_nil_r. simpl (_ ++ _).
    eexists; split; [reflexivity|].
    split; [|split].
    + rewrite all_chars_app, Hpl, Hxp. reflexivity.
    + rewrite Hcons. eexists _, _; split; [reflexivity | exact Hd0].
    + unfold X. rewrite parse_number_nodot, Hval; [| exact Hdig | rewrite Hcons; discriminate].
      f_equal. f_equal. destruct (e + Z.of_nat L =? dp) eqn:Eb; [apply Z.eqb_eq in Eb|]; lia.
  - (* dd.ddd *)
    apply Z.leb_gt in E1. apply Z.leb_gt in E2.
    eexists; split; [reflexivity|].
    assert (Hsplit := substring_split int (Z.to_nat dp) ltac:(lia)).
    replace (Z.to_nat (Z.of_nat L - dp)) with (String.length int - Z.to_nat dp)%nat by lia.
    split; [|split].
    + simpl. rewrite all_chars_app. simpl.
      rewrite all_chars_app, !substring_all_chars, Hxp by exact Hpl. reflexivity.
    + destruct (substring_head int d0 r0 (Z.to_nat dp) Hcons ltac:(lia)) as (r' & Hr').
      rewrite Hr'. eexists _, _; split; [reflexivity | exact Hd0].
    + change (substring 0 (Z.to_nat dp) int ++
               (String "." (substring (Z.to_nat dp) (String.length int - Z.to_nat dp) int) ++ X))
        with (substring 0 (Z.to_nat dp) int ++
               String "." (substring (Z.to_nat dp) (String.length int - Z.to_nat dp) int ++ X)).
      unfold X. rewrite parse_number_dot.
      * rewrite Hsplit, Hval. f_equal. f_equal.
        rewrite substring_length by lia.
        destruct (e + Z.of_nat L =? dp) eqn:Eb; [apply Z.eqb_eq in Eb|]; lia.
      * now apply substring_all_chars.
      * now apply substring_all_chars.
      * destruct (substring_head int d0 r0 (Z.to_nat dp) Hcons ltac:(lia)) as (r' & ->).
        discriminate.
Qed.

Lemma dec_string_roundtrip_fin s c e :
  dec_of_string (dec_to_string (Fin s c e)) =
  if in_exact_range c e then Ok (Fin s c e) else Err InvalidOperation.
Proof.
  destruct (dec_to_string_fin s c e) as (body & -> & Hp & Hh & Hn).
  now apply dec_of_string_body.
Qed.

(** ** Serialization round trip *)

Lemma dec_string_roundtrip d :
  is_nan d = false -> repr_in_range d = true -> dec_of_string (dec_to_string d) = Ok d.
Proof.
  intros Hn Hr. destruct d as [s c e|s|s p|s p]; try discriminate Hn.
  - rewrite dec_string_roundtrip_fin. simpl in Hr. now rewrite Hr.
  - destruct s; reflexivity.
Qed.

Lemma Ingredient_new_not_nan nm q u p i :
  Ingredient_new nm (PDec q) u (PDec p) = Ok i -> is_nan q = false /\ is_nan p = false.
Proof.
  unfold Ingredient_new; simpl.
  destruct (check_name nm); simpl; [|discriminate].
  unfold dec_le, dec_compare. destruct (is_nan q); simpl; [discriminate|].
  destruct (cmp_dec q dzero); simpl; try discriminate;
  unfold dec_lt, dec_compare; destruct (is_nan p); simpl; try discriminate; auto.
Qed.

Lemma Ingredient_roundtrip i :
  ingredient_ok i -> repr_in_range (quantity i) = true -> repr_in_range (price_per_unit i) = true ->
  Ingredient_from_dict (Ingredient_to_dict i) = Ok i.
Proof.
  intros Hok Hq Hp. pose proof Hok as Hok'. unfold ingredient_ok in Hok'.
  destruct (Ingredient_new_not_nan _ _ _ _ _ Hok') as [Nq Np].
  unfold Ingredient_from_dict, Ingredient_to_dict. simpl.
  rewrite (dec_string_roundtrip _ Nq Hq). simpl.
  rewrite (dec_string_roundtrip _ Np Hp). simpl. exact Hok'.
Qed.

Lemma map_result_from_dict l :
  Forall (fun i => ingredient_ok i /\ repr_in_range (quantity i) = true
                   /\ repr_in_range (price_per_unit i) = true) l ->
  map_result Ingredient_from_dict (map Ingredient_to_dict l) = Ok l.
Proof.
  induction 1 as [|i l (H1 & H2 & H3) _ IH]; [reflexivity|].
  simpl. rewrite Ingredient_roundtrip by assumption. simpl. now rewrite IH.
Qed.

(** Claim C5: for every recipe whose ingredients satisfy the construction
    invariant and whose decimal fields print within the limits of the exact
    conversion, [Recipe.from_dict(r.to_dict()) == r] (same name, servings
    and ingredient fields), and each decimal field reads back exactly from
    its string. *)
Theorem recipe_roundtrip (r : Recipe) :
  Forall (fun i => ingredient_ok i /\ repr_in_range (quantity i) = true
                   /\ repr_in_range (price_per_unit i) = true) (ingredients r) ->
  Recipe_from_dict (Recipe_to_dict r) = Ok r /\
  Forall (fun i => dec_of_string (dec_to_string (quantity i)) = Ok (quantity i) /\
                   dec_of_string (dec_to_string (price_per_unit i)) = Ok (price_per_unit i))
         (ingredients r).
Proof.
  intros H. split.
  - destruct r as [nm ings sv]. unfold Recipe_from_dict, Recipe_to_dict. simpl in *.
    rewrite map_result_from_dict by exact H. reflexivity.
  - eapply Forall_impl; [|exact H]. intros i (Hok & Hq & Hp).
    unfold ingredient_ok in Hok. destruct (Ingredient_new_not_nan _ _ _ _ _ Hok).
    split; now apply dec_string_roundtrip.
Qed.

Lemma recipe_roundtrip_witness :
  Recipe_from_dict (Recipe_to_dict gin_tonic) = Ok gin_tonic.
Proof.
  apply (recipe_roundtrip gin_tonic).
  apply Forall_cons; [split; [reflexivity | split; reflexivity] |].
  apply Forall_cons; [split; [reflexivity | split; reflexivity] |].
  apply Forall_nil.
Defined.

(** ** Ingredient validation *)

Lemma dec_of_string_str_Z z :
  ndigits (Z.abs_N z) <= 4300 -> dec_of_string (str_Z z) = Ok (dec_of_Z z).
Proof.
  intros Hz.
  assert (Hs : str_Z z = sign_str (z <? 0) ++ str_N (Z.abs_N z)).
  { unfold str_Z. destruct (z <? 0) eqn:E; [reflexivity|].
    apply Z.ltb_ge in E. simpl. f_equal. lia. }
  rewrite Hs. unfold dec_of_Z.
  destruct (str_N_cons (Z.abs_N z)) as (d & r & Hc & Hd).
  rewrite dec_of_string_body with (c := Z.abs_N z) (e := 0).
  - unfold in_exact_range, adjusted, MAX_EMAX, MIN_ETINY.
    destruct (Z.abs_N z =? 0)%N; replace (_ && _) with true; try reflexivity;
      symmetry; apply andb_true_intro; split; apply Z.leb_le; lia.
  - apply str_N_plain.
  - eauto.
  - rewrite <- (sapp_nil_r (str_N _)). change "" with (exp_suffix true 0).
    rewrite parse_number_nodot, str_N_val; [reflexivity | apply str_N_digits | rewrite Hc; discriminate].
Qed.

Lemma normalize_exact v d :
  exact_decimal v = Some d -> int_str_ok v ->
  normalize_number v = Ok (PDec d).
Proof.
  destruct v as [| z | r | s | d' | l | kvs]; simpl; intros H Hi; try discriminate.
  - injection H as <-. unfold str_int.
    replace (4300 <? ndigits (Z.abs_N z)) with false by (symmetry; apply Z.ltb_ge; exact Hi).
    simpl. now rewrite dec_of_string_str_Z.
  - destruct (dec_of_string r); [injection H as <-; reflexivity | discriminate].
  - destruct (dec_of_string s); [injection H as <-; reflexivity | discriminate].
  - now injection H as <-.
Qed.

(** Claim C7 (amended): for a name given as a [str], and a quantity and a
    price_per_unit each given as an [int] of at most 4300 digits, a
    [float], a string that [Decimal] reads, or a [Decimal], whose decimal
    values [dq] and [dp] are not NaN: [Ingredient(...)] raises ValueError
    if and only if the name is blank, [dq <= 0] or [dp < 0]; otherwise it
    succeeds and holds exactly [dq] and [dp]. The decimal value of an
    [int], [float] or string is the one [Decimal(str(...))] reads: for a
    [float] the shortest text that [repr] gives (0.1 is read as 0.1, not
    as the exact binary value). *)
Theorem Ingredient_validation (s : string) (q u p : pyval) (dq dp : dec) :
  exact_decimal q = Some dq -> exact_decimal p = Some dp ->
  int_str_ok q -> int_str_ok p ->
  is_nan dq = false -> is_nan dp = false ->
  (Ingredient_new (PStr s) q u p = Err ValueError <->
     is_blank s = true \/ dec_le dq dzero = Ok true \/ dec_lt dp dzero = Ok true) /\
  (Ingredient_new (PStr s) q u p <> Err ValueError ->
     Ingredient_new (PStr s) q u p = Ok (mkIngredient s dq u dp)).
Proof.
  intros Hq Hp Iq Ip Nq Np.
  unfold Ingredient_new.
  rewrite (normalize_exact q dq Hq Iq), (normalize_exact p dp Hp Ip). simpl.
  unfold check_name. simpl truthy.
  unfold dec_le, dec_lt, dec_compare. rewrite Nq, Np. simpl.
  assert (Hb : is_blank "" = true) by reflexivity.
  destruct s as [|c s']; simpl negb; cbv iota.
  - simpl. split; [split; [auto | reflexivity] | congruence].
  - destruct (is_blank (String c s')); simpl;
      [split; [split; [auto | reflexivity] | congruence]|].
    destruct (cmp_dec dq dzero), (cmp_dec dp dzero); simpl;
      (split; [split; [intros H | intros [H|[H|H]]] | intros H]); try discriminate; auto; congruence.
Qed.

Lemma Ingredient_validation_witness :
  Ingredient_new (PStr "Gin") (PStr "50") (PStr "ml") (PInt 2) =
    Ok (mkIngredient "Gin" (Fin false 50 0) (PStr "ml") (Fin false 2 0)) /\
  Ingredient_new (PStr " ") (PInt 1) (PStr "g") (PInt 0) = Err ValueError /\
  Ingredient_new (PStr "Lime") (PFloat "0.1") (PStr "kg") (PFloat "2.5") =
    Ok (mkIngredient "Lime" (Fin false 1 (-1)) (PStr "kg") (Fin false 25 (-1))) /\
  Ingredient_new (PStr "Lime") (PFloat "-0.0") (PStr "kg") (PFloat "2.5") = Err ValueError.
Proof.
  split; [|split; [|split]].
  - apply (proj2 (Ingredient_validation "Gin" (PStr "50") (PStr "ml") (PInt 2)
                    (Fin false 50 0) (Fin false 2 0)
                    eq_refl eq_refl I (ltac:(vm_compute; discriminate)) eq_refl eq_refl)).
    vm_compute. discriminate.
  - apply (proj1 (Ingredient_validation " " (PInt 1) (PStr "g") (PInt 0)
                    (Fin false 1 0) (Fin false 0 0)
                    eq_refl eq_refl (ltac:(vm_compute; discriminate))
                    (ltac:(vm_compute; discriminate)) eq_refl eq_refl)).
    left. reflexivity.
  - apply (proj2 (Ingredient_validation "Lime" (PFloat "0.1") (PStr "kg") (PFloat "2.5")
                    (Fin false 1 (-1)) (Fin false 25 (-1))
                    (ltac:(vm_compute; reflexivity)) (ltac:(vm_compute; reflexivity)) I I eq_refl eq_refl)).
    vm_compute. discriminate.
  - apply (proj1 (Ingredient_validation "Lime" (PFloat "-0.0") (PStr "kg") (PFloat "2.5")
                    (Fin true 0 (-1)) (Fin false 25 (-1))
                    (ltac:(vm_compute; reflexivity)) (ltac:(vm_compute; reflexivity)) I I eq_refl eq_refl)).
    right. left. vm_compute. reflexivity.
Defined.

(** Claim C7, counterexample: a non-numeric string quantity with a blank
    name raises InvalidOperation from [Decimal(str(...))], not ValueError;
    and a valid name with the quantity [10**4300], an [int] of 4301 digits
    that is positive, raises ValueError from [str()] of the integer. *)
Lemma str_int_limit z : 4300 < ndigits (Z.abs_N z) -> str_int z = Err ValueError.
Proof.
  intros H. unfold str_int.
  replace (4300 <? ndigits (Z.abs_N z)) with true by (symmetry; apply Z.ltb_lt; exact H).
  reflexivity.
Qed.

Lemma ndigits_pow10 k : 0 <= k -> ndigits (Z.abs_N (10 ^ k)) = k + 1.
Proof.
  intros Hk. assert (Hp : 0 < 10 ^ k) by (apply Z.pow_pos_nonneg; lia).
  apply ndigits_unique; [lia | lia |].
  rewrite N2Z.inj_abs_N, Z.abs_eq by lia. replace (k + 1 - 1) with k by lia. split; [lia|].
  apply Z.pow_lt_mono_r; lia.
Qed.

Lemma Ingredient_validation_counterexample :
  Ingredient_new (PStr "") (PStr "abc") (PStr "g") (PInt 1) = Err InvalidOperation /\
  Ingredient_new (PStr "Gin") (PInt (10 ^ 4300)) (PStr "g") (PInt 1) = Err ValueError.
Proof.
  split; [vm_compute; reflexivity|].
  unfold Ingredient_new, normalize_number, decimal_of_str_of.
  rewrite str_int_limit; [reflexivity|]. rewrite ndigits_pow10; lia.
Qed.

(** ** Loading persisted records *)

Lemma lookup_app_none k kvs kvs' :
  lookup k kvs = None -> lookup k (kvs ++ kvs') = lookup k kvs'.
Proof.
  induction kvs as [|[k' v] kvs IH]; simpl; [reflexivity|].
  destruct (String.eqb k k'); [discriminate | exact IH].
Qed.

Lemma lookup_app_some k v kvs kvs' :
  lookup k kvs = Some v -> lookup k (kvs ++ kvs') = Some v.
Proof.
  induction kvs as [|[k' v'] kvs IH]; simpl; [discriminate|].
  destruct (String.eqb k k'); [exact id | exact IH].
Qed.

Lemma lookup_app_other k kvs k' v :
  k <> k' -> lookup k (kvs ++ [(k', v)]) = lookup k kvs.
Proof.
  intros Hk. destruct (lookup k kvs) eqn:E.
  - now apply lookup_app_some.
  - rewrite lookup_app_none by exact E. simpl.
    destruct (String.eqb_spec k k'); [congruence | reflexivity].
Qed.

(** Claim C10 (amended): [Ingredient.from_dict] on a dict without a "unit"
    key behaves as on the same dict with "unit" set to the empty string; a
    missing "name" key, or a present name and a missing "quantity" key,
    make it raise KeyError; a missing "price_per_unit" key makes it raise
    KeyError when the name is present and the quantity converts to a
    decimal. *)
Theorem Ingredient_from_dict_keys (kvs : list (string * pyval)) :
  (lookup "unit" kvs = None ->
     Ingredient_from_dict (PDict kvs) = Ingredient_from_dict (PDict (kvs ++ [("unit", PStr "")]))) /\
  (lookup "name" kvs = None -> Ingredient_from_dict (PDict kvs) = Err KeyError) /\
  (lookup "name" kvs <> None -> lookup "quantity" kvs = None ->
     Ingredient_from_dict (PDict kvs) = Err KeyError) /\
  (forall qv dq, lookup "name" kvs <> None -> lookup "quantity" kvs = Some qv ->
     decimal_of_str_of qv = Ok dq -> lookup "price_per_unit" kvs = None ->
     Ingredient_from_dict (PDict kvs) = Err KeyError).
Proof.
  split; [|split; [|split]].
  - intros Hu. unfold Ingredient_from_dict, getitem, get.
    rewrite (lookup_app_other "name"), (lookup_app_other "quantity"),
      (lookup_app_other "price_per_unit") by discriminate.
    rewrite Hu, (lookup_app_none _ _ _ Hu). reflexivity.
  - intros Hn. unfold Ingredient_from_dict, getitem. now rewrite Hn.
  - intros Hn Hq. unfold Ingredient_from_dict, getitem.
    destruct (lookup "name" kvs); [|congruence]. simpl. now rewrite Hq.
  - intros qv dq Hn Hq Hd Hp. unfold Ingredient_from_dict, getitem, get.
    destruct (lookup "name" kvs); [|congruence]. simpl. rewrite Hq. simpl. rewrite Hd. simpl.
    destruct (lookup "unit" kvs); simpl; now rewrite Hp.
Qed.

Lemma Ingredient_from_dict_keys_witness :
  Ingredient_from_dict (PDict [("name", PStr "Gin"); ("quantity", PStr "50");
                               ("price_per_unit", PStr "0.02")]) =
    Ingredient_from_dict (PDict [("name", PStr "Gin"); ("quantity", PStr "50");
                                 ("price_per_unit", PStr "0.02"); ("unit", PStr "")]) /\
  Ingredient_from_dict (PDict [("quantity", PStr "50")]) = Err KeyError /\
  Ingredient_from_dict (PDict [("name", PStr "Gin")]) = Err KeyError /\
  Ingredient_from_dict (PDict [("name", PStr "Gin"); ("quantity", PStr "50")]) = Err KeyError.
Proof.
  split; [|split; [|split]].
  - apply (proj1 (Ingredient_from_dict_keys
                    [("name", PStr "Gin"); ("quantity", PStr "50"); ("price_per_unit", PStr "0.02")])).
    reflexivity.
  - apply (proj1 (proj2 (Ingredient_from_dict_keys [("quantity", PStr "50")]))). reflexivity.
  - apply (proj1 (proj2 (proj2 (Ingredient_from_dict_keys [("name", PStr "Gin")])))).
    + vm_compute. discriminate.
    + reflexivity.
  - apply (proj2 (proj2 (proj2 (Ingredient_from_dict_keys
                    [("name", PStr "Gin"); ("quantity", PStr "50")]))) (PStr "50") (Fin false 50 0)).
    + vm_compute. discriminate.
    + reflexivity.
    + vm_compute. reflexivity.
    + reflexivity.
Defined.

(** Claim C10, counterexample: without a "price_per_unit" key but with a
    non-numeric quantity the error is InvalidOperation from converting the
    quantity, which is evaluated before the price is looked up. *)
Lemma Ingredient_from_dict_keys_counterexample :
  Ingredient_from_dict (PDict [("name", PStr "Gin"); ("quantity", PStr "abc")]) =
    Err InvalidOperation.
Proof. vm_compute. reflexivity. Qed.

Lemma from_dict_ok_wellformed v i :
  Ingredient_from_dict v = Ok i -> malformed_ingredient v = false.
Proof.
  destruct v as [| | | | | | kvs]; try discriminate.
  unfold Ingredient_from_dict, getitem, get, malformed_ingredient, missing_key.
  destruct (lookup "name" kvs); [|discriminate]. simpl.
  destruct (lookup "quantity" kvs) as [qv|]; [|discriminate]. simpl.
  destruct (decimal_of_str_of qv) eqn:Eq; [|discriminate]. simpl.
  destruct (lookup "unit" kvs); simpl;
  (destruct (lookup "price_per_unit" kvs) as [pv|]; [|discriminate]; simpl;
   destruct (decimal_of_str_of pv) eqn:Ep; [|discriminate]; simpl; intros _;
   unfold non_numeric; destruct qv, pv; simpl in *; try reflexivity;
   rewrite ?Eq, ?Ep; reflexivity).
Qed.

Lemma map_result_err {A B} (f : A -> result B) l x :
  In x l -> (forall y, f x <> Ok y) -> exists e, map_result f l = Err e.
Proof.
  induction l as [|a l IH]; simpl; [contradiction|].
  intros [->|Hin] Hf.
  - destruct (f x) as [y|e] eqn:E; [exfalso; exact (Hf y eq_refl) | simpl; eauto].
  - destruct (f a); simpl; [|eauto].
    destruct (IH Hin Hf) as [e ->]. simpl. eauto.
Qed.

Lemma lookup_app_last k k' v kvs :
  lookup k (kvs ++ [(k', v)]) =
  match lookup k kvs with Some x => Some x | None => if String.eqb k k' then Some v else None end.
Proof.
  induction kvs as [|[k1 v1] kvs IH]; simpl; [reflexivity|].
  destruct (String.eqb k k1); [reflexivity | exact IH].
Qed.

Lemma get_default_last kvs k v :
  lookup k kvs = None -> get (PDict (kvs ++ [(k, v)])) k v = get (PDict kvs) k v.
Proof. intros H. unfold get. rewrite lookup_app_last, H, String.eqb_refl. reflexivity. Qed.

Lemma get_other_last kvs k k' v dflt :
  String.eqb k k' = false -> get (PDict (kvs ++ [(k', v)])) k dflt = get (PDict kvs) k dflt.
Proof. intros H. unfold get. rewrite lookup_app_last, H. destruct (lookup k kvs); reflexivity. Qed.

Lemma Recipe_from_dict_fields kvs r :
  Recipe_from_dict (PDict kvs) = Ok r ->
  (lookup "name" kvs = None -> rname r = PStr "") /\
  (lookup "servings" kvs = None -> servings r = 1) /\
  (lookup "ingredients" kvs = None -> ingredients r = []).
Proof.
  unfold Recipe_from_dict, get.
  destruct (lookup "ingredients" kvs) as [iv|]; simpl bind;
    [destruct (iterate iv) as [items|e]; simpl bind; [|discriminate] | set (items := @nil pyval)];
    (destruct (map_result Ingredient_from_dict items) as [ings|e] eqn:Em; simpl bind; [|discriminate]);
    destruct (lookup "name" kvs) as [nm|]; destruct (lookup "servings" kvs) as [sv|]; simpl bind;
    try (destruct (py_int sv) as [n|e]; simpl bind; [|discriminate]);
    intros E; injection E as <-; simpl;
    repeat split; intros; try discriminate; try reflexivity.
Qed.

(** Claim C6 (amended): loading a record whose "ingredients" list holds a
    malformed ingredient record (a missing "name", "quantity" or
    "price_per_unit" key, a non-numeric decimal string, or not a dict)
    fails entirely with an error; but missing top-level keys are defaulted
    silently, each on its own: a record without "name" loads as with
    "name" set to "", one without "servings" as with "servings" set to 1,
    one without "ingredients" as with an empty "ingredients" list, and the
    recipe loaded has these default values; a record without any of the
    three loads as the recipe named "" with no ingredients and one
    serving. *)
Theorem Recipe_from_dict_malformed (kvs : list (string * pyval)) :
  (forall items it, lookup "ingredients" kvs = Some (PList items) -> In it items ->
     malformed_ingredient it = true -> exists e, Recipe_from_dict (PDict kvs) = Err e) /\
  (lookup "name" kvs = None ->
     Recipe_from_dict (PDict kvs) = Recipe_from_dict (PDict (kvs ++ [("name", PStr "")])) /\
     forall r, Recipe_from_dict (PDict kvs) = Ok r -> rname r = PStr "") /\
  (lookup "servings" kvs = None ->
     Recipe_from_dict (PDict kvs) = Recipe_from_dict (PDict (kvs ++ [("servings", PInt 1)])) /\
     forall r, Recipe_from_dict (PDict kvs) = Ok r -> servings r = 1) /\
  (lookup "ingredients" kvs = None ->
     Recipe_from_dict (PDict kvs) = Recipe_from_dict (PDict (kvs ++ [("ingredients", PList [])])) /\
     forall r, Recipe_from_dict (PDict kvs) = Ok r -> ingredients r = []) /\
  (lookup "name" kvs = None -> lookup "servings" kvs = None -> lookup "ingredients" kvs = None ->
     Recipe_from_dict (PDict kvs) = Ok (mkRecipe (PStr "") [] 1)).
Proof.
  split; [|split; [|split; [|split]]].
  - intros items it Hl Hin Hm. unfold Recipe_from_dict, get. rewrite Hl. simpl.
    destruct (map_result_err Ingredient_from_dict items it Hin) as [e He].
    + intros i Hi. apply from_dict_ok_wellformed in Hi. congruence.
    + rewrite He. simpl. eauto.
  - intros H. split; [|intros r Hr; exact (proj1 (Recipe_from_dict_fields kvs r Hr) H)].
    unfold Recipe_from_dict.
    rewrite get_default_last by exact H. rewrite !get_other_last by reflexivity. reflexivity.
  - intros H. split; [|intros r Hr; exact (proj1 (proj2 (Recipe_from_dict_fields kvs r Hr)) H)].
    unfold Recipe_from_dict.
    rewrite get_default_last by exact H. rewrite !get_other_last by reflexivity. reflexivity.
  - intros H. split; [|intros r Hr; exact (proj2 (proj2 (Recipe_from_dict_fields kvs r Hr)) H)].
    unfold Recipe_from_dict.
    rewrite get_default_last by exact H. rewrite !get_other_last by reflexivity. reflexivity.
  - intros Hn Hs Hi. unfold Recipe_from_dict, get. now rewrite Hi, Hn, Hs.
Qed.

Lemma Recipe_from_dict_malformed_witness :
  (exists e, Recipe_from_dict
               (PDict [("name", PStr "G&T");
                       ("ingredients", PList [PDict [("name", PStr "Gin"); ("quantity", PStr "x");
                                                     ("price_per_unit", PStr "1")]])]) = Err e) /\
  Recipe_from_dict (PDict [("label", PStr "G&T"); ("servings", PInt 4)]) =
    Recipe_from_dict (PDict [("label", PStr "G&T"); ("servings", PInt 4); ("name", PStr "")]) /\
  Recipe_from_dict (PDict [("label", PStr "G&T"); ("name", PStr "G&T")]) =
    Recipe_from_dict (PDict [("label", PStr "G&T"); ("name", PStr "G&T"); ("servings", PInt 1)]) /\
  Recipe_from_dict (PDict [("name", PStr "G&T")]) =
    Recipe_from_dict (PDict [("name", PStr "G&T"); ("ingredients", PList [])]) /\
  Recipe_from_dict (PDict [("label", PStr "G&T")]) = Ok (mkRecipe (PStr "") [] 1).
Proof.
  split; [|split; [|split; [|split]]].
  - apply (proj1 (Recipe_from_dict_malformed
             [("name", PStr "G&T");
              ("ingredients", PList [PDict [("name", PStr "Gin"); ("quantity", PStr "x");
                                            ("price_per_unit", PStr "1")]])])
             [PDict [("name", PStr "Gin"); ("quantity", PStr "x"); ("price_per_unit", PStr "1")]]
             (PDict [("name", PStr "Gin"); ("quantity", PStr "x"); ("price_per_unit", PStr "1")])).
    + reflexivity.
    + simpl. left. reflexivity.
    + vm_compute. reflexivity.
  - apply (proj1 (proj1 (proj2 (Recipe_from_dict_malformed
                                  [("label", PStr "G&T"); ("servings", PInt 4)])) eq_refl)).
  - apply (proj1 (proj1 (proj2 (proj2 (Recipe_from_dict_malformed
                                         [("label", PStr "G&T"); ("name", PStr "G&T")]))) eq_refl)).
  - apply (proj1 (proj1 (proj2 (proj2 (proj2 (Recipe_from_dict_malformed
                                                [("name", PStr "G&T")])))) eq_refl)).
  - apply (proj2 (proj2 (proj2 (proj2 (Recipe_from_dict_malformed [("label", PStr "G&T")]))))); reflexivity.
Defined.

(** Claim C6, counterexample: the empty record loads without error, every
    field defaulted. *)
Lemma Recipe_from_dict_malformed_counterexample :
  Recipe_from_dict (PDict []) = Ok (mkRecipe (PStr "") [] 1).
Proof. reflexivity. Qed.

(** ** Signs of the costs *)

Lemma nonneg_repr_is_nonneg d : nonneg_repr d = true -> is_nonneg d = true.
Proof.
  unfold is_nonneg, dec_compare. destruct d as [s c e|s|s p|s p]; simpl; try discriminate.
  - intros H. unfold signed.
    assert (Hv : 0 <= (if s then - Z.of_N c else Z.of_N c) * 10 ^ (e - Z.min e 0)).
    { destruct s; simpl in H.
      + apply N.eqb_eq in H; subst c. simpl. lia.
      + apply Z.mul_nonneg_nonneg; [lia | apply Z.pow_nonneg; lia]. }
    try rewrite Z.mul_0_l.
    set (X := (if s then _ else _) * _) in *. destruct (Z.compare_spec X 0); auto; lia.
  - destruct s; simpl; auto.
Qed.

Lemma fix_dec_nonneg d d' : nonneg_repr d = true -> fix_dec d = Ok d' -> nonneg_repr d' = true.
Proof.
  unfold fix_dec. destruct d as [s c e|s|s p|s p]; intros H; try (intros E; injection E as <-; exact H).
  destruct (c =? 0)%N eqn:Ec.
  - intros E; injection E as <-. simpl. destruct s; reflexivity.
  - destruct (Etop <? _); [discriminate|].
    destruct (e <? _); [|intros E; injection E as <-; exact H].
    simpl in H. rewrite Ec, orb_false_r in H. apply negb_true_iff in H. subst s.
    destruct (prec <? _); (destruct (Etop <? _); [discriminate|]);
      intros E; injection E as <-; reflexivity.
Qed.

Lemma cmp_pos_sign s c e : cmp_dec (Fin s c e) dzero = Gt -> s = false /\ c <> 0%N.
Proof.
  unfold cmp_dec, dzero, signed. destruct s.
  - intros H. apply Z.compare_gt_iff in H.
    assert (0 <= 10 ^ (e - Z.min e 0)) by (apply Z.pow_nonneg; lia).
    set (P := 10 ^ (e - Z.min e 0)) in *. set (Q := 10 ^ (0 - Z.min e 0)) in *. nia.
  - intros H. apply Z.compare_gt_iff in H. split; [reflexivity|]. intros ->. simpl in H. lia.
Qed.

Lemma cmp_nonneg_sign s c e : cmp_dec (Fin s c e) dzero <> Lt -> negb s || (c =? 0)%N = true.
Proof.
  unfold cmp_dec, dzero, signed. destruct s; simpl; [|reflexivity].
  intros H. destruct (N.eqb_spec c 0); [reflexivity|].
  exfalso. apply H. apply Z.compare_lt_iff.
  assert (0 < 10 ^ (e - Z.min e 0)) by (apply Z.pow_pos_nonneg; lia).
  set (P := 10 ^ (e - Z.min e 0)) in *. set (Q := 10 ^ (0 - Z.min e 0)) in *. nia.
Qed.

Lemma ingredient_ok_cmp i :
  ingredient_ok i ->
  is_nan (quantity i) = false /\ cmp_dec (quantity i) dzero = Gt /\
  is_nan (price_per_unit i) = false /\ cmp_dec (price_per_unit i) dzero <> Lt.
Proof.
  unfold ingredient_ok, Ingredient_new. simpl.
  destruct (check_name (PStr (name i))); simpl; [|discriminate].
  unfold dec_le, dec_lt, dec_compare.
  destruct (is_nan (quantity i)) eqn:Nq; simpl; [discriminate|].
  destruct (cmp_dec (quantity i) dzero) eqn:Cq; simpl; try discriminate.
  destruct (is_nan (price_per_unit i)) eqn:Np; simpl; [discriminate|].
  destruct (cmp_dec (price_per_unit i) dzero) eqn:Cp; simpl; try discriminate;
    intros _; repeat split; congruence.
Qed.

Lemma not_lt_nonneg_repr d : is_nan d = false -> cmp_dec d dzero <> Lt -> nonneg_repr d = true.
Proof.
  destruct d as [s c e|s|s p|s p]; simpl; try discriminate; intros _ H.
  - exact (cmp_nonneg_sign s c e H).
  - destruct s; simpl in *; [congruence | reflexivity].
Qed.

Lemma nonneg_not_nan d : nonneg_repr d = true -> is_nan d = false.
Proof. destruct d; simpl; congruence. Qed.

Lemma check_nans_nonneg x y :
  nonneg_repr x = true -> nonneg_repr y = true -> check_nans x y = None.
Proof. destruct x, y; simpl; congruence. Qed.

Lemma dec_mul_nonneg x y z :
  nonneg_repr x = true -> nonneg_repr y = true -> dec_mul x y = Ok z -> nonneg_repr z = true.
Proof.
  intros Hx Hy. unfold dec_mul. rewrite check_nans_nonneg by assumption.
  destruct x as [s1 c1 e1|s1|s1 p1|s1 p1]; destruct y as [s2 c2 e2|s2|s2 p2|s2 p2];
    simpl in Hx, Hy; cbn -[fix_dec]; try discriminate.
  - apply fix_dec_nonneg. simpl.
    destruct s1, s2; simpl in *; try reflexivity;
      apply N.eqb_eq in Hx || apply N.eqb_eq in Hy; subst; rewrite ?N.mul_0_l, ?N.mul_0_r; reflexivity.
  - destruct (c1 =? 0)%N eqn:Ec; [discriminate|]. intros E; injection E as <-.
    destruct s1, s2; simpl in *; congruence.
  - destruct (c2 =? 0)%N eqn:Ec; [discriminate|]. intros E; injection E as <-.
    destruct s1, s2; simpl in *; congruence.
  - intros E; injection E as <-. destruct s1, s2; simpl in *; congruence.
Qed.

Lemma dec_add_nonneg x y z :
  nonneg_repr x = true -> nonneg_repr y = true -> dec_add x y = Ok z -> nonneg_repr z = true.
Proof.
  intros Hx Hy. unfold dec_add. rewrite check_nans_nonneg by assumption.
  destruct x as [s1 c1 e1|s1|s1 p1|s1 p1]; destruct y as [s2 c2 e2|s2|s2 p2|s2 p2];
    simpl in Hx, Hy; cbn -[fix_dec]; try discriminate.
  - destruct (c1 =? 0)%N eqn:E1; destruct (c2 =? 0)%N eqn:E2; cbn -[fix_dec]; apply fix_dec_nonneg; simpl.
    + now rewrite orb_true_r.
    + destruct s2; simpl in *; [congruence | reflexivity].
    + destruct s1; simpl in *; [congruence | reflexivity].
    + destruct s1, s2; simpl in *; try congruence.
      unfold signed. destruct (Z.ltb_spec (Z.of_N c1 * 10 ^ (e1 - Z.min e1 e2) +
                                          Z.of_N c2 * 10 ^ (e2 - Z.min e1 e2)) 0); [|reflexivity].
      exfalso.
      assert (0 <= 10 ^ (e1 - Z.min e1 e2)) by (apply Z.pow_nonneg; lia).
      assert (0 <= 10 ^ (e2 - Z.min e1 e2)) by (apply Z.pow_nonneg; lia).
      set (P := 10 ^ (e1 - Z.min e1 e2)) in *. set (Q := 10 ^ (e2 - Z.min e1 e2)) in *. nia.
  - intros E; injection E as <-. exact Hy.
  - intros E; injection E as <-. exact Hx.
  - destruct (Bool.eqb s1 s2); [|discriminate]. intros E; injection E as <-. exact Hx.
Qed.

Lemma quantize_nonneg x q mode z :
  nonneg_repr x = true -> nonneg_repr q = true -> quantize x q mode = Ok z -> nonneg_repr z = true.
Proof.
  intros Hx Hq. unfold quantize. rewrite check_nans_nonneg by assumption.
  destruct x as [s c e|s|s p|s p]; destruct q as [sq cq te|sq|sq pq|sq pq];
    simpl in Hx, Hq; cbn -[fix_dec]; try discriminate.
  - match goal with |- context [if negb ?b then _ else _] => destruct b end;
      simpl negb; cbv iota; [|discriminate].
    destruct (c =? 0)%N eqn:Ec.
    + intros E. eapply fix_dec_nonneg; [|exact E]. destruct s; reflexivity.
    + destruct (Emax <? _); [discriminate|]. destruct (prec <? _); [discriminate|].
      destruct s; simpl in Hx; [congruence|].
      unfold rescale. rewrite Ec.
      destruct (te <=? e); cbn -[fix_dec];
        (destruct (Emax <? _); [discriminate|]; destruct (prec <? _); [discriminate|];
         intros E; eapply fix_dec_nonneg; [|exact E]; reflexivity).
  - intros E; injection E as <-. exact Hx.
Qed.

Lemma dec_div_nonneg x n z :
  nonneg_repr x = true -> 1 <= n -> dec_div x (dec_of_Z n) = Ok z -> nonneg_repr z = true.
Proof.
  intros Hx Hn. unfold dec_div, dec_of_Z.
  replace (n <? 0) with false by (symmetry; apply Z.ltb_ge; lia).
  rewrite check_nans_nonneg by (try assumption; reflexivity).
  destruct x as [s c e|s|s p|s p]; simpl in Hx; cbn -[fix_dec]; try discriminate.
  - replace (Z.abs_N n =? 0)%N with false by (symmetry; apply N.eqb_neq; lia).
    destruct (c =? 0)%N eqn:Ec.
    + intros E. eapply fix_dec_nonneg; [|exact E]. simpl. destruct s; reflexivity.
    + destruct s; simpl in Hx; [congruence|].
      repeat match goal with |- context [match ?p with pair _ _ => _ end] => destruct p end.
      intros E; eapply fix_dec_nonneg; [|exact E]; reflexivity.
  - intros E; injection E as <-. simpl. now rewrite xorb_false_r.
Qed.

Lemma sum_costs_nonneg ings total v :
  Forall ingredient_ok ings -> nonneg_repr total = true ->
  sum_costs total ings = Ok v -> nonneg_repr v = true.
Proof.
  intros Hall. revert total. induction Hall as [|i ings Hi _ IH]; intros total Ht; simpl.
  - intros E; injection E as <-. exact Ht.
  - destruct (ingredient_ok_cmp i Hi) as (Nq & Cq & Np & Cp).
    assert (Hq : nonneg_repr (quantity i) = true) by (apply not_lt_nonneg_repr; congruence).
    assert (Hp : nonneg_repr (price_per_unit i) = true) by (apply not_lt_nonneg_repr; assumption).
    destruct (dec_mul (quantity i) (price_per_unit i)) as [m|] eqn:Em; simpl; [|discriminate].
    destruct (dec_add total m) as [t'|] eqn:Ea; simpl; [|discriminate].
    apply IH. eapply dec_add_nonneg; [exact Ht | | exact Ea].
    eapply dec_mul_nonneg; [exact Hq | exact Hp | exact Em].
Qed.

(** Claim C9: for a recipe whose ingredients all satisfy the construction
    invariant, a total cost that is computed satisfies [total >= 0], and so
    does a cost per serving when [servings >= 1]. *)
Theorem cost_nonneg (r : Recipe) :
  Forall ingredient_ok (ingredients r) ->
  (forall v, calculate_total_cost r = Ok v -> is_nonneg v = true) /\
  (1 <= servings r -> forall v, calculate_cost_per_serving r = Ok v -> is_nonneg v = true).
Proof.
  intros Hall.
  assert (Htot : forall v, calculate_total_cost r = Ok v -> nonneg_repr v = true).
  { intros v. unfold calculate_total_cost.
    destruct (sum_costs (Fin false 0 0) (ingredients r)) as [t|] eqn:Es; simpl; [|discriminate].
    unfold quantize_money. intros Hq. apply (quantize_nonneg t MONEY_QUANT ROUND_HALF_UP v); [| reflexivity | exact Hq].
    apply (sum_costs_nonneg (ingredients r) (Fin false 0 0) t); [exact Hall | reflexivity | exact Es]. }
  split.
  - intros v Hv. now apply nonneg_repr_is_nonneg, Htot.
  - intros Hs v. unfold calculate_cost_per_serving.
    replace (servings r <=? 0) with false by (symmetry; apply Z.leb_gt; lia).
    destruct (calculate_total_cost r) as [t|] eqn:Et; simpl; [|discriminate].
    destruct (dec_div t (dec_of_Z (servings r))) as [d|] eqn:Ed; simpl; [|discriminate].
    intros Hq. apply nonneg_repr_is_nonneg.
    apply (quantize_nonneg d MONEY_QUANT ROUND_HALF_UP v); [| reflexivity | exact Hq].
    eapply dec_div_nonneg; [apply Htot; reflexivity | exact Hs | exact Ed].
Qed.

Lemma cost_nonneg_witness :
  calculate_total_cost gin_tonic = Ok (Fin false 175 (-2)) /\ is_nonneg (Fin false 175 (-2)) = true /\
  calculate_cost_per_serving gin_tonic = Ok (Fin false 175 (-2)).
Proof.
  assert (H : Forall ingredient_ok (ingredients gin_tonic)).
  { apply Forall_cons; [reflexivity|]. apply Forall_cons; [reflexivity|]. apply Forall_nil. }
  split; [vm_compute; reflexivity|]. split; [|vm_compute; reflexivity].
  apply (proj1 (cost_nonneg gin_tonic H)). vm_compute. reflexivity.
Defined.

(** ** Ingredient objects are changed only by assignments to them *)

Lemma list_set_length {A} (xs : list A) n x : length (list_set xs n x) = length xs.
Proof.
  revert n. induction xs as [|y xs IH]; intros [|n]; simpl; auto.
Qed.

Lemma nth_error_list_set_eq {A} (xs : list A) n x :
  (n < length xs)%nat -> nth_error (list_set xs n x) n = Some x.
Proof.
  revert n. induction xs as [|y xs IH]; intros [|n] H; simpl in *; try lia; auto.
  apply IH. lia.
Qed.

Lemma nth_error_list_set_ne {A} (xs : list A) n m x :
  m <> n -> nth_error (list_set xs n x) m = nth_error xs m.
Proof.
  revert n m. induction xs as [|y xs IH]; intros [|n] [|m] H; simpl; auto; try congruence.
Qed.

Lemma get_recipe_row_args_spec rw :
  get_recipe_row rw =
  option_map (fun r => a <- r ;; let '(nm, q, u, p) := a in Ingredient_new nm q u p)
             (get_recipe_row_args rw).
Proof.
  unfold get_recipe_row, get_recipe_row_args. destruct (is_blank (t_name rw)); [reflexivity|].
  simpl option_map. f_equal.
  destruct (parse_decimal (or_text (t_qty rw) "0")) as [qty|e]; [cbn [bind]|reflexivity].
  cbv zeta.
  destruct (match (if is_blank (t_row_price rw) then None else _) with
            | Some _ => dec_gt qty dzero | None => Ok false end)
    as [b|e]; cbn [bind]; [|reflexivity].
  destruct (match (if is_blank (t_row_price rw) then None else _) with
            | Some rp => _ | None => _ end)
    as [pr|e]; reflexivity.
Qed.

Lemma list_set_last {A} (xs : list A) o x : list_set (xs ++ [o]) (length xs) x = (xs ++ [x])%list.
Proof. induction xs as [|y xs IH]; simpl; [reflexivity|]. now rewrite IH. Qed.

Lemma getattr_last xs rs o f :
  getattr (length xs) f (mkHeap (xs ++ [o]) rs) = (mkHeap (xs ++ [o]) rs, Ok (get_field f o)).
Proof. unfold getattr. simpl. rewrite nth_error_app2, Nat.sub_diag by lia. reflexivity. Qed.

Lemma setattr_last xs rs o f v :
  setattr (length xs) f v (mkHeap (xs ++ [o]) rs) = (mkHeap (xs ++ [set_field f v o]) rs, Ok tt).
Proof.
  unfold setattr. simpl. rewrite nth_error_app2, Nat.sub_diag by lia. simpl.
  now rewrite list_set_last.
Qed.

Lemma normalize_number_eq v :
  normalize_number v = if is_num_or_str v then d <- decimal_of_str_of v ;; Ok (PDec d) else Ok v.
Proof. destruct v; reflexivity. Qed.

Lemma check_name_ok v n : check_name v = Ok n -> v = PStr n.
Proof.
  unfold check_name. destruct (negb (truthy v)); [discriminate|].
  destruct v; try discriminate. destruct (is_blank s); [discriminate|]. now intros [= <-].
Qed.

Ltac heap_steps :=
  repeat (first [rewrite getattr_last | rewrite setattr_last]; cbv beta iota;
          cbn [get_field set_field o_name o_quantity o_unit o_price_per_unit is_num_or_str]).

Ltac post_init_go :=
  repeat first
    [ progress heap_steps
    | progress (cbn [bind le_zero lt_zero]; cbv beta iota)
    | match goal with
      | |- context [if ?b then _ else _] => destruct b; cbv beta iota
      | |- context [match check_name ?v with Ok _ => _ | Err _ => _ end] =>
          let En := fresh "En" in
          destruct (check_name v) eqn:En; [apply check_name_ok in En; subst v|]
      | |- context [decimal_of_str_of ?v] => destruct (decimal_of_str_of v)
      | |- context [dec_le ?a ?b] => destruct (dec_le a b)
      | |- context [dec_lt ?a ?b] => destruct (dec_lt a b)
      end ].

(** [__post_init__] on the object just allocated does what
    [Ingredient_new] computes: on success the object holds the values of
    the [Ingredient]; either way the error is the same. *)
Lemma post_init_new xs rs o :
  exists o', fst (post_init (length xs) (mkHeap (xs ++ [o]) rs)) = mkHeap (xs ++ [o']) rs /\
  match Ingredient_new (o_name o) (o_quantity o) (o_unit o) (o_price_per_unit o) with
  | Ok i => snd (post_init (length xs) (mkHeap (xs ++ [o]) rs)) = Ok tt /\ o' = ingredient_obj i
  | Err e => snd (post_init (length xs) (mkHeap (xs ++ [o]) rs)) = Err e
  end.
Proof.
  destruct o as [nm q u p]. unfold post_init, Ingredient_new. unfold st_bind, lift, ret, raise.
  rewrite !normalize_number_eq. cbn [o_name o_quantity o_unit o_price_per_unit].
  destruct q as [|z|r|t|d|l|k], p as [|z2|r2|t2|d2|l2|k2]; cbn [is_num_or_str]; cbv beta iota; post_init_go;
    (eexists; split; [reflexivity | try (split; reflexivity); try reflexivity]).
Qed.

(** [Ingredient(...)] on the heap appends one object and returns its
    location exactly when [Ingredient_new] succeeds, the object then
    holding the [Ingredient] it returns. *)
Lemma Ingredient_init_new nm q u p h :
  exists o', store (fst (Ingredient_init nm q u p h)) = (store h ++ [o'])%list /\
  recipes (fst (Ingredient_init nm q u p h)) = recipes h /\
  match Ingredient_new nm q u p with
  | Ok i => snd (Ingredient_init nm q u p h) = Ok (length (store h)) /\ o' = ingredient_obj i
  | Err e => snd (Ingredient_init nm q u p h) = Err e
  end.
Proof.
  unfold Ingredient_init. unfold st_bind at 1, new_obj. cbv beta iota.
  destruct (post_init_new (store h) (recipes h) (mkObj nm q u p)) as (o' & H1 & H2).
  cbn [o_name o_quantity o_unit o_price_per_unit] in H2.
  exists o'. unfold st_bind, ret.
  destruct (post_init (length (store h)) (mkHeap (store h ++ [mkObj nm q u p]) (recipes h))) as [h1 [[]|e]].
  - cbn [fst snd] in *. subst h1. split; [reflexivity|]. split; [reflexivity|].
    destruct (Ingredient_new nm q u p); [destruct H2 as [_ H2]; split; [reflexivity | exact H2] | discriminate].
  - cbn [fst snd] in *. subst h1. split; [reflexivity|]. split; [reflexivity|].
    destruct (Ingredient_new nm q u p); [destruct H2; discriminate | congruence].
Qed.

Lemma frames_ret {A} n (a : A) : frames n (ret a).
Proof. intros h Hn. split; [exact Hn | reflexivity]. Qed.

Lemma frames_raise {A} n e : frames n (@raise A e).
Proof. intros h Hn. split; [exact Hn | reflexivity]. Qed.

Lemma frames_lift {A} n (r : result A) : frames n (lift r).
Proof. intros h Hn. split; [exact Hn | reflexivity]. Qed.

Lemma frames_bind {A B} n (m : st A) (k : A -> st B) :
  frames n m -> (forall a, frames n (k a)) -> frames n (st_bind m k).
Proof.
  intros Hm Hk h Hn. pose proof (Hm h Hn) as Hmh. unfold st_bind.
  destruct (m h) as [h' [a|e]]; simpl in Hmh |- *; destruct Hmh as [H1 H2].
  - destruct (Hk a h' H1) as [H3 H4]. split; [exact H3|].
    intros l Hl. rewrite H4 by exact Hl. apply H2, Hl.
  - split; assumption.
Qed.

Lemma frames_getattr n l f : frames n (getattr l f).
Proof. intros h Hn. unfold getattr. destruct (nth_error (store h) l); split; auto. Qed.

Lemma frames_setattr n l f v : (n <= l)%nat -> frames n (setattr l f v).
Proof.
  intros Hl h Hn. unfold setattr. destruct (nth_error (store h) l); simpl; [|split; auto].
  rewrite list_set_length. split; [exact Hn|].
  intros m Hm. apply nth_error_list_set_ne. lia.
Qed.

Lemma frames_new_recipe n ro : frames n (new_recipe ro).
Proof. intros h Hn. split; [exact Hn | reflexivity]. Qed.

Ltac frames_steps :=
  repeat match goal with
  | |- frames _ (st_bind _ _) => apply frames_bind; [| intros ?]
  | |- frames _ (getattr _ _) => apply frames_getattr
  | |- frames _ (lift _) => apply frames_lift
  | |- frames _ (ret _) => apply frames_ret
  | |- frames _ (raise _) => apply frames_raise
  | |- frames _ (new_recipe _) => apply frames_new_recipe
  | |- frames _ (setattr _ _ _) => apply frames_setattr; assumption
  | |- frames _ (if ?b then _ else _) => destruct b
  end.

Lemma frames_post_init n self : (n <= self)%nat -> frames n (post_init self).
Proof. intros H. unfold post_init. frames_steps. Qed.

Lemma frames_Ingredient_init n nm q u p : frames n (Ingredient_init nm q u p).
Proof.
  intros h Hn. unfold Ingredient_init. unfold st_bind at 1, new_obj. cbv beta iota.
  set (h1 := mkHeap (store h ++ [mkObj nm q u p])%list (recipes h)).
  assert (F : frames n (st_bind (post_init (length (store h))) (fun _ => ret (length (store h))))).
  { apply frames_bind; [apply frames_post_init; exact Hn | intros; apply frames_ret]. }
  destruct (F h1) as [A B]; [unfold h1; simpl; rewrite length_app; lia|].
  split; [exact A|]. intros l Hl. rewrite B by exact Hl. unfold h1; simpl.
  apply nth_error_app1. lia.
Qed.

Lemma frames_map_st {A B} n (f : A -> st B) l :
  (forall a, frames n (f a)) -> frames n (map_st f l).
Proof. intros Hf. induction l as [|x l IH]; simpl; frames_steps; auto. Qed.

Lemma frames_Recipe_from_dict_h n d : frames n (Recipe_from_dict_h d).
Proof.
  unfold Recipe_from_dict_h. frames_steps. apply frames_map_st. intros it.
  unfold Ingredient_from_dict_h. frames_steps. apply frames_Ingredient_init.
Qed.

Lemma frames_get_recipe_h n name rows : frames n (get_recipe_h name rows).
Proof.
  unfold get_recipe_h. frames_steps.
  induction rows as [|rw rows IH]; simpl; [apply frames_ret|].
  destruct (get_recipe_row_args rw) as [r|]; [|exact IH].
  frames_steps; [destruct a as [[[nm q] u] p]; apply frames_Ingredient_init | exact IH].
Qed.

(** A step that is not an assignment keeps the objects already there. *)
Lemma exec_frames n o h :
  (n <= length (store h))%nat -> (forall l f v, o = SetAttr l f v -> (n <= l)%nat) ->
  (n <= length (store (fst (exec o h))))%nat /\
  forall l, (l < n)%nat -> nth_error (store (fst (exec o h))) l = nth_error (store h) l.
Proof.
  intros Hn Ho. destruct o as [nm q u p|l f v|nm ls k|d|nm rows|rw|k|k|k|k]; simpl.
  - pose proof (frames_Ingredient_init n nm q u p h Hn) as F.
    destruct (Ingredient_init nm q u p h); exact F.
  - pose proof (frames_setattr n l f v (Ho l f v eq_refl) h Hn) as F.
    destruct (setattr l f v h); exact F.
  - split; auto.
  - pose proof (frames_Recipe_from_dict_h n d h Hn) as F.
    destruct (Recipe_from_dict_h d h); exact F.
  - pose proof (frames_get_recipe_h n nm rows h Hn) as F.
    destruct (get_recipe_h nm rows h); exact F.
  - split; auto.
  - split; auto.
  - split; auto.
  - split; auto.
  - split; auto.
Qed.

Lemma exec_step o h l x :
  nth_error (store h) l = Some x ->
  nth_error (store (fst (exec o h))) l = Some (apply_assignments (assignments l [o]) x).
Proof.
  intros H. assert (Hl : (l < length (store h))%nat) by (apply nth_error_Some; congruence).
  destruct o as [nm q u p|l' f v|nm ls k|d|nm rows|rw|k|k|k|k];
    try (simpl assignments; simpl apply_assignments;
         match goal with |- nth_error (store (fst (exec ?o h))) l = _ =>
           rewrite (proj2 (exec_frames (S l) o h ltac:(lia) ltac:(intros ? ? ? E; discriminate E))
                      l ltac:(lia))
         end; exact H).
  simpl. unfold setattr. destruct (Nat.eqb_spec l' l) as [<-|Hne].
  - rewrite H. simpl. apply nth_error_list_set_eq. exact Hl.
  - destruct (nth_error (store h) l'); simpl; [|exact H].
    rewrite nth_error_list_set_ne by congruence. exact H.
Qed.

Lemma assignments_cons l o ops : assignments l (o :: ops) = (assignments l [o] ++ assignments l ops)%list.
Proof. destruct o; simpl; try reflexivity. destruct (Nat.eqb l0 l); reflexivity. Qed.

(** Claim C8 (corrected): [Ingredient] objects are not immutable: an
    assignment [ing.f = v] to an attribute of an existing ingredient
    object changes it, with no validation.  But no operation of the
    program changes one: whatever operations run, the object at an
    existing location holds its attributes with exactly the assignments
    [ing.f = v] made to it applied in order, so without such an assignment
    it keeps its name, quantity, unit and price_per_unit.  (The only
    assignments in the program, those of [__post_init__], are to the
    object being constructed.) *)
Theorem ingredient_immutable (ops : list op) (h : heap) (l : nat) (o : obj) :
  nth_error (store h) l = Some o ->
  nth_error (store (run_ops ops h)) l = Some (apply_assignments (assignments l ops) o) /\
  (assignments l ops = [] -> nth_error (store (run_ops ops h)) l = Some o).
Proof.
  intros H.
  assert (K : nth_error (store (run_ops ops h)) l = Some (apply_assignments (assignments l ops) o)).
  { revert h o H. induction ops as [|o0 ops IH]; intros h o H; [exact H|].
    simpl run_ops. rewrite assignments_cons. unfold apply_assignments. rewrite fold_left_app.
    apply IH. apply exec_step. exact H. }
  split; [exact K|]. intros E. rewrite K, E. reflexivity.
Qed.

Lemma ingredient_immutable_witness :
  nth_error (store (run_ops (skipn 1 session) (run_ops (firstn 1 session) (mkHeap [] [])))) 0 =
    Some (apply_assignments [(FQuantity, PDec (Fin true 50 0))]
            (mkObj (PStr "Gin") (PDec (Fin false 50 0)) (PStr "ml") (PDec (Fin false 2 (-2))))) /\
  (assignments 0 (firstn 2 (skipn 1 session)) = [] ->
   nth_error (store (run_ops (firstn 2 (skipn 1 session)) (run_ops (firstn 1 session) (mkHeap [] [])))) 0 =
     Some (mkObj (PStr "Gin") (PDec (Fin false 50 0)) (PStr "ml") (PDec (Fin false 2 (-2))))).
Proof.
  split.
  - apply (ingredient_immutable (skipn 1 session) _ 0
             (mkObj (PStr "Gin") (PDec (Fin false 50 0)) (PStr "ml") (PDec (Fin false 2 (-2))))).
    vm_compute. reflexivity.
  - apply (ingredient_immutable (firstn 2 (skipn 1 session)) _ 0
             (mkObj (PStr "Gin") (PDec (Fin false 50 0)) (PStr "ml") (PDec (Fin false 2 (-2))))).
    vm_compute. reflexivity.
Defined.

(** Claim C8, counterexample: in [session], the assignment
    [ing.quantity = Decimal(-50)] changes the existing ingredient object,
    which no validation rejects: the total of the recipe holding it goes
    from 1.00 to -1.00. *)
Lemma ingredient_immutable_counterexample :
  nth_error (store (run_ops (firstn 3 session) (mkHeap [] []))) 0 =
    Some (mkObj (PStr "Gin") (PDec (Fin false 50 0)) (PStr "ml") (PDec (Fin false 2 (-2)))) /\
  nth_error (store (run_ops session (mkHeap [] []))) 0 =
    Some (mkObj (PStr "Gin") (PDec (Fin true 50 0)) (PStr "ml") (PDec (Fin false 2 (-2)))) /\
  run_outcomes session (mkHeap [] []) =
    [ORef (Ok 0%nat); ORef (Ok 0%nat); ODec (Ok (Fin false 100 (-2)));
     OAssign (Ok tt); ODec (Ok (Fin true 100 (-2)))].
Proof. split; [|split]; vm_compute; reflexivity. Qed.

(** ** The rows of the cost dialog *)

(** Claim C4 (amended): for a table row with a non-blank name whose row
    price text reads as a decimal [P] and whose quantity text reads as
    [Q > 0], [get_recipe] builds the ingredient from [Q] and
    [price_per_unit = P / Q], the context's division rounded to 28
    significant digits, whatever the price-per-unit cell shows (that cell
    is read only when the row price is blank or does not read, or when
    [Q <= 0]); [Q * (P / Q)] need not equal [P]. *)
Theorem row_price_precedence (rw : row_texts) (P Q : dec) :
  is_blank (t_name rw) = false ->
  is_blank (t_row_price rw) = false ->
  dec_of_string (strip (t_row_price rw)) = Ok P ->
  parse_decimal (or_text (t_qty rw) "0") = Ok Q ->
  dec_gt Q dzero = Ok true ->
  get_recipe_row rw =
    Some (price <- dec_div P Q ;;
          Ingredient_new (PStr (strip (t_name rw))) (PDec Q) (PStr (strip (t_unit rw))) (PDec price)) /\
  (forall ppu_text,
     get_recipe_row (mkRow (t_name rw) (t_row_price rw) (t_qty rw) (t_unit rw) ppu_text) =
     get_recipe_row rw).
Proof.
  intros Hn Hr HP HQ Hg.
  assert (E : forall t, get_recipe_row (mkRow (t_name rw) (t_row_price rw) (t_qty rw) (t_unit rw) t) =
    Some (price <- dec_div P Q ;;
          Ingredient_new (PStr (strip (t_name rw))) (PDec Q) (PStr (strip (t_unit rw))) (PDec price))).
  { intros t. unfold get_recipe_row. simpl. rewrite Hn, HQ. simpl. rewrite Hr, HP. simpl.
    rewrite Hg. reflexivity. }
  split.
  - destruct rw as [a b c d e]. exact (E e).
  - intros t. rewrite E. destruct rw as [a b c d e]. symmetry. exact (E e).
Qed.

Lemma row_price_precedence_witness :
  get_recipe_row (mkRow "Gin" "21" "700" "60" "9.99") =
    Some (Ok (mkIngredient "Gin" (Fin false 700 0) (PStr "60") (Fin false 3 (-2)))) /\
  get_recipe_row (mkRow "Gin" "21" "700" "60" "") =
    get_recipe_row (mkRow "Gin" "21" "700" "60" "9.99").
Proof.
  split.
  - rewrite (proj1 (row_price_precedence (mkRow "Gin" "21" "700" "60" "9.99")
                      (Fin false 21 0) (Fin false 700 0)
                      eq_refl eq_refl eq_refl eq_refl eq_refl)).
    vm_compute. reflexivity.
  - apply (proj2 (row_price_precedence (mkRow "Gin" "21" "700" "60" "9.99")
                    (Fin false 21 0) (Fin false 700 0)
                    eq_refl eq_refl eq_refl eq_refl eq_refl)).
Defined.

(** Claim C4, counterexample: the row price 0.005 over the quantity 14
    gives a price per unit of 28 digits whose product with 14 is just
    below 0.005, so the recipe costs 0.00 where the row price alone
    rounds to 0.01. *)
Lemma row_price_precedence_counterexample :
  (r <- get_recipe "G&T" [mkRow "Gin" "0.005" "14" "" "0.00"] ;; calculate_total_cost r) =
    Ok (Fin false 0 (-2)) /\
  quantize_money (Fin false 5 (-3)) = Ok (Fin false 1 (-2)).
Proof. split; vm_compute; reflexivity. Qed.

(** Claim C3 (amended): for a row whose row price text reads as a decimal
    [P], with [Q] and [U] the decimals read from the quantity and unit
    spec cells ([0] when a cell is empty or does not read): when [Q > 0]
    and [U > 0], the price-per-unit cell shows [P * (U / Q)] quantized to
    six decimal places (ROUND_HALF_EVEN), displayed rounded half-up to two
    decimals, when that quantization succeeds, and is left unchanged when
    it raises (a result of more than 28 digits); when [Q <= 0] or [U <= 0]
    ([Q] not NaN), the cell is cleared. *)
Theorem update_ppu_row (rw : row_texts) (P Q U : dec) :
  dec_of_string (text_or (t_row_price rw) "") = Ok P ->
  dec_or_zero (text_or (t_qty rw) "0") = Q ->
  dec_or_zero (text_or (t_unit rw) "0") = U ->
  (dec_gt Q dzero = Ok true -> dec_gt U dzero = Ok true ->
     update_price_per_unit_for_row rw =
       match (ratio <- dec_div U Q ;; m <- dec_mul P ratio ;;
              quantize m (Fin false 1 (-6)) ROUND_HALF_EVEN) with
       | Ok ppu => format_ppu ppu
       | Err _ => t_ppu rw
       end) /\
  (is_nan Q = false -> (dec_le Q dzero = Ok true \/ dec_le U dzero = Ok true) ->
     update_price_per_unit_for_row rw = "").
Proof.
  intros HP HQ HU. unfold update_price_per_unit_for_row. cbv zeta.
  assert (Hne : text_or (t_row_price rw) "" <> "").
  { intros E. rewrite E in HP. discriminate HP. }
  destruct (text_or (t_row_price rw) "") as [|c0 s0] eqn:Et; [congruence|].
  rewrite HP, HQ, HU. simpl.
  split.
  - intros Hq Hu. rewrite Hq. simpl. rewrite Hu. simpl.
    destruct (dec_div U Q) as [r|]; simpl; [|reflexivity].
    destruct (dec_mul P r) as [m|]; simpl; [|reflexivity].
    destruct (quantize m (Fin false 1 (-6)) ROUND_HALF_EVEN); reflexivity.
  - intros Nq Hle. unfold dec_gt, dec_le, dec_compare in *.
    rewrite Nq in *. simpl in *.
    destruct (cmp_dec Q dzero) eqn:Cq; simpl; try reflexivity.
    destruct Hle as [H|H]; [discriminate|].
    destruct (is_nan U); simpl in *; [discriminate|].
    destruct (cmp_dec U dzero); simpl in *; congruence.
Qed.

Lemma update_ppu_row_witness :
  update_price_per_unit_for_row (mkRow "Gin" "21" "700" "60" "") = "1.80" /\
  update_price_per_unit_for_row (mkRow "Gin" "18" "0" "25" "1.00") = "".
Proof.
  split.
  - rewrite (proj1 (update_ppu_row (mkRow "Gin" "21" "700" "60" "")
                      (Fin false 21 0) (Fin false 700 0) (Fin false 60 0) eq_refl eq_refl eq_refl)
                   eq_refl eq_refl).
    vm_compute. reflexivity.
  - apply (proj2 (update_ppu_row (mkRow "Gin" "18" "0" "25" "1.00")
                    (Fin false 18 0) (Fin false 0 0) (Fin false 25 0) eq_refl eq_refl eq_refl)).
    + reflexivity.
    + left. reflexivity.
Defined.

(** Claim C3, counterexample: with [P = U = 100000000] and [Q = 0.000001],
    [P * (U / Q)] has 23 integer digits, quantizing it to six decimals
    raises InvalidOperation, and the cell keeps its old text. *)
Lemma update_ppu_row_counterexample :
  dec_gt (Fin false 1 (-6)) dzero = Ok true /\ dec_gt (Fin false 100000000 0) dzero = Ok true /\
  update_price_per_unit_for_row (mkRow "Gin" "100000000" "0.000001" "100000000" "1.00") = "1.00".
Proof. vm_compute. repeat split. Qed.

(** ** The total is the exact sum rounded once *)

Lemma pow10_lt_exp a b : 0 <= a -> 10 ^ a < 10 ^ b -> a < b.
Proof.
  intros Ha H. destruct (Z.lt_ge_cases a b) as [|Hge]; [assumption|].
  assert (10 ^ b <= 10 ^ a).
  { destruct (Z.lt_ge_cases b 0).
    - rewrite (Z.pow_neg_r 10 b) by lia. apply Z.pow_nonneg. lia.
    - apply Z.pow_le_mono_r; lia. }
  lia.
Qed.

Lemma fix_dec_exact s c e :
  c <> 0%N -> ndigits c <= prec -> Etiny <= e -> e <= Etop -> fix_dec (Fin s c e) = Ok (Fin s c e).
Proof.
  intros Hc Hn H1 H2. unfold fix_dec.
  replace (c =? 0)%N with false by (symmetry; apply N.eqb_neq; exact Hc).
  replace (Etop <? ndigits c + e - prec) with false by (symmetry; apply Z.ltb_ge; lia).
  replace (e <? Z.max (ndigits c + e - prec) Etiny) with false by (symmetry; apply Z.ltb_ge; lia).
  reflexivity.
Qed.

Lemma abs_signed s c : Z.abs (signed s c) = Z.of_N c.
Proof. destruct s; unfold signed; lia. Qed.

Lemma signed_zero s : signed s 0 = 0.
Proof. destruct s; reflexivity. Qed.

Lemma signed_mul a b x y : signed (xorb a b) (x * y) = signed a x * signed b y.
Proof. destruct a, b; unfold signed; simpl; rewrite N2Z.inj_mul; ring. Qed.

Lemma signed_abs m : signed (m <? 0) (Z.abs_N m) = m.
Proof. unfold signed. destruct (Z.ltb_spec m 0); lia. Qed.

(** A non-zero coefficient scaled below [10^28]: [e < 16] and at most 28
    digits. *)
Lemma scaled_bounds c e :
  c <> 0%N -> -12 <= e -> Z.of_N c * 10 ^ (e + 12) < 10 ^ 28 ->
  e < 16 /\ ndigits c <= 28 - (e + 12) /\ ndigits c <= prec.
Proof.
  intros Hc He H.
  assert (Hp : 1 <= 10 ^ (e + 12)) by (apply (Z.pow_le_mono_r 10 0); lia).
  assert (Hc1 : 1 <= Z.of_N c) by lia.
  assert (Hlt : 10 ^ (e + 12) < 10 ^ 28).
  { set (P := 10 ^ (e + 12)) in *.
    assert (P <= Z.of_N c * P) by (rewrite <- (Z.mul_1_l P) at 1; apply Z.mul_le_mono_nonneg_r; lia).
    lia. }
  apply pow10_lt_exp in Hlt; [|lia].
  assert (Hc' : Z.of_N c < 10 ^ (28 - (e + 12))).
  { replace (10 ^ 28) with (10 ^ (28 - (e + 12)) * 10 ^ (e + 12)) in H
      by (rewrite <- Z.pow_add_r by lia; f_equal; lia).
    set (P := 10 ^ (e + 12)) in *. set (Q := 10 ^ (28 - (e + 12))) in *.
    destruct (Z.lt_ge_cases (Z.of_N c) Q) as [|Hge]; [assumption|].
    assert (Q * P <= Z.of_N c * P) by (apply Z.mul_le_mono_nonneg_r; lia). lia. }
  pose proof (ndigits_le c (28 - (e + 12)) ltac:(lia) Hc').
  unfold prec. lia.
Qed.

Lemma scaled12_zero s e : -12 <= e -> scaled12 (Fin s 0 e) = Some 0.
Proof.
  intros He. simpl. replace (-12 <=? e) with true by (symmetry; apply Z.leb_le; lia).
  now rewrite signed_zero.
Qed.

Lemma fix_dec_zero_scaled s e :
  -12 <= e -> exists z, fix_dec (Fin s 0 e) = Ok z /\ scaled12 z = Some 0.
Proof.
  intros He. eexists. split; [reflexivity|]. apply scaled12_zero.
  unfold Etiny, Emin, prec, Emax. lia.
Qed.

Lemma fix_dec_scaled s c e S :
  -12 <= e -> signed s c * 10 ^ (e + 12) = S -> Z.abs S < 10 ^ 28 ->
  exists z, fix_dec (Fin s c e) = Ok z /\ scaled12 z = Some S.
Proof.
  intros He HS Hb. destruct (N.eq_dec c 0) as [->|Hc].
  - rewrite signed_zero, Z.mul_0_l in HS. subst S. now apply fix_dec_zero_scaled.
  - assert (Habs : Z.of_N c * 10 ^ (e + 12) < 10 ^ 28).
    { rewrite <- HS, Z.abs_mul, abs_signed, Z.abs_eq in Hb by (apply Z.pow_nonneg; lia). exact Hb. }
    destruct (scaled_bounds c e Hc He Habs) as (H16 & _ & Hn).
    exists (Fin s c e). split.
    + apply fix_dec_exact; auto; unfold Etiny, Etop, Emin, Emax, prec; lia.
    + simpl. replace (-12 <=? e) with true by (symmetry; apply Z.leb_le; lia). now rewrite HS.
Qed.

Lemma mul_scaled q p :
  six_places q = true -> six_places p = true ->
  Z.abs (val6 q * val6 p) < 10 ^ 28 ->
  exists d, dec_mul q p = Ok d /\ scaled12 d = Some (val6 q * val6 p).
Proof.
  destruct q as [sq cq eq| | |]; try discriminate.
  destruct p as [sp cp ep| | |]; try discriminate.
  simpl. intros Hq Hp Hb. apply Z.leb_le in Hq. apply Z.leb_le in Hp.
  unfold dec_mul. simpl check_nans. cbv iota. simpl dsign.
  apply fix_dec_scaled; [lia | | exact Hb].
  rewrite signed_mul.
  replace (eq + ep + 12) with ((eq + 6) + (ep + 6)) by lia.
  rewrite Z.pow_add_r by lia. ring.
Qed.

Lemma signed_scale s c k : 0 <= k -> signed s (c * 10 ^ Z.to_N k) = signed s c * 10 ^ k.
Proof.
  intros Hk. unfold signed. rewrite N2Z.inj_mul, N2Z.inj_pow, Z2N.id by exact Hk.
  destruct s; simpl; ring.
Qed.

Lemma pow_shift a e f : e <= f -> -12 <= e ->
  a * 10 ^ (f - e) * 10 ^ (e + 12) = a * 10 ^ (f + 12).
Proof.
  intros H1 H2. rewrite <- Z.mul_assoc, <- Z.pow_add_r by lia. f_equal. f_equal. lia.
Qed.

Lemma scaled12_fin x S :
  scaled12 x = Some S -> exists s c e, x = Fin s c e /\ -12 <= e /\ S = signed s c * 10 ^ (e + 12).
Proof.
  destruct x as [s c e| | |]; simpl; try discriminate.
  destruct (Z.leb_spec (-12) e) as [Hle|]; [|discriminate]. intros E; injection E as <-. eauto 6.
Qed.

Lemma add_scaled x y Sx Sy :
  scaled12 x = Some Sx -> scaled12 y = Some Sy -> Z.abs (Sx + Sy) < 10 ^ 28 ->
  exists z, dec_add x y = Ok z /\ scaled12 z = Some (Sx + Sy).
Proof.
  intros Hx Hy Hb.
  destruct (scaled12_fin x Sx Hx) as (s1 & c1 & e1 & -> & He1 & ->).
  destruct (scaled12_fin y Sy Hy) as (s2 & c2 & e2 & -> & He2 & ->).
  clear Hx Hy. unfold dec_add. simpl check_nans. cbv iota zeta. unfold prec.
  destruct (N.eqb_spec c1 0) as [->|Hc1]; destruct (N.eqb_spec c2 0) as [->|Hc2]; simpl andb; cbv iota.
  - rewrite !signed_zero, !Z.mul_0_l, Z.add_0_l. apply fix_dec_zero_scaled. lia.
  - apply fix_dec_scaled; [lia | | exact Hb].
    rewrite signed_zero, Z.mul_0_l, Z.add_0_l, signed_scale by lia.
    apply pow_shift; lia.
  - apply fix_dec_scaled; [lia | | exact Hb].
    rewrite signed_zero, Z.mul_0_l, Z.add_0_r, signed_scale by lia.
    apply pow_shift; lia.
  - apply fix_dec_scaled; [lia | | exact Hb].
    rewrite signed_abs, Z.mul_add_distr_r, !pow_shift by lia. reflexivity.
Qed.

Lemma abs_cost12_nonneg ings : 0 <= abs_cost12 ings.
Proof. induction ings as [|i ings IH]; simpl; lia. Qed.

Lemma sum_scaled ings : forall t St,
  Forall (fun i => six_places (quantity i) = true /\ six_places (price_per_unit i) = true) ings ->
  scaled12 t = Some St -> Z.abs St + abs_cost12 ings < 10 ^ 28 ->
  exists v, sum_costs t ings = Ok v /\ scaled12 v = Some (St + exact_cost12 ings).
Proof.
  induction ings as [|i ings IH]; intros t St Hall Ht Hb.
  - exists t. simpl. split; [reflexivity|]. now rewrite Z.add_0_r.
  - inversion Hall as [|i' ings' [Hq Hp] Hrest]; subst i' ings'.
    simpl in Hb. pose proof (abs_cost12_nonneg ings).
    destruct (mul_scaled (quantity i) (price_per_unit i) Hq Hp ltac:(lia)) as (m & Em & Sm).
    destruct (add_scaled t m St _ Ht Sm ltac:(lia)) as (t' & Et & St').
    destruct (IH t' _ Hrest St' ltac:(lia)) as (v & Ev & Sv).
    exists v. simpl. rewrite Em. simpl. rewrite Et. simpl. split; [exact Ev|].
    rewrite Sv. f_equal. ring.
Qed.

Lemma round_half_up_signed (s : bool) (A : Z) :
  0 <= A ->
  round_half_up_cents (if s then - A else A) =
    (if s then - ((A + 5 * 10 ^ 9) / 10 ^ 10) else (A + 5 * 10 ^ 9) / 10 ^ 10).
Proof.
  intros HA. unfold round_half_up_cents. destruct s.
  - destruct (Z.ltb_spec (- A) 0); [now rewrite Z.opp_involutive|].
    assert (A = 0) as -> by lia. reflexivity.
  - destruct (Z.ltb_spec A 0); [lia | reflexivity].
Qed.

Lemma signed_as_if s c : signed s c = if s then - Z.of_N c else Z.of_N c.
Proof. reflexivity. Qed.

Lemma drop_half_up c k :
  1 <= k <= 10 ->
  Z.of_N (drop_digits ROUND_HALF_UP c k) = (Z.of_N c * 10 ^ (10 - k) + 5 * 10 ^ 9) / 10 ^ 10.
Proof.
  intros Hk. unfold drop_digits, round_up.
  set (m := (10 ^ Z.to_N k)%N).
  assert (Hm : Z.of_N m = 10 ^ k) by (unfold m; rewrite N2Z.inj_pow, Z2N.id by lia; reflexivity).
  assert (Hm0 : m <> 0%N) by (intros E; rewrite E in Hm; simpl in Hm;
                               pose proof (Z.pow_pos_nonneg 10 k); lia).
  pose proof (N.div_mod c m Hm0) as Hdm. pose proof (N.mod_lt c m Hm0) as Hr.
  set (q := (c / m)%N) in *. set (r := (c mod m)%N) in *.
  assert (HC : Z.of_N c = 10 ^ k * Z.of_N q + Z.of_N r) by (rewrite Hdm at 1; lia).
  assert (HR : Z.of_N r < 10 ^ k) by lia.
  assert (HMJ : 10 ^ k * 10 ^ (10 - k) = 10 ^ 10) by (rewrite <- Z.pow_add_r by lia; f_equal; lia).
  assert (HJ : 1 <= 10 ^ (10 - k)) by (apply (Z.pow_le_mono_r 10 0); lia).
  assert (HM : 1 <= 10 ^ k) by (apply (Z.pow_le_mono_r 10 0); lia).
  set (J := 10 ^ (10 - k)) in *. set (M := 10 ^ k) in *.
  replace (10 ^ 10) with (2 * (5 * 10 ^ 9)) in * by reflexivity.
  set (F := 5 * 10 ^ 9) in *.
  set (Q := Z.of_N q) in *. set (R := Z.of_N r) in *.
  assert (Hr0 : 0 <= R) by (unfold R; lia).
  destruct (N.leb_spec m (2 * r)) as [Hle|Hgt].
  - assert (Hle' : M <= 2 * R) by (rewrite <- Hm; unfold R; lia).
    assert (H1 : M * J <= 2 * R * J) by (apply Z.mul_le_mono_nonneg_r; lia).
    assert (H2 : R * J < M * J) by (apply Z.mul_lt_mono_pos_r; lia).
    rewrite N2Z.inj_add. fold Q.
    apply (Z.div_unique _ _ _ (R * J + F - 2 * F)); [lia|].
    rewrite HC. replace (2 * F) with (M * J) by lia. ring.
  - assert (Hgt' : 2 * R + 1 <= M) by (rewrite <- Hm; unfold R; lia).
    assert (H1 : (2 * R + 1) * J <= M * J) by (apply Z.mul_le_mono_nonneg_r; lia).
    fold Q. apply (Z.div_unique _ _ _ (R * J + F)); [nia|].
    rewrite HC. replace (2 * F) with (M * J) by lia. ring.
Qed.

Lemma fix_dec_cents s c : ndigits c <= prec -> fix_dec (Fin s c (-2)) = Ok (Fin s c (-2)).
Proof.
  intros Hn. destruct (N.eq_dec c 0) as [->|Hc]; [reflexivity|].
  apply fix_dec_exact; [exact Hc | exact Hn | unfold Etiny, Emin, prec; lia | unfold Etop, Emax, prec; lia].
Qed.

Lemma quantize_scaled t S :
  scaled12 t = Some S -> Z.abs S < 10 ^ 28 ->
  exists s c, quantize_money t = Ok (Fin s c (-2)) /\ signed s c = round_half_up_cents S.
Proof.
  intros Ht Hb.
  destruct (scaled12_fin t S Ht) as (s & c & e & -> & He & ->). clear Ht.
  unfold quantize_money, quantize, MONEY_QUANT. simpl check_nans. cbv iota.
  replace (negb ((Etiny <=? -2) && (-2 <=? Emax))) with false by reflexivity. cbv iota.
  assert (HA : 0 <= Z.of_N c * 10 ^ (e + 12)) by (apply Z.mul_nonneg_nonneg; [lia | apply Z.pow_nonneg; lia]).
  rewrite signed_as_if.
  replace ((if s then - Z.of_N c else Z.of_N c) * 10 ^ (e + 12))
    with (if s then - (Z.of_N c * 10 ^ (e + 12)) else Z.of_N c * 10 ^ (e + 12))
    by (destruct s; ring).
  rewrite round_half_up_signed by exact HA.
  destruct (N.eqb_spec c 0) as [->|Hc].
  - exists s, 0%N. split; [reflexivity|]. simpl. destruct s; reflexivity.
  - assert (Habs : Z.of_N c * 10 ^ (e + 12) < 10 ^ 28).
    { rewrite Z.abs_mul, abs_signed, Z.abs_eq in Hb by (apply Z.pow_nonneg; lia). exact Hb. }
    destruct (scaled_bounds c e Hc He Habs) as (H16 & Hnd & _).
    unfold adjusted, Emax, prec.
    replace (999999 <? ndigits c + e - 1) with false by (symmetry; apply Z.ltb_ge; lia).
    replace (28 <? ndigits c + e - 1 - -2 + 1) with false by (symmetry; apply Z.ltb_ge; lia).
    unfold rescale. replace (c =? 0)%N with false by (symmetry; apply N.eqb_neq; exact Hc).
    set (F := 5 * 10 ^ 9). set (T := 10 ^ 10).
    (* the new coefficient [c'], its value and its size *)
    assert (Hc' : exists c', (if -2 <=? e then Fin s (c * 10 ^ Z.to_N (e - -2)) (-2)
                              else Fin s (drop_digits ROUND_HALF_UP c (-2 - e)) (-2)) = Fin s c' (-2)
                          /\ Z.of_N c' = (Z.of_N c * 10 ^ (e + 12) + F) / T).
    { destruct (Z.leb_spec (-2) e) as [Hle|Hlt].
      - eexists. split; [reflexivity|].
        rewrite N2Z.inj_mul, N2Z.inj_pow, Z2N.id by lia.
        replace (e + 12) with ((e - -2) + 10) by lia. rewrite Z.pow_add_r by lia.
        unfold T, F. change (Z.of_N 10) with 10. apply (Z.div_unique _ _ _ (5 * 10 ^ 9)); [lia | ring].
      - eexists. split; [reflexivity|]. rewrite drop_half_up by lia.
        unfold F, T. replace (10 - (-2 - e)) with (e + 12) by lia. reflexivity. }
    destruct Hc' as (c' & -> & Hv).
    assert (Hq : (Z.of_N c * 10 ^ (e + 12) + F) / T < 10 ^ 19).
    { apply Z.div_lt_upper_bound; unfold T, F in *; lia. }
    assert (Hn' : ndigits c' <= 19) by (apply ndigits_le; lia).
    replace (999999 <? ndigits c' + -2 - 1) with false by (symmetry; apply Z.ltb_ge; lia).
    replace (28 <? ndigits c') with false by (symmetry; apply Z.ltb_ge; lia).
    rewrite fix_dec_cents by (unfold prec; lia).
    exists s, c'. split; [reflexivity|]. rewrite signed_as_if, Hv. reflexivity.
Qed.

(** Claim C1 (amended): a recipe without ingredients costs 0.00; for a
    recipe whose quantities and prices are finite decimals of at most six
    decimal places with [sum(abs(quantity * price_per_unit)) < 10^16],
    [calculate_total_cost] is the exact sum of [quantity * price_per_unit]
    rounded once to two decimal places, ties away from zero. *)
Theorem total_cost_rounded_once (r : Recipe) :
  (ingredients r = [] -> calculate_total_cost r = Ok (Fin false 0 (-2))) /\
  (Forall (fun i => six_places (quantity i) = true /\ six_places (price_per_unit i) = true)
          (ingredients r) ->
   abs_cost12 (ingredients r) < 10 ^ 28 ->
   exists s c, calculate_total_cost r = Ok (Fin s c (-2)) /\
               signed s c = round_half_up_cents (exact_cost12 (ingredients r))).
Proof.
  split.
  - intros E. unfold calculate_total_cost. rewrite E. reflexivity.
  - intros Hall Hb. unfold calculate_total_cost.
    destruct (sum_scaled (ingredients r) (Fin false 0 0) 0 Hall eq_refl ltac:(simpl; lia))
      as (v & Ev & Sv).
    rewrite Ev. simpl.
    pose proof (abs_cost12_nonneg (ingredients r)).
    assert (Habs : forall ings, Z.abs (exact_cost12 ings) <= abs_cost12 ings).
    { induction ings as [|i ings IH]; simpl; lia. }
    apply quantize_scaled with (S := 0 + exact_cost12 (ingredients r)) in Sv;
      [|specialize (Habs (ingredients r)); lia].
    exact Sv.
Qed.

(** Claim C1, counterexample: a valid ingredient of quantity 1 and price
    10000000000000000000000000.005; the product is rounded to 28 digits
    (half-even, down to 10^25) before the final rounding, so the total is
    10^25.00 instead of the exact sum rounded half-up, 10^25 + 0.01. *)
Lemma total_cost_rounded_once_counterexample :
  Forall ingredient_ok (ingredients big_price_recipe) /\
  calculate_total_cost big_price_recipe = Ok (Fin false (10 ^ 27) (-2)) /\
  round_half_up_cents (exact_cost12 (ingredients big_price_recipe)) = 10 ^ 27 + 1.
Proof.
  split; [apply Forall_cons; [vm_compute; reflexivity | apply Forall_nil]|].
  split; vm_compute; reflexivity.
Qed.

Lemma total_cost_rounded_once_witness :
  calculate_total_cost gin_tonic = Ok (Fin false 175 (-2)) /\
  round_half_up_cents (exact_cost12 (ingredients gin_tonic)) = 175.
Proof.
  destruct (proj2 (total_cost_rounded_once gin_tonic)) as (s & c & E & V).
  - apply Forall_cons; [split; reflexivity|]. apply Forall_cons; [split; reflexivity|]. apply Forall_nil.
  - vm_compute. reflexivity.
  - vm_compute in E. injection E as <- <-. split; [reflexivity|]. rewrite <- V. reflexivity.
Defined.

(** ** Cost per serving: one division, then one rounding to cents *)

Lemma ndigits_ge x k : 1 <= k -> 10 ^ (k - 1) <= Z.of_N x -> k <= ndigits x.
Proof.
  intros Hk H. destruct (ndigits_Z x) as (N1 & N2 & _).
  assert (Hlt : 10 ^ (k - 1) < 10 ^ ndigits x) by lia.
  apply pow10_lt_exp in Hlt; lia.
Qed.

Lemma drop_half_even_err c k :
  0 <= k ->
  2 * Z.abs (Z.of_N (drop_digits ROUND_HALF_EVEN c k) * 10 ^ k - Z.of_N c) <= 10 ^ k /\
  Z.of_N c / 10 ^ k <= Z.of_N (drop_digits ROUND_HALF_EVEN c k) <= Z.of_N c / 10 ^ k + 1 /\
  (Z.of_N c mod 10 ^ k = 0 -> Z.of_N (drop_digits ROUND_HALF_EVEN c k) * 10 ^ k = Z.of_N c).
Proof.
  intros Hk. unfold drop_digits, round_up.
  set (m := (10 ^ Z.to_N k)%N).
  assert (Hm : Z.of_N m = 10 ^ k) by (unfold m; rewrite N2Z.inj_pow, Z2N.id by lia; reflexivity).
  assert (HM : 1 <= 10 ^ k) by (apply (Z.pow_le_mono_r 10 0); lia).
  assert (Hm0 : m <> 0%N) by (intros E; rewrite E in Hm; simpl in Hm; lia).
  pose proof (N.div_mod c m Hm0) as Hdm. pose proof (N.mod_lt c m Hm0) as Hr.
  assert (Hq : Z.of_N (c / m) = Z.of_N c / 10 ^ k) by (rewrite N2Z.inj_div, Hm; reflexivity).
  set (q := (c / m)%N) in *. set (r := (c mod m)%N) in *.
  assert (HC : Z.of_N c = 10 ^ k * Z.of_N q + Z.of_N r) by (rewrite Hdm at 1; lia).
  assert (HR : Z.of_N r < 10 ^ k) by lia.
  assert (Hrm : Z.of_N c mod 10 ^ k = Z.of_N r) by (rewrite <- Hm, <- N2Z.inj_mod; reflexivity).
  rewrite Hrm.
  destruct (N.eqb_spec (2 * r) m) as [Ht|Ht].
  - destruct (N.odd q).
    + rewrite N2Z.inj_add. change (Z.of_N 1) with 1. split; [|split; [lia|]].
      * replace ((Z.of_N q + 1) * 10 ^ k - Z.of_N c) with (10 ^ k - Z.of_N r) by (rewrite HC; ring). lia.
      * intros Hr0. exfalso. apply Hm0. rewrite <- Ht. lia.
    + split; [|split; [lia|]].
      * replace (Z.of_N q * 10 ^ k - Z.of_N c) with (- Z.of_N r) by (rewrite HC; ring). lia.
      * intros Hr0. rewrite HC, Hr0. ring.
  - destruct (N.ltb_spec m (2 * r)).
    + rewrite N2Z.inj_add. change (Z.of_N 1) with 1. split; [|split; [lia|]].
      * replace ((Z.of_N q + 1) * 10 ^ k - Z.of_N c) with (10 ^ k - Z.of_N r) by (rewrite HC; ring). lia.
      * intros Hr0. lia.
    + split; [|split; [lia|]].
      * replace (Z.of_N q * 10 ^ k - Z.of_N c) with (- Z.of_N r) by (rewrite HC; ring). lia.
      * intros Hr0. rewrite HC, Hr0. ring.
Qed.

Lemma strip_zeros_spec f : forall c e,
  let '(c', e') := strip_zeros f c e in
  Z.of_N c' * 10 ^ (e' - e) = Z.of_N c /\ e <= e' <= e + Z.of_nat f /\ (c <> 0%N -> c' <> 0%N).
Proof.
  induction f as [|f IH]; intros c e; simpl.
  - rewrite Z.sub_diag, Z.mul_1_r. split; [reflexivity|]. split; [lia | auto].
  - destruct (N.eqb_spec (c mod 10) 0) as [H0|H0].
    + specialize (IH (c / 10)%N (e + 1)). destruct (strip_zeros f (c / 10) (e + 1)) as [c' e'].
      destruct IH as (IH1 & IH2 & IH3).
      pose proof (N.div_mod c 10 ltac:(discriminate)) as Hd. rewrite H0, N.add_0_r in Hd.
      split; [|split; [lia|]].
      * replace (e' - e) with ((e' - (e + 1)) + 1) by lia. rewrite Z.pow_add_r by lia.
        rewrite Z.mul_assoc, IH1. rewrite Hd at 2. rewrite N2Z.inj_mul. change (Z.of_N 10) with 10. ring.
      * intros Hc. apply IH3. intros E. rewrite E in Hd. simpl in Hd. lia.
    + rewrite Z.sub_diag, Z.mul_1_r. split; [reflexivity|]. split; [lia | auto].
Qed.

Lemma fix_dec_round s c e :
  c <> 0%N -> Etiny <= e -> ndigits c + e - prec < Etop ->
  exists c' e', fix_dec (Fin s c e) = Ok (Fin s c' e') /\ e <= e' /\
    2 * Z.abs (Z.of_N c' * 10 ^ (e' - e) - Z.of_N c) <= 10 ^ (ndigits c - prec) /\ c' <> 0%N /\
    (Z.of_N c mod 10 ^ (ndigits c - prec) = 0 -> Z.of_N c' * 10 ^ (e' - e) = Z.of_N c).
Proof.
  intros Hc He Ho. unfold fix_dec.
  replace (c =? 0)%N with false by (symmetry; apply N.eqb_neq; exact Hc).
  replace (Etop <? ndigits c + e - prec) with false by (symmetry; apply Z.ltb_ge; lia).
  destruct (Z.ltb_spec e (Z.max (ndigits c + e - prec) Etiny)) as [Hlt|Hge].
  - assert (Hk : Z.max (ndigits c + e - prec) Etiny - e = ndigits c - prec) by lia.
    rewrite Hk. set (k := ndigits c - prec) in *.
    destruct (drop_half_even_err c k ltac:(lia)) as (Err & [Lo Hi] & Ex).
    destruct (ndigits_Z c) as (N1 & N2 & N3). specialize (N3 Hc).
    assert (HK : 10 ^ ndigits c = 10 ^ prec * 10 ^ k) by (rewrite <- Z.pow_add_r by (unfold k, prec in *; lia); f_equal; lia).
    assert (Hkp : 0 < 10 ^ k) by (apply Z.pow_pos_nonneg; lia).
    assert (Hup : Z.of_N c / 10 ^ k < 10 ^ prec) by (apply Z.div_lt_upper_bound; lia).
    assert (Hlow : 10 ^ (prec - 1) <= Z.of_N c / 10 ^ k).
    { apply Z.div_le_lower_bound; [lia|].
      replace (10 ^ k * 10 ^ (prec - 1)) with (10 ^ (ndigits c - 1)); [lia|].
      rewrite <- Z.pow_add_r by (unfold k, prec in *; lia). f_equal. unfold k. lia. }
    assert (Hp1 : 1 <= 10 ^ (prec - 1)) by (apply (Z.pow_le_mono_r 10 0); unfold prec; lia).
    set (c1 := drop_digits ROUND_HALF_EVEN c k) in *.
    assert (Hc1 : c1 <> 0%N) by lia.
    destruct (Z.ltb_spec prec (ndigits c1)) as [Hbig|Hsmall]; cbv iota.
    + assert (E1 : Z.of_N c1 = 10 ^ prec).
      { pose proof (ndigits_Z c1) as (_ & _ & M3). specialize (M3 Hc1).
        assert (10 ^ prec <= 10 ^ (ndigits c1 - 1)) by (apply Z.pow_le_mono_r; lia). lia. }
      replace (Etop <? Z.max (ndigits c + e - prec) Etiny + 1) with false
        by (symmetry; apply Z.ltb_ge; lia).
      exists (c1 / 10)%N, (Z.max (ndigits c + e - prec) Etiny + 1). split; [reflexivity|].
      split; [lia|]. split.
      * rewrite N2Z.inj_div, E1. change (Z.of_N 10) with 10.
        replace (Z.max (ndigits c + e - prec) Etiny + 1 - e) with (k + 1) by lia.
        replace (10 ^ prec / 10) with (10 ^ (prec - 1)) by (unfold prec; reflexivity).
        replace (10 ^ (prec - 1) * 10 ^ (k + 1)) with (10 ^ prec * 10 ^ k)
          by (rewrite <- !Z.pow_add_r by (unfold prec; lia); f_equal; lia).
        rewrite <- E1. exact Err.
      * split.
        -- intros E. apply (f_equal Z.of_N) in E. rewrite N2Z.inj_div, E1 in E.
           vm_compute in E. discriminate E.
        -- intros H0. rewrite N2Z.inj_div, E1. change (Z.of_N 10) with 10.
           replace (Z.max (ndigits c + e - prec) Etiny + 1 - e) with (k + 1) by lia.
           replace (10 ^ prec / 10) with (10 ^ (prec - 1)) by (unfold prec; reflexivity).
           replace (10 ^ (prec - 1) * 10 ^ (k + 1)) with (10 ^ prec * 10 ^ k)
             by (rewrite <- !Z.pow_add_r by (unfold prec; lia); f_equal; lia).
           rewrite <- E1. exact (Ex H0).
    + replace (Etop <? Z.max (ndigits c + e - prec) Etiny) with false
        by (symmetry; apply Z.ltb_ge; lia).
      exists c1, (Z.max (ndigits c + e - prec) Etiny). split; [reflexivity|].
      split; [lia|]. rewrite Hk. split; [exact Err|]. split; [exact Hc1|exact Ex].
  - exists c, e. split; [reflexivity|]. split; [lia|].
    rewrite Z.sub_diag, Z.mul_1_r, Z.sub_diag. split; [simpl; apply Z.pow_nonneg; lia|].
    split; [exact Hc | reflexivity].
Qed.

Lemma drop_half_up_gen c k L :
  1 <= k <= L ->
  Z.of_N (drop_digits ROUND_HALF_UP c k) = (Z.of_N c * 10 ^ (L - k) + 5 * 10 ^ (L - 1)) / 10 ^ L.
Proof.
  intros Hk. unfold drop_digits, round_up.
  set (m := (10 ^ Z.to_N k)%N).
  assert (Hm : Z.of_N m = 10 ^ k) by (unfold m; rewrite N2Z.inj_pow, Z2N.id by lia; reflexivity).
  assert (Hm0 : m <> 0%N) by (intros E; rewrite E in Hm; simpl in Hm;
                               pose proof (Z.pow_pos_nonneg 10 k); lia).
  pose proof (N.div_mod c m Hm0) as Hdm. pose proof (N.mod_lt c m Hm0) as Hr.
  set (q := (c / m)%N) in *. set (r := (c mod m)%N) in *.
  assert (HC : Z.of_N c = 10 ^ k * Z.of_N q + Z.of_N r) by (rewrite Hdm at 1; lia).
  assert (HR : Z.of_N r < 10 ^ k) by lia.
  assert (HMJ : 10 ^ k * 10 ^ (L - k) = 10 ^ L) by (rewrite <- Z.pow_add_r by lia; f_equal; lia).
  assert (HJ : 1 <= 10 ^ (L - k)) by (apply (Z.pow_le_mono_r 10 0); lia).
  assert (HM : 1 <= 10 ^ k) by (apply (Z.pow_le_mono_r 10 0); lia).
  assert (HT : 10 ^ L = 2 * (5 * 10 ^ (L - 1))).
  { replace L with (Z.succ (L - 1)) at 1 by lia. rewrite Z.pow_succ_r by lia. ring. }
  set (J := 10 ^ (L - k)) in *. set (M := 10 ^ k) in *.
  rewrite HT in *. set (F := 5 * 10 ^ (L - 1)) in *.
  set (Q := Z.of_N q) in *. set (R := Z.of_N r) in *.
  assert (Hr0 : 0 <= R) by (unfold R; lia).
  destruct (N.leb_spec m (2 * r)) as [Hle|Hgt].
  - assert (Hle' : M <= 2 * R) by (rewrite <- Hm; unfold R; lia).
    assert (H1 : M * J <= 2 * R * J) by (apply Z.mul_le_mono_nonneg_r; lia).
    assert (H2 : R * J < M * J) by (apply Z.mul_lt_mono_pos_r; lia).
    rewrite N2Z.inj_add. fold Q.
    apply (Z.div_unique _ _ _ (R * J + F - 2 * F)); [lia|].
    rewrite HC. replace (2 * F) with (M * J) by lia. ring.
  - assert (Hgt' : 2 * R + 1 <= M) by (rewrite <- Hm; unfold R; lia).
    assert (H1 : (2 * R + 1) * J <= M * J) by (apply Z.mul_le_mono_nonneg_r; lia).
    fold Q. apply (Z.div_unique _ _ _ (R * J + F)); [nia|].
    rewrite HC. replace (2 * F) with (M * J) by lia. ring.
Qed.

(** Rounding a non-zero value [d * 10^ed], seen in units of [10^B], to
    cents, half-up. *)
Lemma quantize_cents s d ed B :
  d <> 0%N -> B <= -3 -> B <= ed -> Z.of_N d * 10 ^ (ed - B) < 10 ^ (25 - B) ->
  exists c', quantize_money (Fin s d ed) = Ok (Fin s c' (-2)) /\
             Z.of_N c' = (Z.of_N d * 10 ^ (ed - B) + 5 * 10 ^ (-3 - B)) / 10 ^ (-2 - B).
Proof.
  intros Hd HB Hed Hv.
  unfold quantize_money, quantize, MONEY_QUANT. simpl check_nans. cbv iota.
  replace (negb ((Etiny <=? -2) && (-2 <=? Emax))) with false by reflexivity. cbv iota.
  replace (d =? 0)%N with false by (symmetry; apply N.eqb_neq; exact Hd).
  assert (HP : 0 < 10 ^ (ed - B)) by (apply Z.pow_pos_nonneg; lia).
  assert (He25 : ed <= 24).
  { destruct (Z.le_gt_cases ed 24) as [|Hx]; [assumption|].
    assert (10 ^ (25 - B) <= 10 ^ (ed - B)) by (apply Z.pow_le_mono_r; lia).
    pose proof (Z.mul_le_mono_nonneg_r 1 (Z.of_N d) (10 ^ (ed - B)) ltac:(lia) ltac:(lia)). lia. }
  assert (HEB : 10 ^ (25 - B) = 10 ^ (25 - ed) * 10 ^ (ed - B))
    by (rewrite <- Z.pow_add_r by lia; f_equal; lia).
  assert (Hlt : Z.of_N d < 10 ^ (25 - ed)).
  { apply (Z.mul_lt_mono_pos_r (10 ^ (ed - B))); [exact HP|]. rewrite <- HEB. exact Hv. }
  assert (Hnd : ndigits d <= 25 - ed) by (apply ndigits_le; lia).
  unfold adjusted, Emax, prec.
  replace (999999 <? ndigits d + ed - 1) with false by (symmetry; apply Z.ltb_ge; lia).
  replace (28 <? ndigits d + ed - 1 - -2 + 1) with false by (symmetry; apply Z.ltb_ge; lia).
  unfold rescale. replace (d =? 0)%N with false by (symmetry; apply N.eqb_neq; exact Hd).
  set (F := 5 * 10 ^ (-3 - B)). set (T := 10 ^ (-2 - B)).
  assert (HT : T = 2 * F).
  { unfold T, F. replace (-2 - B) with (Z.succ (-3 - B)) by lia. rewrite Z.pow_succ_r by lia. ring. }
  assert (HF : 0 < F) by (unfold F; pose proof (Z.pow_pos_nonneg 10 (-3 - B)); lia).
  assert (Hc' : exists c', (if -2 <=? ed then Fin s (d * 10 ^ Z.to_N (ed - -2)) (-2)
                            else Fin s (drop_digits ROUND_HALF_UP d (-2 - ed)) (-2)) = Fin s c' (-2)
                        /\ Z.of_N c' = (Z.of_N d * 10 ^ (ed - B) + F) / T).
  { destruct (Z.leb_spec (-2) ed) as [Hle|Hgt].
    - eexists. split; [reflexivity|].
      rewrite N2Z.inj_mul, N2Z.inj_pow, Z2N.id by lia.
      replace (ed - B) with ((ed - -2) + (-2 - B)) by lia. rewrite Z.pow_add_r by lia.
      fold T. change (Z.of_N 10) with 10. apply (Z.div_unique _ _ _ F); [lia | ring].
    - eexists. split; [reflexivity|]. rewrite (drop_half_up_gen d (-2 - ed) (-2 - B)) by lia.
      unfold F, T. replace (-2 - B - (-2 - ed)) with (ed - B) by lia.
      replace (-2 - B - 1) with (-3 - B) by lia. reflexivity. }
  destruct Hc' as (c' & -> & Hv').
  assert (HT27 : 10 ^ (25 - B) = 10 ^ 27 * T) by (unfold T; rewrite <- Z.pow_add_r by lia; f_equal; lia).
  assert (Hq : (Z.of_N d * 10 ^ (ed - B) + F) / T < 10 ^ 27 + 1).
  { apply Z.div_lt_upper_bound; [lia|]. lia. }
  assert (Hn' : ndigits c' <= 28) by (apply ndigits_le; lia).
  replace (999999 <? ndigits c' + -2 - 1) with false by (symmetry; apply Z.ltb_ge; lia).
  replace (28 <? ndigits c') with false by (symmetry; apply Z.ltb_ge; lia).
  rewrite fix_dec_cents by (unfold prec; lia).
  exists c'. split; [reflexivity | exact Hv'].
Qed.

(** The quotient is exact: the trailing zeros are stripped, then the
    result is rounded to 28 digits. *)
Lemma div_exact_branch s q n K :
  q <> 0%N -> Z.of_N q < 10 ^ 30 -> 1 <= n -> 5 <= K <= 4400 -> 50 * n < 5 * 10 ^ (K - 1) ->
  exists d ed,
    (let '(coeff, exp') := strip_zeros (Z.to_nat K) q (-2 - K) in fix_dec (Fin s coeff exp'))
      = Ok (Fin s d ed) /\ d <> 0%N /\ -2 - K <= ed /\
    Z.abs (Z.of_N d * 10 ^ (ed + 2 + K) * n - Z.of_N q * n) < 5 * 10 ^ (K - 1) /\
    Z.of_N d * 10 ^ (ed + 2 + K) < 10 ^ 31 /\
    (Z.of_N q mod 10 ^ (K - 1) = 0 -> Z.of_N d * 10 ^ (ed + 2 + K) = Z.of_N q).
Proof.
  intros Hq0 Hq30 Hn HK HH.
  pose proof (strip_zeros_spec (Z.to_nat K) q (-2 - K)) as Hs.
  destruct (strip_zeros (Z.to_nat K) q (-2 - K)) as [coeff e'] eqn:Es.
  destruct Hs as (Hs1 & Hs2 & Hs3). rewrite Z2Nat.id in Hs2 by lia.
  specialize (Hs3 Hq0).
  set (t := e' - (-2 - K)) in *.
  assert (Ht1 : 1 <= 10 ^ t) by (apply (Z.pow_le_mono_r 10 0); lia).
  assert (Hcq : Z.of_N coeff <= Z.of_N q).
  { rewrite <- Hs1. pose proof (Z.mul_le_mono_nonneg_l 1 (10 ^ t) (Z.of_N coeff)). lia. }
  assert (Hcd : ndigits coeff <= 30) by (apply ndigits_le; lia).
  destruct (fix_dec_round s coeff e' Hs3 ltac:(unfold Etiny, Emin, prec; lia)
              ltac:(unfold Etop, Emax, prec; lia)) as (d & ed & E & Hed & Herr & Hd0 & Hex).
  exists d, ed. split; [exact E|]. split; [exact Hd0|]. split; [lia|].
  unfold prec in Herr, Hex.
  destruct (ndigits_Z coeff) as (C1 & C2 & C3). specialize (C3 Hs3).
  set (W := Z.of_N d * 10 ^ (ed - e')) in *.
  assert (HV : Z.of_N d * 10 ^ (ed + 2 + K) = W * 10 ^ t)
    by (unfold W, t; rewrite <- Z.mul_assoc, <- Z.pow_add_r by lia; f_equal; f_equal; lia).
  rewrite HV.
  (* the size of [coeff] and the shift [t] *)
  assert (Hsize : 28 < ndigits coeff -> ndigits coeff - 1 + t < 30).
  { intros Hbig. assert (Hle : 10 ^ (ndigits coeff - 1) * 10 ^ t <= Z.of_N q)
      by (rewrite <- Hs1; apply Z.mul_le_mono_nonneg_r; lia).
    rewrite <- Z.pow_add_r in Hle by lia. apply pow10_lt_exp; lia. }
  (* the error of the rounding, in units of the quotient *)
  assert (Herr2 : 2 * Z.abs (W - Z.of_N coeff) * 10 ^ t <= 100 /\
                  (ndigits coeff <= 28 -> W = Z.of_N coeff)).
  { destruct (Z.le_gt_cases (ndigits coeff) 28) as [Hsm|Hbig].
    - assert (10 ^ (ndigits coeff - 28) <= 1) by (apply (Z.pow_le_mono_r 10 _ 0); lia).
      assert (W = Z.of_N coeff) by lia. split; [|intros; assumption].
      replace (W - Z.of_N coeff) with 0 by lia. simpl. lia.
    - split; [|lia]. specialize (Hsize Hbig).
      assert (Hm : 2 * Z.abs (W - Z.of_N coeff) * 10 ^ t <= 10 ^ (ndigits coeff - 28) * 10 ^ t)
        by (apply Z.mul_le_mono_nonneg_r; lia).
      rewrite <- Z.pow_add_r in Hm by lia.
      assert (10 ^ (ndigits coeff - 28 + t) <= 10 ^ 2) by (apply Z.pow_le_mono_r; lia).
      lia. }
  destruct Herr2 as (Herr2 & Hexact).
  assert (HVq : Z.abs (W * 10 ^ t - Z.of_N q) <= 50).
  { rewrite <- Hs1. replace (W * 10 ^ t - Z.of_N coeff * 10 ^ t) with ((W - Z.of_N coeff) * 10 ^ t) by ring.
    rewrite Z.abs_mul, (Z.abs_eq (10 ^ t)) by lia. lia. }
  split; [|split].
  - replace (W * 10 ^ t * n - Z.of_N q * n) with ((W * 10 ^ t - Z.of_N q) * n) by ring.
    rewrite Z.abs_mul, (Z.abs_eq n) by lia.
    assert (Z.abs (W * 10 ^ t - Z.of_N q) * n <= 50 * n) by (apply Z.mul_le_mono_nonneg_r; lia).
    lia.
  - lia.
  - intros HQm.
    destruct (Z.le_gt_cases (ndigits coeff) 28) as [Hsm|Hbig].
    + rewrite (Hexact Hsm). exact Hs1.
    + specialize (Hsize Hbig). set (j := ndigits coeff - 28) in *.
      apply Z.mod_divide in HQm; [|apply Z.pow_nonzero; lia].
      destruct HQm as (M & HM).
      assert (HKj : 10 ^ (K - 1) = 10 ^ (K - 1 - t - j) * 10 ^ j * 10 ^ t)
        by (rewrite <- !Z.pow_add_r by lia; f_equal; lia).
      assert (Hcm : Z.of_N coeff = M * 10 ^ (K - 1 - t - j) * 10 ^ j).
      { apply (Z.mul_cancel_r _ _ (10 ^ t)); [lia|]. rewrite Hs1, HM, HKj. ring. }
      assert (Hmod : Z.of_N coeff mod 10 ^ j = 0)
        by (rewrite Hcm; apply Z.mod_mul; apply Z.pow_nonzero; lia).
      rewrite (Hex Hmod). exact Hs1.
Qed.

(** The quotient is inexact: its last digit is made sticky, then the
    result is rounded to 28 digits. *)
Lemma div_inexact_branch s q r n K P :
  P = n * Z.of_N q + Z.of_N r -> 0 < Z.of_N r < n -> 10 ^ 28 <= Z.of_N q < 10 ^ 30 ->
  5 <= K <= 4400 -> 501 * n < 5 * 10 ^ (K - 1) ->
  exists d ed,
    fix_dec (Fin s (if (q mod 5 =? 0)%N then (q + 1)%N else q) (-2 - K)) = Ok (Fin s d ed) /\
    d <> 0%N /\ -2 - K <= ed /\
    Z.abs (Z.of_N d * 10 ^ (ed + 2 + K) * n - P) < 5 * 10 ^ (K - 1) /\
    Z.of_N d * 10 ^ (ed + 2 + K) < 10 ^ 31.
Proof.
  intros HPdm Hrb Hq HK HH.
  set (coeff := if (q mod 5 =? 0)%N then (q + 1)%N else q).
  assert (Hco : Z.of_N coeff = Z.of_N q \/ Z.of_N coeff = Z.of_N q + 1)
    by (unfold coeff; destruct (q mod 5 =? 0)%N; lia).
  assert (Hcn : coeff <> 0%N) by lia.
  assert (Hcd : ndigits coeff <= 31) by (apply ndigits_le; lia).
  destruct (fix_dec_round s coeff (-2 - K) Hcn ltac:(unfold Etiny, Emin, prec; lia)
              ltac:(unfold Etop, Emax, prec; lia)) as (d & ed & E & Hed & Herr & Hd0 & _).
  exists d, ed. split; [exact E|]. split; [exact Hd0|]. split; [lia|].
  replace (ed - (-2 - K)) with (ed + 2 + K) in Herr by lia.
  set (V := Z.of_N d * 10 ^ (ed + 2 + K)) in *.
  assert (10 ^ (ndigits coeff - prec) <= 10 ^ 3) by (apply Z.pow_le_mono_r; unfold prec; lia).
  assert (HVc : Z.abs (V - Z.of_N coeff) <= 500) by lia.
  split.
  - assert (E1 : Z.abs ((V - Z.of_N coeff) * n) <= 500 * n)
      by (rewrite Z.abs_mul, (Z.abs_eq n) by lia; apply Z.mul_le_mono_nonneg_r; lia).
    assert (E2 : Z.abs (Z.of_N coeff * n - P) < n) by (destruct Hco as [-> | ->]; lia).
    replace (V * n - P) with ((V - Z.of_N coeff) * n + (Z.of_N coeff * n - P)) by ring.
    pose proof (Z.abs_triangle ((V - Z.of_N coeff) * n) (Z.of_N coeff * n - P)). lia.
  - lia.
Qed.

Lemma div_by_servings s c n K :
  c <> 0%N -> ndigits c <= 25 -> 1 <= n -> ndigits (Z.abs_N n) <= 4300 ->
  K = ndigits (Z.abs_N n) - ndigits c + prec + 1 ->
  exists d ed, dec_div (Fin s c (-2)) (dec_of_Z n) = Ok (Fin s d ed) /\ d <> 0%N /\ -2 - K <= ed /\
    Z.abs (Z.of_N d * 10 ^ (ed + 2 + K) * n - Z.of_N c * 10 ^ K) < 5 * 10 ^ (K - 1) /\
    Z.of_N d * 10 ^ (ed + 2 + K) < 10 ^ 31 /\
    (forall Q, Z.of_N c * 10 ^ K = Q * n -> Q mod 10 ^ (K - 1) = 0 ->
               Z.of_N d * 10 ^ (ed + 2 + K) = Q).
Proof.
  intros Hc Ha Hn Hb HK.
  assert (HNn : Z.of_N (Z.abs_N n) = n) by (rewrite N2Z.inj_abs_N; lia).
  unfold dec_div, dec_of_Z.
  replace (n <? 0) with false by (symmetry; apply Z.ltb_ge; lia).
  simpl check_nans. cbv iota. simpl dsign. rewrite xorb_false_r.
  set (Nn := Z.abs_N n) in *.
  assert (HN0 : Nn <> 0%N) by (intros E; rewrite E in HNn; simpl in HNn; lia).
  replace (Nn =? 0)%N with false by (symmetry; apply N.eqb_neq; exact HN0).
  replace (c =? 0)%N with false by (symmetry; apply N.eqb_neq; exact Hc).
  rewrite <- HK. replace (-2 - 0 - K) with (-2 - K) by lia.
  destruct (ndigits_Z c) as (A1 & A2 & A3). specialize (A3 Hc).
  destruct (ndigits_Z Nn) as (B1 & B2 & B3). specialize (B3 HN0). rewrite HNn in B2, B3.
  set (a := ndigits c) in *. set (b := ndigits Nn) in *.
  unfold prec in HK.
  replace (0 <=? K) with true by (symmetry; apply Z.leb_le; lia).
  (* powers of ten *)
  set (Xb := 10 ^ (b - 1)) in *.
  assert (HXb : 10 ^ b = 10 * Xb)
    by (unfold Xb; replace b with (Z.succ (b - 1)) at 1 by lia; rewrite Z.pow_succ_r by lia; ring).
  rewrite HXb in B2.
  set (Aa := 10 ^ (a - 1)) in *.
  assert (HAa : 10 ^ a = 10 * Aa)
    by (unfold Aa; replace a with (Z.succ (a - 1)) at 1 by lia; rewrite Z.pow_succ_r by lia; ring).
  rewrite HAa in A2.
  set (Ya := 10 ^ (30 - a)).
  assert (HY : Aa * Ya = 10 ^ 29) by (unfold Aa, Ya; rewrite <- Z.pow_add_r by lia; f_equal; lia).
  assert (HKp : 10 ^ K = Xb * Ya) by (rewrite HK; unfold Xb, Ya; rewrite <- Z.pow_add_r by lia; f_equal; lia).
  assert (HXp : 0 < Xb) by (apply Z.pow_pos_nonneg; lia).
  assert (HYp : 0 < Ya) by (apply Z.pow_pos_nonneg; lia).
  assert (HH : 501 * n < 5 * 10 ^ (K - 1)).
  { assert (E : 10 ^ (K - 1) = Xb * 10 ^ (29 - a))
      by (rewrite HK; unfold Xb; rewrite <- Z.pow_add_r by lia; f_equal; lia).
    assert (10 ^ 4 <= 10 ^ (29 - a)) by (apply Z.pow_le_mono_r; lia).
    assert (Xb * 10 ^ 4 <= Xb * 10 ^ (29 - a)) by (apply Z.mul_le_mono_nonneg_l; lia).
    rewrite E. lia. }
  (* the integer division *)
  set (PN := (c * 10 ^ Z.to_N K)%N).
  assert (HP : Z.of_N PN = Z.of_N c * 10 ^ K)
    by (unfold PN; rewrite N2Z.inj_mul, N2Z.inj_pow, Z2N.id by lia; reflexivity).
  replace (N.div_eucl PN Nn) with ((PN / Nn)%N, (PN mod Nn)%N)
    by (unfold N.div, N.modulo; destruct (N.div_eucl PN Nn); reflexivity).
  set (q := (PN / Nn)%N). set (r := (PN mod Nn)%N).
  assert (Hq : Z.of_N q = Z.of_N c * 10 ^ K / n) by (unfold q; rewrite N2Z.inj_div, HP, HNn; reflexivity).
  assert (Hr : Z.of_N r = Z.of_N c * 10 ^ K mod n) by (unfold r; rewrite N2Z.inj_mod, HP, HNn; reflexivity).
  set (P := Z.of_N c * 10 ^ K) in *.
  assert (HPdm : P = n * Z.of_N q + Z.of_N r) by (rewrite Hq, Hr; apply Z.div_mod; lia).
  assert (Hrb : 0 <= Z.of_N r < n) by (rewrite Hr; apply Z.mod_pos_bound; lia).
  assert (HPlo : 10 ^ 29 * Xb <= P).
  { assert (Aa * (Xb * Ya) <= Z.of_N c * (Xb * Ya)) by (apply Z.mul_le_mono_nonneg_r; lia).
    unfold P. rewrite HKp. replace (10 ^ 29 * Xb) with (Aa * (Xb * Ya)) by (rewrite <- HY; ring). lia. }
  assert (HPhi : P < 10 ^ 30 * Xb).
  { assert (Z.of_N c * (Xb * Ya) < 10 * Aa * (Xb * Ya)) by (apply Z.mul_lt_mono_pos_r; lia).
    unfold P. rewrite HKp.
    replace (10 ^ 30 * Xb) with (10 * Aa * (Xb * Ya))
      by (transitivity (10 * (Aa * Ya) * Xb); [ring | rewrite HY; ring]). lia. }
  assert (Hq28 : 10 ^ 28 <= Z.of_N q) by (rewrite Hq; apply Z.div_le_lower_bound; lia).
  assert (Hq30 : Z.of_N q < 10 ^ 30) by (rewrite Hq; apply Z.div_lt_upper_bound; lia).
  assert (HK' : 5 <= K <= 4400) by lia.
  clearbody P. clear HPlo HPhi HKp HY HXb HAa A1 A2 A3 B1 B2 B3 Hq Hr HP.
  destruct (N.eqb_spec r 0) as [Hr0|Hr0]; cbv iota beta; simpl negb; cbv iota beta.
  - replace (Z.to_nat (-2 - 0 - (-2 - K))) with (Z.to_nat K) by (f_equal; lia).
    assert (HPq : P = Z.of_N q * n) by (rewrite HPdm, Hr0; ring).
    destruct (div_exact_branch s q n K ltac:(lia) Hq30 Hn HK' ltac:(lia))
      as (d & ed & E & Hd & Hed & Hcl & Hv & Hex).
    exists d, ed. split; [exact E|]. split; [exact Hd|]. split; [exact Hed|].
    rewrite HPq. split; [exact Hcl|]. split; [exact Hv|].
    intros Q HQ HQm. assert (HQq : Q = Z.of_N q) by (apply (Z.mul_cancel_r _ _ n); lia).
    subst Q. exact (Hex HQm).
  - assert (Hr1 : 0 < Z.of_N r) by lia.
    destruct (div_inexact_branch s q r n K P HPdm ltac:(lia) ltac:(lia) HK' HH)
      as (d & ed & E & Hd & Hed & Hcl & Hv).
    exists d, ed. split; [exact E|]. split; [exact Hd|]. split; [exact Hed|].
    split; [exact Hcl|]. split; [exact Hv|].
    intros Q HQ _. exfalso. apply Hr0. apply N2Z.inj.
    assert (Hm : P mod n = Z.of_N r).
    { symmetry. apply (Z.mod_unique _ _ (Z.of_N q)); [lia | rewrite HPdm; ring]. }
    rewrite <- Hm, HQ. apply Z.mod_mul. lia.
Qed.

Lemma half_up_of_close c n K V :
  1 <= n -> 1 <= K -> 0 <= c ->
  Z.abs (V * n - c * 10 ^ K) < 5 * 10 ^ (K - 1) ->
  (forall Q, c * 10 ^ K = Q * n -> Q mod 10 ^ (K - 1) = 0 -> V = Q) ->
  (V + 5 * 10 ^ (K - 1)) / 10 ^ K = (2 * c + n) / (2 * n).
Proof.
  intros Hn HK Hc Hclose Hexact.
  assert (HT : 10 ^ K = 2 * (5 * 10 ^ (K - 1))).
  { replace K with (Z.succ (K - 1)) at 1 by lia. rewrite Z.pow_succ_r by lia. ring. }
  assert (Hp : 0 < 10 ^ (K - 1)) by (apply Z.pow_pos_nonneg; lia).
  rewrite HT in *. set (H := 5 * 10 ^ (K - 1)) in *.
  assert (HH : 0 < H) by (unfold H; lia).
  pose proof (Z.div_mod (2 * c + n) (2 * n) ltac:(lia)) as Hdm.
  pose proof (Z.mod_pos_bound (2 * c + n) (2 * n) ltac:(lia)) as Hdb.
  set (m := (2 * c + n) / (2 * n)) in *. set (D := (2 * c + n) mod (2 * n)) in *.
  set (P := c * (2 * H)) in *.
  assert (HPH : P + H * n = 2 * H * n * m + H * D) by (unfold P; transitivity (H * (2 * c + n)); [ring | rewrite Hdm; ring]).
  (* both bounds, multiplied by n *)
  assert (Hlo : 2 * H * m * n <= (V + H) * n).
  { destruct (Z.eq_dec D 0) as [HD0|HD0].
    - assert (HQ : V = (2 * m - 1) * H).
      { apply Hexact.
        + unfold P in HPH. rewrite HD0 in HPH. lia.
        + unfold H. replace ((2 * m - 1) * (5 * 10 ^ (K - 1))) with ((2 * m - 1) * 5 * 10 ^ (K - 1)) by ring.
          apply Z.mod_mul. lia. }
      rewrite HQ. unfold P in HPH. rewrite HD0 in HPH. nia.
    - assert (H * 1 <= H * D) by (apply Z.mul_le_mono_nonneg_l; lia).
      assert (- H < V * n - P) by lia. nia. }
  assert (Hhi : (V + H) * n < 2 * H * (m + 1) * n).
  { assert (H * D <= H * (2 * n - 1)) by (apply Z.mul_le_mono_nonneg_l; lia).
    assert (V * n - P < H) by lia. nia. }
  apply Z.mul_le_mono_pos_r in Hlo; [|lia].
  apply Z.mul_lt_mono_pos_r in Hhi; [|lia].
  symmetry. apply (Z.div_unique _ _ _ (V + H - 2 * H * m)); [lia | ring].
Qed.

Lemma div_zero_by_servings s n :
  1 <= n -> dec_div (Fin s 0 (-2)) (dec_of_Z n) = Ok (Fin s 0 (-2)).
Proof.
  intros Hn. unfold dec_div, dec_of_Z.
  replace (n <? 0) with false by (symmetry; apply Z.ltb_ge; lia).
  simpl check_nans. cbv iota. simpl dsign. rewrite xorb_false_r.
  replace (Z.abs_N n =? 0)%N with false
    by (symmetry; apply N.eqb_neq; intros E; apply (f_equal Z.of_N) in E; rewrite N2Z.inj_abs_N in E; simpl in E; lia).
  reflexivity.
Qed.

(** A value below 10^-6 is rounded by [_fix] to one that the rounding to
    cents sends to zero. *)
Lemma fix_dec_tiny s c e :
  ndigits c + e <= -6 ->
  exists c' e', fix_dec (Fin s c e) = Ok (Fin s c' e') /\ e' <= -3 /\ 2 * Z.of_N c' < 10 ^ (-2 - e').
Proof.
  intros Hs. destruct (ndigits_Z c) as (N1 & N2 & N3).
  unfold fix_dec. destruct (N.eqb_spec c 0) as [->|Hc0].
  - change (ndigits 0) with 1 in Hs. eexists _, _. split; [reflexivity|].
    unfold Etiny, Emin, Emax, prec. split; [lia|].
    change (2 * Z.of_N 0) with 0. apply Z.pow_pos_nonneg; lia.
  - specialize (N3 Hc0).
    replace (Etop <? ndigits c + e - prec) with false
      by (symmetry; apply Z.ltb_ge; unfold Etop, Emax, prec; lia).
    assert (Hc : Z.of_N c < 10 ^ (-6 - e)).
    { assert (10 ^ ndigits c <= 10 ^ (-6 - e)) by (apply Z.pow_le_mono_r; lia). lia. }
    destruct (Z.ltb_spec e (Z.max (ndigits c + e - prec) Etiny)) as [Hlt|Hge].
    + set (x := Z.max (ndigits c + e - prec) Etiny) in *.
      assert (Hx : x <= -34) by (unfold x, Etiny, Emin, prec in *; lia).
      destruct (drop_half_even_err c (x - e) ltac:(lia)) as (_ & [_ Hi] & _).
      set (c1 := drop_digits ROUND_HALF_EVEN c (x - e)) in *.
      assert (Hq : Z.of_N c / 10 ^ (x - e) < 10 ^ (-6 - x)).
      { apply Z.div_lt_upper_bound; [apply Z.pow_pos_nonneg; lia|].
        rewrite <- Z.pow_add_r by lia. replace (x - e + (-6 - x)) with (-6 - e) by lia. exact Hc. }
      assert (Hc1 : 2 * Z.of_N c1 < 10 ^ (-2 - x)).
      { assert (E : 10 ^ (-2 - x) = 10 ^ 4 * 10 ^ (-6 - x)) by (rewrite <- Z.pow_add_r by lia; f_equal; lia).
        rewrite E. lia. }
      destruct (prec <? ndigits c1); cbv iota.
      * replace (Etop <? x + 1) with false by (symmetry; apply Z.ltb_ge; unfold Etop, Emax, prec; lia).
        eexists _, _. split; [reflexivity|]. split; [lia|].
        rewrite N2Z.inj_div. change (Z.of_N 10) with 10.
        assert (E : 10 ^ (-2 - x) = 10 * 10 ^ (-2 - (x + 1))) by (rewrite <- Z.pow_succ_r by lia; f_equal; lia).
        rewrite E in Hc1. assert (Z.of_N c1 / 10 * 10 <= Z.of_N c1) by (rewrite Z.mul_comm; apply Z.mul_div_le; lia).
        lia.
      * replace (Etop <? x) with false by (symmetry; apply Z.ltb_ge; unfold Etop, Emax, prec; lia).
        eexists _, _. split; [reflexivity|]. split; [lia | exact Hc1].
    + eexists _, _. split; [reflexivity|]. split; [lia|].
      assert (E : 10 ^ (-2 - e) = 10 ^ 4 * 10 ^ (-6 - e)) by (rewrite <- Z.pow_add_r by lia; f_equal; lia).
      rewrite E. lia.
Qed.

Lemma quantize_money_tiny s c e :
  e <= -3 -> 2 * Z.of_N c < 10 ^ (-2 - e) -> quantize_money (Fin s c e) = Ok (Fin s 0 (-2)).
Proof.
  intros He Hc. unfold quantize_money, quantize, MONEY_QUANT. simpl check_nans. cbv iota.
  replace (negb ((Etiny <=? -2) && (-2 <=? Emax))) with false by reflexivity. cbv iota.
  destruct (N.eqb_spec c 0) as [->|Hc0]; [destruct s; reflexivity|].
  assert (Hnd : ndigits c <= -2 - e) by (apply ndigits_le; lia).
  unfold adjusted, Emax, prec.
  replace (999999 <? ndigits c + e - 1) with false by (symmetry; apply Z.ltb_ge; lia).
  replace (28 <? ndigits c + e - 1 - -2 + 1) with false by (symmetry; apply Z.ltb_ge; lia).
  unfold rescale. replace (c =? 0)%N with false by (symmetry; apply N.eqb_neq; exact Hc0).
  replace (-2 <=? e) with false by (symmetry; apply Z.leb_gt; lia).
  replace (drop_digits ROUND_HALF_UP c (-2 - e)) with 0%N.
  - destruct s; reflexivity.
  - unfold drop_digits, round_up.
    assert (Hm : Z.of_N (10 ^ Z.to_N (-2 - e)) = 10 ^ (-2 - e))
      by (rewrite N2Z.inj_pow, Z2N.id by lia; reflexivity).
    assert (Hq : (c / 10 ^ Z.to_N (-2 - e))%N = 0%N).
    { apply N2Z.inj. rewrite N2Z.inj_div, Hm. apply Z.div_small. lia. }
    assert (Hr : (c mod 10 ^ Z.to_N (-2 - e))%N = c).
    { apply N2Z.inj. rewrite N2Z.inj_mod, Hm. apply Z.mod_small. lia. }
    rewrite Hq, Hr. replace (10 ^ Z.to_N (-2 - e) <=? 2 * c)%N with false; [reflexivity|].
    symmetry. apply N.leb_gt. lia.
Qed.

(** Dividing a cost of at most 25 digits by a number of servings of more
    than 30 digits: a quotient below 10^-6 before the final [_fix]. *)
Lemma div_huge s c n :
  c <> 0%N -> Z.of_N c < 10 ^ 25 -> 10 ^ 30 <= n ->
  exists c' e', dec_div (Fin s c (-2)) (dec_of_Z n) = fix_dec (Fin s c' e') /\ ndigits c' + e' <= -6.
Proof.
  intros Hc Hc25 Hn.
  assert (HNn : Z.of_N (Z.abs_N n) = n) by (rewrite N2Z.inj_abs_N; lia).
  unfold dec_div, dec_of_Z.
  replace (n <? 0) with false by (symmetry; apply Z.ltb_ge; lia).
  simpl check_nans. cbv iota. simpl dsign. rewrite xorb_false_r.
  set (Nn := Z.abs_N n) in *.
  assert (HN0 : Nn <> 0%N) by (intros E; rewrite E in HNn; simpl in HNn; lia).
  replace (Nn =? 0)%N with false by (symmetry; apply N.eqb_neq; exact HN0).
  replace (c =? 0)%N with false by (symmetry; apply N.eqb_neq; exact Hc).
  destruct (ndigits_Z c) as (A1 & A2 & A3). specialize (A3 Hc).
  destruct (ndigits_Z Nn) as (B1 & B2 & B3). specialize (B3 HN0). rewrite HNn in B2, B3.
  assert (Ha : ndigits c <= 25) by (apply ndigits_le; lia).
  assert (Hb : 31 <= ndigits Nn) by (apply ndigits_ge; [lia | rewrite HNn; exact Hn]).
  set (a := ndigits c) in *. set (b := ndigits Nn) in *. unfold prec.
  set (K := b - a + 28 + 1).
  replace (0 <=? K) with true by (symmetry; apply Z.leb_le; unfold K; lia).
  set (PN := (c * 10 ^ Z.to_N K)%N).
  assert (HP : Z.of_N PN = Z.of_N c * 10 ^ K)
    by (unfold PN; rewrite N2Z.inj_mul, N2Z.inj_pow, Z2N.id by (unfold K; lia); reflexivity).
  replace (N.div_eucl PN Nn) with ((PN / Nn)%N, (PN mod Nn)%N)
    by (unfold N.div, N.modulo; destruct (N.div_eucl PN Nn); reflexivity).
  set (q := (PN / Nn)%N). set (r := (PN mod Nn)%N).
  assert (Hq : Z.of_N q = Z.of_N c * 10 ^ K / n) by (unfold q; rewrite N2Z.inj_div, HP, HNn; reflexivity).
  assert (HXb : 10 ^ (K + a) = 10 ^ 30 * 10 ^ (b - 1))
    by (rewrite <- Z.pow_add_r by (unfold K; lia); f_equal; unfold K; lia).
  assert (Hq30 : Z.of_N q < 10 ^ 30).
  { rewrite Hq. apply Z.div_lt_upper_bound; [lia|].
    assert (Z.of_N c * 10 ^ K < 10 ^ a * 10 ^ K)
      by (apply Z.mul_lt_mono_pos_r; [apply Z.pow_pos_nonneg; unfold K; lia | lia]).
    rewrite <- Z.pow_add_r in H by (unfold K; lia). rewrite Z.add_comm in H. rewrite HXb in H.
    assert (10 ^ 30 * 10 ^ (b - 1) <= 10 ^ 30 * n) by (apply Z.mul_le_mono_nonneg_l; lia). lia. }
  destruct (N.eqb_spec r 0) as [Hr0|Hr0]; cbv iota beta; simpl negb; cbv iota beta.
  - pose proof (strip_zeros_spec (Z.to_nat (-2 - 0 - (-2 - 0 - K))) q (-2 - 0 - K)) as Hs.
    destruct (strip_zeros (Z.to_nat (-2 - 0 - (-2 - 0 - K))) q (-2 - 0 - K)) as [coeff e'].
    destruct Hs as (Hs1 & Hs2 & Hs3).
    assert (Hq0 : q <> 0%N).
    { intros E. assert (Hz : Z.of_N PN = Z.of_N Nn * Z.of_N q + Z.of_N r)
        by (rewrite <- N2Z.inj_mul, <- N2Z.inj_add; f_equal; apply N.div_mod; exact HN0).
      rewrite E, Hr0, HP, HNn in Hz.
      assert (1 * 10 ^ K <= Z.of_N c * 10 ^ K) by (apply Z.mul_le_mono_nonneg_r; [apply Z.pow_nonneg | ]; lia).
      assert (10 ^ 30 <= 10 ^ K) by (apply Z.pow_le_mono_r; unfold K; lia). lia. }
    specialize (Hs3 Hq0).
    exists coeff, e'. split; [reflexivity|].
    rewrite Z2Nat.id in Hs2 by (unfold K; lia).
    set (d := e' - (-2 - 0 - K)) in *.
    assert (Hd : d < 30).
    { destruct (Z.lt_ge_cases d 30) as [|Hd]; [assumption|].
      assert (10 ^ 30 <= 10 ^ d) by (apply Z.pow_le_mono_r; lia).
      assert (1 * 10 ^ d <= Z.of_N coeff * 10 ^ d) by (apply Z.mul_le_mono_nonneg_r; [apply Z.pow_nonneg | ]; lia).
      lia. }
    assert (Hlt : Z.of_N coeff < 10 ^ (30 - d)).
    { assert (Hp : 10 ^ 30 = 10 ^ (30 - d) * 10 ^ d)
        by (rewrite <- Z.pow_add_r by lia; f_equal; lia).
      rewrite Hp in Hq30. rewrite <- Hs1 in Hq30.
      apply (Z.mul_lt_mono_pos_r (10 ^ d)); [apply Z.pow_pos_nonneg; lia | exact Hq30]. }
    assert (ndigits coeff <= 30 - d) by (apply ndigits_le; [lia | exact Hlt]).
    unfold d, K in *. lia.
  - eexists _, _. split; [reflexivity|].
    assert (Hco : Z.of_N (if (q mod 5 =? 0)%N then (q + 1)%N else q) < 10 ^ 31)
      by (destruct (q mod 5 =? 0)%N; lia).
    assert (ndigits (if (q mod 5 =? 0)%N then (q + 1)%N else q) <= 31) by (apply ndigits_le; lia).
    unfold K. lia.
Qed.

(** Claim C2 (amended): [calculate_cost_per_serving] raises ValueError,
    the exception class of the other validation errors (there is no
    distinct InvalidServings error), when [servings <= 0]; when
    [servings >= 1] and the total cost is below 10^23 in absolute value,
    it returns the total cost divided by servings, rounded to two decimals
    half-up (ties away from zero), whatever the size of servings. *)
Theorem cost_per_serving_rounded (r : Recipe) :
  (servings r <= 0 -> calculate_cost_per_serving r = Err ValueError) /\
  (forall s c, 1 <= servings r ->
     calculate_total_cost r = Ok (Fin s c (-2)) -> Z.of_N c < 10 ^ 25 ->
     exists s' c', calculate_cost_per_serving r = Ok (Fin s' c' (-2)) /\
                   signed s' c' = round_div_half_up (signed s c) (servings r)).
Proof.
  split.
  - intros H. unfold calculate_cost_per_serving.
    replace (servings r <=? 0) with true by (symmetry; apply Z.leb_le; lia). reflexivity.
  - intros s c Hn Ht Hc.
    unfold calculate_cost_per_serving.
    replace (servings r <=? 0) with false by (symmetry; apply Z.leb_gt; lia).
    rewrite Ht. simpl bind. set (n := servings r) in *.
    destruct (N.eq_dec c 0) as [->|Hc0].
    + rewrite div_zero_by_servings by lia. simpl bind.
      exists s, 0%N. split; [destruct s; reflexivity|].
      rewrite signed_zero. unfold round_div_half_up. change (0 <? 0) with false. cbv iota. rewrite Z.mul_0_r, Z.add_0_l.
      rewrite Z.div_small by lia. reflexivity.
    + destruct (Z.lt_ge_cases n (10 ^ 30)) as [Hn'|Hbig].
      2:{ destruct (div_huge s c n Hc0 Hc Hbig) as (c1 & e1 & E & Hs).
          rewrite E. destruct (fix_dec_tiny s c1 e1 Hs) as (c2 & e2 & E2 & He2 & Hc2).
          rewrite E2. simpl bind. rewrite quantize_money_tiny by assumption.
          exists s, 0%N. split; [reflexivity|].
          rewrite signed_zero. unfold round_div_half_up. rewrite !signed_as_if.
          destruct s; [replace (- Z.of_N c <? 0) with true by (symmetry; apply Z.ltb_lt; lia);
                       rewrite Z.opp_involutive|
                       replace (Z.of_N c <? 0) with false by (symmetry; apply Z.ltb_ge; lia)];
            rewrite Z.div_small by lia; reflexivity. }
      assert (Hb : ndigits (Z.abs_N n) <= 4300).
      { assert (ndigits (Z.abs_N n) <= 30); [|lia].
        apply ndigits_le; [lia|]. rewrite N2Z.inj_abs_N, Z.abs_eq; lia. }
      clear Hn'.
      assert (Hnd : ndigits c <= 25) by (apply ndigits_le; lia).
      set (K := ndigits (Z.abs_N n) - ndigits c + prec + 1).
      assert (HK : 5 <= K) by (destruct (ndigits_Z (Z.abs_N n)) as (HB & _); unfold K, prec; lia).
      destruct (div_by_servings s c n K Hc0 Hnd Hn Hb eq_refl)
        as (d & ed & E & Hd & Hed & Hcl & Hv & Hex).
      rewrite E. simpl bind.
      assert (Hv' : Z.of_N d * 10 ^ (ed - (-2 - K)) < 10 ^ (25 - (-2 - K))).
      { replace (ed - (-2 - K)) with (ed + 2 + K) by lia.
        assert (10 ^ 31 <= 10 ^ (25 - (-2 - K))) by (apply Z.pow_le_mono_r; lia). lia. }
      destruct (quantize_cents s d ed (-2 - K) Hd ltac:(lia) ltac:(lia) Hv') as (c' & Eq & Hc').
      rewrite Eq. exists s, c'. split; [reflexivity|].
      replace (ed - (-2 - K)) with (ed + 2 + K) in Hc' by lia.
      replace (-3 - (-2 - K)) with (K - 1) in Hc' by lia.
      replace (-2 - (-2 - K)) with K in Hc' by lia.
      rewrite (half_up_of_close (Z.of_N c) n K _ ltac:(lia) ltac:(lia) ltac:(lia) Hcl Hex) in Hc'.
      unfold round_div_half_up. rewrite !signed_as_if. destruct s.
      * replace (- Z.of_N c <? 0) with true by (symmetry; apply Z.ltb_lt; lia).
        rewrite Z.opp_involutive, Hc'. reflexivity.
      * replace (Z.of_N c <? 0) with false by (symmetry; apply Z.ltb_ge; lia).
        exact Hc'.
Qed.

(** Claim C2, counterexample: a valid recipe whose total is
    99999999999999999999999999.97, over two servings; the quotient
    49999999999999999999999999.985 is first rounded by the division to 28
    digits (half-even, to 49999999999999999999999999.98), so the result is
    49999999999999999999999999.98 instead of the exact quotient rounded
    half-up, 49999999999999999999999999.99. *)
Lemma cost_per_serving_rounded_counterexample :
  Forall ingredient_ok (ingredients shared_bottle) /\
  calculate_total_cost shared_bottle = Ok (Fin false 9999999999999999999999999997 (-2)) /\
  calculate_cost_per_serving shared_bottle = Ok (Fin false 4999999999999999999999999998 (-2)) /\
  round_div_half_up 9999999999999999999999999997 2 = 4999999999999999999999999999.
Proof.
  split; [apply Forall_cons; [vm_compute; reflexivity | apply Forall_nil]|].
  split; [|split]; vm_compute; reflexivity.
Qed.

Lemma cost_per_serving_rounded_witness :
  calculate_cost_per_serving (mkRecipe (PStr "G&T") (ingredients gin_tonic) 0) = Err ValueError /\
  calculate_cost_per_serving (mkRecipe (PStr "G&T") (ingredients gin_tonic) 2) = Ok (Fin false 88 (-2)) /\
  round_div_half_up 175 2 = 88 /\
  calculate_cost_per_serving (mkRecipe (PStr "G&T") (ingredients gin_tonic) (10 ^ 30)) = Ok (Fin false 0 (-2)) /\
  round_div_half_up 175 (10 ^ 30) = 0.
Proof.
  split; [apply (proj1 (cost_per_serving_rounded (mkRecipe (PStr "G&T") (ingredients gin_tonic) 0))); simpl; lia|].
  destruct (proj2 (cost_per_serving_rounded (mkRecipe (PStr "G&T") (ingredients gin_tonic) 2)) false 175%N)
    as (s & c & E & V).
  - simpl; lia.
  - vm_compute. reflexivity.
  - lia.
  - destruct (proj2 (cost_per_serving_rounded (mkRecipe (PStr "G&T") (ingredients gin_tonic) (10 ^ 30))) false 175%N)
      as (s' & c' & E' & V').
    + simpl. apply Z.leb_le. vm_compute. reflexivity.
    + vm_compute. reflexivity.
    + lia.
    + vm_compute in E. injection E as <- <-. vm_compute in E'. injection E' as <- <-.
      split; [reflexivity|]. split; [exact V|]. split; [reflexivity|]. exact V'.
Defined.

(** * The table operations of the dialog *)

(** ** Whitespace: [str.strip] *)

Lemma lstrip_head s : head_nonspace (lstrip s).
Proof.
  induction s as [|c s IH]; simpl; [exact I|].
  destruct (is_space c) eqn:E; [exact IH | exact E].
Qed.

Lemma lstrip_fixed s : head_nonspace s -> lstrip s = s.
Proof. destruct s as [|c s]; simpl; [reflexivity|]. now intros ->. Qed.

Lemma lstrip_suffix s : exists w, s = (w ++ lstrip s)%string.
Proof.
  induction s as [|c s (w & Hw)]; simpl; [now exists EmptyString|].
  destruct (is_space c); [exists (String c w); simpl; now f_equal | now exists EmptyString].
Qed.

Lemma app_last_char (w z y : string) c :
  (w ++ z)%string = (y ++ String c EmptyString)%string -> z <> EmptyString ->
  exists z', z = (z' ++ String c EmptyString)%string.
Proof.
  revert y. induction w as [|d w IH]; simpl; intros y H Hz.
  - now exists y.
  - destruct y as [|d' y]; simpl in H.
    + injection H as -> Hw. destruct w; simpl in Hw; [congruence | discriminate].
    + injection H as _ Hw. exact (IH y Hw Hz).
Qed.

Lemma strip_head s : head_nonspace (strip s).
Proof.
  unfold strip. pose proof (lstrip_head s) as H.
  destruct (lstrip s) as [|c r] eqn:E; [simpl; exact I|].
  simpl in H |- *. set (b := (rev_string r ++ String c EmptyString)%string).
  destruct (lstrip_suffix b) as (w & Hw).
  destruct (lstrip b) as [|d z] eqn:Ez; [simpl; exact I|].
  destruct (app_last_char w (String d z) (rev_string r) c (eq_sym Hw)) as (z' & Hz');
    [discriminate|].
  rewrite Hz', rev_string_app. simpl. exact H.
Qed.

Lemma lstrip_idem s : lstrip (lstrip s) = lstrip s.
Proof. apply lstrip_fixed, lstrip_head. Qed.

Lemma strip_idem s : strip (strip s) = strip s.
Proof.
  unfold strip at 1. rewrite (lstrip_fixed (strip s) (strip_head s)).
  unfold strip. rewrite rev_string_involutive, lstrip_idem. reflexivity.
Qed.

Lemma is_blank_strip s : is_blank (strip s) = is_blank s.
Proof. unfold is_blank. now rewrite strip_idem. Qed.

(** A string with a character that is not blank is not blank. *)
Lemma lstrip_not_all_space s : all_chars is_space s = false -> all_chars is_space (lstrip s) = false.
Proof.
  induction s as [|c s IH]; simpl; [discriminate|].
  destruct (is_space c) eqn:E; simpl; [auto | now rewrite E].
Qed.

Lemma not_blank_of_nonspace s : all_chars is_space s = false -> is_blank s = false.
Proof.
  intros H. unfold is_blank, strip.
  apply lstrip_not_all_space in H. rewrite <- all_chars_rev in H.
  apply lstrip_not_all_space in H. rewrite <- all_chars_rev in H.
  destruct (rev_string _); [discriminate | reflexivity].
Qed.

Lemma digit_not_space d : is_digit d = true -> is_space d = false.
Proof.
  intros H. pose proof (digit_plain d H) as P. unfold plain_char in P.
  destruct (is_space d); [discriminate | reflexivity].
Qed.

Lemma dec_to_string_not_blank d : is_blank (dec_to_string d) = false.
Proof.
  apply not_blank_of_nonspace.
  destruct d as [s c e|s|s p|s p].
  - destruct (dec_to_string_fin s c e) as (body & -> & _ & (d & r & -> & Hd) & _).
    rewrite all_chars_app. simpl. rewrite (digit_not_space d Hd).
    destruct s; reflexivity.
  - destruct s; reflexivity.
  - destruct s; reflexivity.
  - destruct s; reflexivity.
Qed.

Lemma text_or_empty t : text_or t "" = EmptyString -> is_blank t = true.
Proof.
  destruct t as [|c t]; [reflexivity|]. unfold text_or, is_blank. now intros ->.
Qed.

Lemma text_or_nonempty t : is_blank t = false -> text_or t "" <> EmptyString.
Proof. intros H E. apply text_or_empty in E. congruence. Qed.

(** [check_name] on a stripped [str]. *)
Lemma check_name_strip nm :
  check_name (PStr (strip nm)) = if is_blank nm then Err ValueError else Ok (strip nm).
Proof.
  unfold check_name. rewrite is_blank_strip. unfold is_blank at 2.
  destruct (strip nm) eqn:E; simpl; [reflexivity|].
  unfold is_blank. rewrite E. reflexivity.
Qed.

(** ** The recipe read from the table *)

Lemma get_recipe_row_blank rw : is_blank (t_name rw) = true -> get_recipe_row rw = None.
Proof. unfold get_recipe_row. now intros ->. Qed.

Lemma get_recipe_row_named rw : is_blank (t_name rw) = false -> get_recipe_row rw <> None.
Proof. unfold get_recipe_row. now intros ->. Qed.

Lemma get_recipe_ok nm rows r :
  get_recipe nm rows = Ok r ->
  exists is, get_ingredients rows = Ok is /\ r = mkRecipe (PStr (strip nm)) is 1.
Proof.
  unfold get_recipe. destruct (get_ingredients rows) as [is|e]; simpl; [|discriminate].
  intros H. injection H as <-. now exists is.
Qed.

(** The row loop reads nothing of a row with a blank name. *)
Theorem get_recipe_skips_blank_rows (nm : string) (rows : list row_texts) :
  get_recipe nm rows = get_recipe nm (filter named rows).
Proof.
  unfold get_recipe. f_equal.
  induction rows as [|rw rows IH]; [reflexivity|]. simpl. unfold named at 1.
  destruct (is_blank (t_name rw)) eqn:B; simpl.
  - now rewrite get_recipe_row_blank.
  - destruct (get_recipe_row rw) as [[i|e]|] eqn:Er; simpl; try reflexivity.
    + now rewrite IH.
    + exfalso. exact (get_recipe_row_named rw B Er).
Qed.

(** The rows are read in order: the rows of [a ++ b] give the ingredients
    of [a] then those of [b], and the first row that raises decides the
    error. *)
Theorem get_ingredients_app (a b : list row_texts) :
  get_ingredients (a ++ b)%list =
  (x <- get_ingredients a ;; y <- get_ingredients b ;; Ok (x ++ y)%list).
Proof.
  induction a as [|rw a IH]; simpl.
  - destruct (get_ingredients b); reflexivity.
  - destruct (get_recipe_row rw) as [[i|e]|]; simpl; [|reflexivity|exact IH].
    rewrite IH. destruct (get_ingredients a); simpl; [|reflexivity].
    destruct (get_ingredients b); reflexivity.
Qed.

Lemma check_name_str n s : check_name (PStr n) = Ok s -> s = n.
Proof.
  unfold check_name. destruct (negb (truthy (PStr n))); [discriminate|].
  destruct (is_blank n); congruence.
Qed.

Lemma Ingredient_new_ok n q u p i :
  Ingredient_new (PStr n) (PDec q) u (PDec p) = Ok i ->
  ingredient_ok i /\ name i = n /\ quantity i = q /\ unit i = u /\ price_per_unit i = p.
Proof.
  intros H. pose proof H as H0. unfold Ingredient_new in H. cbn [normalize_number bind] in H.
  destruct (check_name (PStr n)) as [s|e] eqn:Hc; cbn [bind] in H; [|discriminate].
  apply check_name_str in Hc. subst s.
  destruct (le_zero (PDec q)) as [[|]|]; cbn [bind] in H; try discriminate.
  destruct (lt_zero (PDec p)) as [[|]|]; cbn [bind] in H; try discriminate.
  injection H as <-. unfold ingredient_ok. simpl. repeat split; try reflexivity.
  exact H0.
Qed.

Lemma ingredient_ok_name i : ingredient_ok i -> is_blank (name i) = false.
Proof.
  unfold ingredient_ok, Ingredient_new. cbn [normalize_number bind].
  unfold check_name. destruct (negb (truthy (PStr (name i)))); [discriminate|].
  destruct (is_blank (name i)); [discriminate | reflexivity].
Qed.

Lemma get_recipe_row_some rw i :
  get_recipe_row rw = Some (Ok i) ->
  ingredient_ok i /\ name i = strip (t_name rw) /\ unit i = PStr (strip (t_unit rw)).
Proof.
  unfold get_recipe_row. destruct (is_blank (t_name rw)); [discriminate|].
  destruct (parse_decimal (or_text (t_qty rw) "0")) as [q|e]; simpl; [|discriminate].
  set (rp := if is_blank (t_row_price rw) then None else _).
  destruct (match rp with Some _ => dec_gt q dzero | None => Ok false end) as [b|e]; simpl;
    [|discriminate].
  destruct (match rp with
            | Some rp0 => if b then dec_div rp0 q else parse_decimal (or_text (t_ppu rw) "0")
            | None => parse_decimal (or_text (t_ppu rw) "0")
            end) as [p|e]; simpl; [|discriminate].
  intros H. injection H as H. apply Ingredient_new_ok in H as (Hok & Hn & _ & Hu & _).
  auto.
Qed.

(** What [get_recipe] builds: the stripped cocktail name, one serving,
    and one ingredient per row with a non-blank name, in the order of
    the rows, named by the stripped name cell and with the stripped unit
    cell; every ingredient passes the checks of [Ingredient]: a non-blank
    name, a quantity above zero, a price that is not a NaN and not below
    zero. *)
Theorem get_recipe_result (nm : string) (rows : list row_texts) (r : Recipe) :
  get_recipe nm rows = Ok r ->
  rname r = PStr (strip nm) /\ servings r = 1 /\
  map (fun i => (name i, unit i)) (ingredients r) =
    map (fun rw => (strip (t_name rw), PStr (strip (t_unit rw)))) (filter named rows) /\
  Forall (fun i => ingredient_ok i /\ is_blank (name i) = false /\
                   cmp_dec (quantity i) dzero = Gt /\
                   is_nan (price_per_unit i) = false /\ cmp_dec (price_per_unit i) dzero <> Lt)
         (ingredients r).
Proof.
  intros H. apply get_recipe_ok in H as (is & Hg & ->). simpl.
  split; [reflexivity|]. split; [reflexivity|].
  revert is Hg. induction rows as [|rw rows IH]; simpl; intros is Hg.
  - injection Hg as <-. split; [reflexivity | constructor].
  - unfold named at 1. destruct (is_blank (t_name rw)) eqn:B; simpl.
    + rewrite get_recipe_row_blank in Hg by exact B. exact (IH is Hg).
    + destruct (get_recipe_row rw) as [[i|e]|] eqn:Er; simpl in Hg;
        [| discriminate | exfalso; exact (get_recipe_row_named rw B Er)].
      destruct (get_ingredients rows) as [is'|e]; simpl in Hg; [|discriminate].
      injection Hg as <-. destruct (IH is' eq_refl) as (Hm & Hf).
      destruct (get_recipe_row_some rw i Er) as (Hok & Hn & Hu).
      simpl. rewrite Hm, Hn, Hu. split; [reflexivity|].
      constructor; [|exact Hf].
      destruct (ingredient_ok_cmp i Hok) as (_ & Cq & Np & Cp).
      repeat split; auto. exact (ingredient_ok_name i Hok).
Qed.

(** The dialog's [validate] and [accept]: the rows are read first (the
    first failing named row decides the error), then the cocktail name is
    checked; a table without any ingredient passes. *)
Theorem dialog_validate_accept (nm : string) (rows : list row_texts) :
  dialog_validate nm rows =
    (is <- get_ingredients rows ;; if is_blank nm then Err ValueError else Ok tt) /\
  (accept nm rows = Accepted <->
   is_blank nm = false /\ exists is, get_ingredients rows = Ok is).
Proof.
  assert (E : (recipe <- get_recipe nm rows ;; Recipe_validate recipe) =
              (is <- get_ingredients rows ;; if is_blank nm then Err ValueError else Ok tt)).
  { unfold get_recipe. destruct (get_ingredients rows) as [is|e]; simpl; [|reflexivity].
    unfold Recipe_validate. simpl. rewrite check_name_strip.
    destruct (is_blank nm); reflexivity. }
  split; [exact E|].
  unfold accept. rewrite E.
  destruct (get_ingredients rows) as [is|e]; cbn [bind].
  - destruct (is_blank nm).
    + split; [discriminate | intros [H _]; discriminate].
    + split; [intros _; split; [reflexivity | now exists is] | reflexivity].
  - split; [discriminate | intros [_ [is H]]; discriminate].
Qed.

(** A named row whose quantity cell does not read as a decimal makes
    [get_recipe] raise ValueError ([_parse_decimal]), when the rows before
    it read. *)
Theorem get_recipe_bad_quantity (nm : string) (a b : list row_texts) (rw : row_texts) (is : list Ingredient) :
  get_ingredients a = Ok is ->
  is_blank (t_name rw) = false ->
  (exists e, dec_of_string (strip (or_text (t_qty rw) "0")) = Err e) ->
  get_recipe nm (a ++ rw :: b)%list = Err ValueError.
Proof.
  intros Ha Hn (e & He). unfold get_recipe. rewrite get_ingredients_app, Ha. simpl.
  unfold get_recipe_row. rewrite Hn. unfold parse_decimal. rewrite He. reflexivity.
Qed.

(** ** One serving *)

Lemma fix_nan_idem x : fix_nan (fix_nan x) = fix_nan x.
Proof.
  assert (K : forall p, (prec <? ndigits (p mod 10 ^ Z.to_N prec)) = false).
  { intros p. apply Z.ltb_ge. apply ndigits_le; [unfold prec; lia|].
    assert (H : (p mod 10 ^ Z.to_N prec < 10 ^ Z.to_N prec)%N)
      by (apply N.mod_lt; unfold prec; discriminate).
    apply N2Z.inj_lt in H. rewrite N2Z.inj_pow, Z2N.id in H by (unfold prec; lia). exact H. }
  destruct x as [s c e|s|s p|s p]; simpl; try reflexivity.
  - destruct (prec <? ndigits p) eqn:E; simpl; [now rewrite K | now rewrite E].
  - destruct (prec <? ndigits p) eqn:E; simpl; [now rewrite K | now rewrite E].
Qed.

Lemma rescale_fin s c e te mode : exists c', rescale s c e te mode = Fin s c' te.
Proof.
  unfold rescale. destruct (c =? 0)%N; [now eexists|].
  destruct (te <=? e); now eexists.
Qed.

(** What [_quantize_money] returns: two decimal places, or a quiet NaN. *)
Lemma quantize_money_out t x :
  quantize_money t = Ok x ->
  (exists s c, x = Fin s c (-2) /\ ndigits c <= prec) \/
  (exists s p, x = NaN s p /\ fix_nan x = x).
Proof.
  unfold quantize_money, quantize, MONEY_QUANT.
  destruct t as [s c e|s|s p|s p]; simpl check_nans; cbv iota; try discriminate.
  - replace (negb ((Etiny <=? -2) && (-2 <=? Emax))) with false by reflexivity. cbv iota.
    destruct (c =? 0)%N.
    + simpl. intros H. injection H as <-. left. exists s, 0%N. split; [reflexivity|].
      change (ndigits 0) with 1. unfold prec. lia.
    + destruct (Emax <? adjusted c e); [discriminate|].
      destruct (prec <? adjusted c e - -2 + 1); [discriminate|].
      destruct (rescale_fin s c e (-2) ROUND_HALF_UP) as (c' & ->).
      destruct (Emax <? adjusted c' (-2)); [discriminate|].
      destruct (prec <? ndigits c') eqn:E; [discriminate|].
      apply Z.ltb_ge in E. rewrite fix_dec_cents by exact E.
      intros H. injection H as <-. left. now exists s, c'.
  - intros H. injection H as H. change (fix_nan (NaN s p) = x) in H. subst x. right.
    assert (E : exists p', fix_nan (NaN s p) = NaN s p')
      by (simpl; destruct (prec <? ndigits p); eexists; reflexivity).
    destruct E as (p' & E). exists s, p'. rewrite <- E. split; [reflexivity | apply fix_nan_idem].
Qed.

Lemma strip_zeros_pow c n : forall e,
  strip_zeros n (c * 10 ^ N.of_nat n) e = (c, e + Z.of_nat n).
Proof.
  induction n as [|n IH]; intros e.
  - simpl. rewrite N.mul_1_r. f_equal. lia.
  - cbn [strip_zeros]. rewrite Nat2N.inj_succ, N.pow_succ_r'.
    replace (c * (10 * 10 ^ N.of_nat n))%N with ((c * 10 ^ N.of_nat n) * 10)%N by ring.
    rewrite N.Div0.mod_mul. simpl (0 =? 0)%N. cbv iota.
    rewrite N.div_mul by discriminate. rewrite IH. f_equal. lia.
Qed.

Lemma quantize_money_cents s c :
  ndigits c <= prec -> quantize_money (Fin s c (-2)) = Ok (Fin s c (-2)).
Proof.
  intros Hn. destruct (N.eq_dec c 0) as [->|Hc]; [destruct s; reflexivity|].
  unfold quantize_money, quantize, MONEY_QUANT. simpl check_nans. cbv iota.
  replace (negb ((Etiny <=? -2) && (-2 <=? Emax))) with false by reflexivity. cbv iota.
  replace (c =? 0)%N with false by (symmetry; apply N.eqb_neq; exact Hc).
  unfold adjusted, Emax. unfold prec in *.
  replace (999999 <? ndigits c + -2 - 1) with false by (symmetry; apply Z.ltb_ge; lia).
  replace (28 <? ndigits c + -2 - 1 - -2 + 1) with false by (symmetry; apply Z.ltb_ge; lia).
  unfold rescale. replace (c =? 0)%N with false by (symmetry; apply N.eqb_neq; exact Hc).
  simpl (Z.to_N (-2 - -2)). rewrite N.pow_0_r, N.mul_1_r.
  replace (-2 <=? -2) with true by reflexivity. cbv iota.
  replace (999999 <? ndigits c + -2 - 1) with false by (symmetry; apply Z.ltb_ge; lia).
  replace (28 <? ndigits c) with false by (symmetry; apply Z.ltb_ge; lia).
  apply fix_dec_cents. unfold prec. exact Hn.
Qed.

Lemma div_by_one s c :
  c <> 0%N -> ndigits c <= prec -> dec_div (Fin s c (-2)) (dec_of_Z 1) = Ok (Fin s c (-2)).
Proof.
  intros Hc Hn. unfold dec_div, dec_of_Z. simpl check_nans. cbv iota.
  simpl dsign. rewrite xorb_false_r. simpl (Z.abs_N 1). simpl (1 =? 0)%N. cbv iota.
  replace (c =? 0)%N with false by (symmetry; apply N.eqb_neq; exact Hc).
  change (ndigits 1) with 1. unfold prec in *.
  set (k := 1 - ndigits c + 28 + 1).
  replace (0 <=? k) with true by (symmetry; apply Z.leb_le; unfold k; lia).
  set (X := (c * 10 ^ Z.to_N k)%N).
  rewrite (surjective_pairing (N.div_eucl X 1)).
  change (fst (N.div_eucl X 1)) with (X / 1)%N. change (snd (N.div_eucl X 1)) with (X mod 1)%N.
  rewrite N.div_1_r, N.mod_1_r. simpl (0 =? 0)%N. cbv iota. unfold X.
  replace (-2 - 0 - (-2 - 0 - k)) with k by lia.
  rewrite <- Z_nat_N, strip_zeros_pow.
  replace (-2 - 0 - k + Z.of_nat (Z.to_nat k)) with (-2) by (rewrite Z2Nat.id by (unfold k; lia); lia).
  apply fix_dec_cents. unfold prec. exact Hn.
Qed.

(** A recipe of one serving (every recipe [get_recipe] builds) costs per
    serving exactly its total cost, errors included. *)
Theorem cost_per_serving_one (r : Recipe) :
  servings r = 1 -> calculate_cost_per_serving r = calculate_total_cost r.
Proof.
  intros Hs. unfold calculate_cost_per_serving. rewrite Hs. simpl (1 <=? 0). cbv iota.
  destruct (calculate_total_cost r) as [x|e] eqn:Ht; cbn [bind]; [|reflexivity].
  assert (Hq : exists t, quantize_money t = Ok x).
  { unfold calculate_total_cost in Ht. destruct (sum_costs (Fin false 0 0) (ingredients r)) as [t|e];
      cbn [bind] in Ht; [now exists t | discriminate]. }
  destruct Hq as (t & Hq). clear Ht.
  destruct (quantize_money_out t x Hq) as [(s & c & -> & Hn) | (s & p & -> & Hf)].
  - destruct (N.eq_dec c 0) as [->|Hc].
    + rewrite div_zero_by_servings by lia. cbn [bind]. destruct s; reflexivity.
    + rewrite div_by_one by assumption. cbn [bind]. now apply quantize_money_cents.
  - unfold dec_div.
    change (check_nans (NaN s p) (dec_of_Z 1)) with (Some (Ok (fix_nan (NaN s p)))).
    cbv iota. rewrite Hf. cbn [bind]. unfold quantize_money, quantize.
    change (check_nans (NaN s p) MONEY_QUANT) with (Some (Ok (fix_nan (NaN s p)))).
    cbv iota. now rewrite Hf.
Qed.

(** ** The label of the price-per-unit sum *)

Lemma ppu_sum_step_skipped t rw : skipped_cell (t_ppu rw) = true -> ppu_sum_step t rw = t.
Proof.
  unfold skipped_cell, ppu_sum_step. destruct (is_blank (t_ppu rw)); [reflexivity|].
  simpl. destruct (dec_of_string (t_ppu rw)); [discriminate | reflexivity].
Qed.

Lemma fold_ppu_sum_skipped rows t :
  Forall (fun rw => skipped_cell (t_ppu rw) = true) rows -> fold_left ppu_sum_step rows t = t.
Proof.
  intros H. revert t. induction H as [|rw rows Hrw _ IH]; intros t; [reflexivity|].
  simpl. rewrite ppu_sum_step_skipped by exact Hrw. apply IH.
Qed.

(** [_update_ppu_sum] ignores a price-per-unit cell that is blank or does
    not read as a decimal, wherever it is; when every cell is such, the
    label shows "PPU sum: 0.00". *)
Theorem ppu_sum_skips (a b rows : list row_texts) (rw : row_texts) :
  (skipped_cell (t_ppu rw) = true -> update_ppu_sum (a ++ rw :: b)%list = update_ppu_sum (a ++ b)%list) /\
  (Forall (fun rw => skipped_cell (t_ppu rw) = true) rows -> update_ppu_sum rows = "PPU sum: 0.00").
Proof.
  split.
  - intros H. unfold update_ppu_sum, ppu_sum. rewrite !fold_left_app. simpl.
    rewrite ppu_sum_step_skipped by exact H. reflexivity.
  - intros H. unfold update_ppu_sum, ppu_sum. rewrite fold_ppu_sum_skipped by exact H.
    reflexivity.
Qed.

Lemma ppu_sum_scaled rows : forall t St,
  Forall (fun rw => cell_ok (t_ppu rw) = true) rows ->
  scaled12 t = Some St -> Z.abs St + abs_sum12 rows < 10 ^ 28 ->
  scaled12 (fold_left ppu_sum_step rows t) = Some (St + sum12 rows).
Proof.
  induction rows as [|rw rows IH]; intros t St Hok Ht Hb; simpl.
  - now rewrite Z.add_0_r.
  - inversion Hok as [|? ? Hrw Hrest]; subst. simpl in Hb.
    assert (Hc : 0 <= abs_sum12 rows).
    { clear. induction rows; simpl; [lia|]. pose proof (Z.abs_nonneg (cell12 (t_ppu a))). lia. }
    unfold ppu_sum_step at 2. unfold cell_ok, skipped_cell in Hrw. unfold cell12 in Hb |- *.
    destruct (is_blank (t_ppu rw)).
    + rewrite Z.add_0_l. apply IH; [exact Hrest | exact Ht | simpl in Hb; lia].
    + simpl in Hrw. destruct (dec_of_string (t_ppu rw)) as [d|e]; cbn [bind].
      * destruct (scaled12 d) as [Sd|] eqn:Hd; [|discriminate].
        destruct (add_scaled t d St Sd Ht Hd) as (z & Hz & Hsz); [lia|].
        rewrite Hz. rewrite Z.add_assoc. apply IH; [exact Hrest | exact Hsz | lia].
      * rewrite Z.add_0_l. apply IH; [exact Hrest | exact Ht | simpl in Hb; lia].
Qed.

(** When every price-per-unit cell is blank, not a decimal, or a decimal
    of at most twelve decimal places, and the sum of their absolute values
    is below 10^16, the label shows the exact sum of the cells rounded
    half-up to two decimal places. *)
Theorem ppu_sum_exact (rows : list row_texts) :
  Forall (fun rw => cell_ok (t_ppu rw) = true) rows ->
  abs_sum12 rows < 10 ^ 28 ->
  exists s c, update_ppu_sum rows = "PPU sum: " ++ format_f (Fin s c (-2)) /\
              signed s c = round_half_up_cents (sum12 rows).
Proof.
  intros Hok Hb.
  assert (Hv : scaled12 (ppu_sum rows) = Some (sum12 rows)).
  { unfold ppu_sum. rewrite <- (Z.add_0_l (sum12 rows)).
    apply ppu_sum_scaled; [exact Hok | reflexivity | simpl; exact Hb]. }
  assert (Hs : Z.abs (sum12 rows) < 10 ^ 28).
  { enough (Z.abs (sum12 rows) <= abs_sum12 rows) by lia.
    clear. induction rows as [|rw rows IH]; simpl; [lia|].
    pose proof (Z.abs_triangle (cell12 (t_ppu rw)) (sum12 rows)). unfold sum12 in *. lia. }
  destruct (quantize_scaled _ _ Hv Hs) as (s & c & Hq & Hsc).
  exists s, c. split; [|exact Hsc].
  unfold update_ppu_sum, format_ppu.
  change (quantize (ppu_sum rows) (Fin false 1 (-2)) ROUND_HALF_UP) with (quantize_money (ppu_sum rows)).
  now rewrite Hq.
Qed.

(** ** The sweep over the rows *)

Lemma update_row_shape rw : exists o, forall p,
  update_price_per_unit_for_row (set_ppu rw p) = match o with Some t => t | None => p end.
Proof.
  unfold update_price_per_unit_for_row, set_ppu. cbn [t_row_price t_qty t_unit t_ppu]. cbv zeta.
  destruct (text_or (t_row_price rw) "") as [|c r].
  - exists None. reflexivity.
  - destruct (dec_of_string (String c r)) as [rp|e].
    + destruct (dec_gt (dec_or_zero (text_or (t_qty rw) "0")) dzero) as [[|]|e]; cbn [bind].
      * destruct (dec_gt (dec_or_zero (text_or (t_unit rw) "0")) dzero) as [[|]|e]; cbn [bind].
        -- destruct (dec_div (dec_or_zero (text_or (t_unit rw) "0")) (dec_or_zero (text_or (t_qty rw) "0")))
             as [ratio|e]; cbn [bind]; [|exists None; reflexivity].
           destruct (dec_mul rp ratio) as [m|e]; cbn [bind]; [|exists None; reflexivity].
           destruct (quantize m (Fin false 1 (-6)) ROUND_HALF_EVEN) as [q|e]; cbn [bind];
             [exists (Some (format_ppu q)) | exists None]; reflexivity.
        -- exists (Some EmptyString). reflexivity.
        -- exists None. reflexivity.
      * exists (Some EmptyString). reflexivity.
      * exists None. reflexivity.
    + exists (Some EmptyString). reflexivity.
Qed.

Lemma update_row_idem rw :
  let rw' := set_ppu rw (update_price_per_unit_for_row rw) in
  update_price_per_unit_for_row rw' = update_price_per_unit_for_row rw.
Proof.
  destruct (update_row_shape rw) as (o & Ho). cbv zeta.
  assert (E : rw = set_ppu rw (t_ppu rw)) by (destruct rw; reflexivity).
  rewrite E at 2. rewrite !Ho. rewrite E at 1. rewrite Ho. destruct o; reflexivity.
Qed.

Lemma update_all_rows rows :
  Forall2 (fun rw rw' => set_ppu rw (t_ppu rw') = rw') rows (tb_rows (update_all_price_per_unit rows)).
Proof.
  unfold update_all_price_per_unit. cbn [tb_rows].
  induction rows as [|rw rows IH]; simpl; constructor; [reflexivity | exact IH].
Qed.

(** [_update_all_price_per_unit] writes only the price-per-unit cells, and
    running it again on its result changes nothing (cells and label). *)
Theorem update_all_idempotent (rows : list row_texts) :
  Forall2 (fun rw rw' => set_ppu rw (t_ppu rw') = rw') rows (tb_rows (update_all_price_per_unit rows)) /\
  update_all_price_per_unit (tb_rows (update_all_price_per_unit rows)) = update_all_price_per_unit rows.
Proof.
  split; [apply update_all_rows|].
  unfold update_all_price_per_unit. cbn [tb_rows]. f_equal.
  - rewrite map_map. apply map_ext. intros rw. now rewrite update_row_idem.
  - f_equal. rewrite map_map. apply map_ext. intros rw. now rewrite update_row_idem.
Qed.

(** ** Removing the selected rows *)

Lemma keep_rows_none p i rows :
  (forall j, (i <= j)%nat -> p j = false) -> keep_rows p i rows = rows.
Proof.
  revert i. induction rows as [|rw rows IH]; intros i H; simpl; [reflexivity|].
  rewrite H by lia. f_equal. apply IH. intros j Hj. apply H. lia.
Qed.

Lemma keep_rows_ext p q i rows :
  (forall j, (i <= j)%nat -> p j = q j) -> keep_rows p i rows = keep_rows q i rows.
Proof.
  revert i. induction rows as [|rw rows IH]; intros i H; simpl; [reflexivity|].
  rewrite H by lia. rewrite (IH (S i)) by (intros j Hj; apply H; lia). reflexivity.
Qed.

Lemma keep_rows_remove_row rows : forall p i r,
  (i <= r)%nat -> (forall j, (r <= j)%nat -> p j = false) ->
  keep_rows p i (remove_row rows (r - i)) = keep_rows (fun j => Nat.eqb j r || p j) i rows.
Proof.
  induction rows as [|rw rows IH]; intros p i r Hi Hp.
  - destruct (r - i)%nat; reflexivity.
  - destruct (Nat.eq_dec i r) as [<-|Hne].
    + rewrite Nat.sub_diag. simpl. rewrite Nat.eqb_refl. simpl.
      rewrite keep_rows_none by (intros j Hj; apply Hp; lia).
      rewrite keep_rows_none; [reflexivity|].
      intros j Hj. replace (j =? i)%nat with false by (symmetry; apply Nat.eqb_neq; lia).
      apply Hp. lia.
    + replace (r - i)%nat with (S (r - S i)) by lia. simpl.
      replace (i =? r)%nat with false by (symmetry; apply Nat.eqb_neq; exact Hne). simpl.
      rewrite (IH p (S i) r) by (lia || exact Hp). reflexivity.
Qed.

Lemma selected_in_iff l j : selected_in l j = true <-> In j l.
Proof.
  unfold selected_in. rewrite existsb_exists. split.
  - intros (y & Hy & E). apply Nat.eqb_eq in E. subst. exact Hy.
  - intros H. exists j. split; [exact H | apply Nat.eqb_refl].
Qed.

Lemma fold_remove_row_desc l : forall rows,
  strictly_desc l -> fold_left remove_row l rows = keep_rows (selected_in l) 0 rows.
Proof.
  induction l as [|r l IH]; intros rows Hl; simpl.
  - symmetry. apply keep_rows_none. reflexivity.
  - destruct Hl as (Hlt & Hl). rewrite IH by exact Hl.
    replace r with (r - 0)%nat at 1 by lia.
    rewrite keep_rows_remove_row; [reflexivity | lia |].
    intros j Hj. apply Bool.not_true_iff_false. rewrite selected_in_iff. intros Hin.
    rewrite Forall_forall in Hlt. specialize (Hlt j Hin). lia.
Qed.

Lemma in_insert_desc x l y : In y (insert_desc x l) <-> y = x \/ In y l.
Proof.
  induction l as [|z l IH]; simpl; [split; intros [H|H]; subst; auto|].
  destruct (z <=? x)%nat; simpl; [split; intros [H|H]; subst; auto|].
  rewrite IH. tauto.
Qed.

Lemma in_sort_desc l y : In y (sort_desc l) <-> In y l.
Proof.
  induction l as [|x l IH]; simpl; [tauto|]. rewrite in_insert_desc, IH. intuition.
Qed.

Lemma insert_desc_strict x l :
  strictly_desc l -> ~ In x l -> strictly_desc (insert_desc x l).
Proof.
  induction l as [|z l IH]; intros Hl Hx; simpl.
  - split; [constructor | exact I].
  - destruct Hl as (Hz & Hl). destruct (z <=? x)%nat eqn:E.
    + apply Nat.leb_le in E. assert (z <> x) by (intros ->; apply Hx; left; reflexivity).
      split; [|split; [exact Hz | exact Hl]].
      constructor; [lia|]. eapply Forall_impl; [|exact Hz]. simpl. intros; lia.
    + apply Nat.leb_gt in E. split; [|apply IH; [exact Hl | intros H; apply Hx; right; exact H]].
      apply Forall_forall. intros y Hy. apply in_insert_desc in Hy as [->|Hy]; [lia|].
      rewrite Forall_forall in Hz. exact (Hz y Hy).
Qed.

Lemma sort_desc_strict l : NoDup l -> strictly_desc (sort_desc l).
Proof.
  induction 1 as [|x l Hx Hl IH]; simpl; [exact I|].
  apply insert_desc_strict; [exact IH|]. rewrite in_sort_desc. exact Hx.
Qed.


(** [remove_selected_row] removes exactly the selected rows that exist,
    keeping the others in their order, whatever the order of the selected
    indexes, their repetitions and the row numbers out of range; then it
    runs the sweep. *)
Theorem remove_selected_row_keeps (selected : list nat) (rows : list row_texts) :
  remove_selected_row selected rows =
  update_all_price_per_unit (keep_rows (fun i => existsb (Nat.eqb i) selected) 0 rows).
Proof.
  unfold remove_selected_row. f_equal.
  rewrite fold_remove_row_desc by (apply sort_desc_strict, NoDup_nodup).
  apply keep_rows_ext. intros j _.
  apply eq_true_iff_eq. change (existsb (Nat.eqb j) selected) with (selected_in selected j).
  rewrite !selected_in_iff, in_sort_desc, nodup_In. reflexivity.
Qed.

(** ** [on_calculate] *)

Lemma text_or_empty_iff t : text_or t "" = EmptyString <-> is_blank t = true.
Proof.
  split; [apply text_or_empty|].
  destruct t as [|c t]; [reflexivity|]. unfold text_or, is_blank.
  destruct (strip (String c t)); [reflexivity | discriminate].
Qed.

Lemma on_calculate_row_none rw : keeps_row_price rw = true -> on_calculate_row rw = Ok None.
Proof.
  unfold keeps_row_price, on_calculate_row. intros H.
  destruct (is_blank (t_name rw)); [reflexivity|]. simpl in H.
  destruct (text_or (t_row_price rw) "") as [|c r] eqn:E; [|reflexivity].
  apply text_or_empty_iff in E. rewrite E in H. discriminate.
Qed.

Lemma on_calculate_row_keeps rw : on_calculate_row rw = Ok None -> keeps_row_price rw = true.
Proof.
  unfold keeps_row_price, on_calculate_row.
  destruct (is_blank (t_name rw)); [reflexivity|]. simpl.
  destruct (text_or (t_row_price rw) "") as [|c r] eqn:E.
  - destruct (dec_mul _ _) as [m|e]; cbn [bind]; [|discriminate].
    destruct (quantize m _ _); cbn [bind]; discriminate.
  - intros _. destruct (is_blank (t_row_price rw)) eqn:B; [|reflexivity].
    apply text_or_empty_iff in B. congruence.
Qed.

Lemma on_calculate_row_some rw t :
  on_calculate_row rw = Ok (Some t) -> keeps_row_price rw = false /\ is_blank t = false.
Proof.
  unfold keeps_row_price, on_calculate_row.
  destruct (is_blank (t_name rw)); [discriminate|].
  destruct (text_or (t_row_price rw) "") as [|c r] eqn:E; [|discriminate].
  apply text_or_empty_iff in E. rewrite E.
  destruct (dec_mul _ _) as [m|e]; cbn [bind]; [|discriminate].
  destruct (quantize m _ _) as [q|e]; cbn [bind]; [|discriminate].
  intros H. injection H as <-. split; [reflexivity | apply dec_to_string_not_blank].
Qed.

Lemma kept_refl rw : kept rw rw.
Proof. unfold kept. auto. Qed.

Lemma kept_trans a b c : kept a b -> kept b c -> kept a c.
Proof.
  unfold kept, keeps_row_price. intros (N1 & Q1 & U1 & P1) (N2 & Q2 & U2 & P2).
  repeat split; try congruence. intros H. rewrite P2, P1 by (rewrite ?N1, ?P1; auto). reflexivity.
Qed.

Lemma kept_keeps rw rw' : kept rw rw' -> keeps_row_price rw = true -> keeps_row_price rw' = true.
Proof.
  intros (N & _ & _ & P) H. pose proof (P H) as P'. unfold keeps_row_price in *.
  now rewrite N, P'.
Qed.

Lemma Forall2_kept_refl rows : Forall2 kept rows rows.
Proof. induction rows; constructor; [apply kept_refl | assumption]. Qed.

Lemma Forall2_kept_trans a b c : Forall2 kept a b -> Forall2 kept b c -> Forall2 kept a c.
Proof.
  intros H. revert c. induction H as [|x y a b Hxy _ IH]; intros c Hc; inversion Hc; subst;
    constructor; [eapply kept_trans; eassumption | apply IH; assumption].
Qed.

Lemma Forall2_nth_l {A B} (R : A -> B -> Prop) a b i x :
  Forall2 R a b -> nth_error a i = Some x -> exists y, nth_error b i = Some y /\ R x y.
Proof.
  intros H. revert i. induction H as [|x' y' a b Hxy _ IH]; intros [|i] E; simpl in E; try discriminate.
  - injection E as <-. now exists y'.
  - exact (IH i E).
Qed.

Lemma Forall2_nth_r {A B} (R : A -> B -> Prop) a b i y :
  Forall2 R a b -> nth_error b i = Some y -> exists x, nth_error a i = Some x /\ R x y.
Proof.
  intros H. revert i. induction H as [|x' y' a b Hxy _ IH]; intros [|i] E; simpl in E; try discriminate.
  - injection E as <-. now exists x'.
  - exact (IH i E).
Qed.

Lemma sweep_kept rows : Forall2 kept rows (tb_rows (update_all_price_per_unit rows)).
Proof.
  induction (update_all_rows rows) as [|rw rw' a b E _ IH]; constructor; [|exact IH].
  rewrite <- E. unfold kept, keeps_row_price. simpl. auto.
Qed.

Lemma set_row_price_at_kept rows : forall i rw t,
  nth_error rows i = Some rw -> keeps_row_price rw = false ->
  Forall2 kept rows (set_row_price_at rows i t) /\
  nth_error (set_row_price_at rows i t) i = Some (mkRow (t_name rw) t (t_qty rw) (t_unit rw) (t_ppu rw)).
Proof.
  induction rows as [|x rows IH]; intros [|i] rw t E K; simpl in E |- *; try discriminate.
  - injection E as ->. split; [|reflexivity]. constructor; [|apply Forall2_kept_refl].
    unfold kept. simpl. repeat split; congruence.
  - destruct (IH i rw t E K) as (H1 & H2). split; [|exact H2].
    constructor; [apply kept_refl | exact H1].
Qed.

Lemma set_row_price_kept tb i rw t :
  nth_error (tb_rows tb) i = Some rw -> keeps_row_price rw = false ->
  Forall2 kept (tb_rows tb) (tb_rows (set_row_price tb i t)) /\
  exists rw', nth_error (tb_rows (set_row_price tb i t)) i = Some rw' /\ t_row_price rw' = t.
Proof.
  intros E K. unfold set_row_price. rewrite E.
  destruct (String.eqb (t_row_price rw) t) eqn:Q.
  - apply String.eqb_eq in Q. split; [apply Forall2_kept_refl | now exists rw].
  - destruct (set_row_price_at_kept _ i rw t E K) as (H1 & H2). split.
    + eapply Forall2_kept_trans; [exact H1 | apply sweep_kept].
    + destruct (Forall2_nth_l _ _ _ _ _ (update_all_rows _) H2) as (y & Hy & Ey).
      exists y. split; [exact Hy|]. rewrite <- Ey. reflexivity.
Qed.

Lemma on_calculate_loop_kept k : forall i tb,
  Forall2 kept (tb_rows tb) (tb_rows (fst (on_calculate_loop k i tb))).
Proof.
  induction k as [|k IH]; intros i tb; simpl; [apply Forall2_kept_refl|].
  destruct (nth_error (tb_rows tb) i) as [rw|] eqn:E; [|apply Forall2_kept_refl].
  destruct (on_calculate_row rw) as [[t|]|e] eqn:R.
  - apply on_calculate_row_some in R as (K & _).
    eapply Forall2_kept_trans; [apply (set_row_price_kept tb i rw t E K) | apply IH].
  - apply IH.
  - apply Forall2_kept_refl.
Qed.

Lemma all_before_length (P : row_texts -> Prop) rows i :
  (length rows <= i)%nat ->
  (forall j rw, (j < i)%nat -> nth_error rows j = Some rw -> P rw) -> Forall P rows.
Proof.
  intros L H. apply Forall_forall. intros x Hx. apply In_nth_error in Hx as (j & Hj).
  apply (H j x); [|exact Hj].
  assert (j < length rows)%nat by (apply nth_error_Some; congruence). lia.
Qed.

Lemma on_calculate_loop_done k : forall i tb tb',
  on_calculate_loop k i tb = (tb', None) ->
  (length (tb_rows tb) <= i + k)%nat ->
  (forall j rw, (j < i)%nat -> nth_error (tb_rows tb) j = Some rw -> keeps_row_price rw = true) ->
  Forall (fun rw => keeps_row_price rw = true) (tb_rows tb').
Proof.
  induction k as [|k IH]; intros i tb tb' H L B; simpl in H.
  - injection H as <-. apply (all_before_length _ _ i); [lia | exact B].
  - destruct (nth_error (tb_rows tb) i) as [rw|] eqn:E.
    + destruct (on_calculate_row rw) as [[t|]|e] eqn:R; [| |discriminate].
      * pose proof (on_calculate_row_some rw t R) as (K & Bt).
        destruct (set_row_price_kept tb i rw t E K) as (F & rw' & E' & P').
        apply (IH (S i) _ _ H); [apply Forall2_length in F; lia|].
        intros j x Hj Ex. destruct (Forall2_nth_r _ _ _ _ _ F Ex) as (x0 & Ex0 & Kx).
        destruct (Nat.eq_dec j i) as [->|Hne].
        -- rewrite E' in Ex. injection Ex as <-. unfold keeps_row_price. rewrite P', Bt.
           apply orb_true_r.
        -- apply (kept_keeps x0); [exact Kx|]. apply (B j); [lia | exact Ex0].
      * apply (IH (S i) _ _ H); [lia|].
        intros j x Hj Ex. destruct (Nat.eq_dec j i) as [->|Hne].
        -- rewrite E in Ex. injection Ex as <-. exact (on_calculate_row_keeps rw R).
        -- apply (B j); [lia | exact Ex].
    + injection H as <-. apply nth_error_None in E.
      apply (all_before_length _ _ i); [exact E | exact B].
Qed.

Lemma on_calculate_loop_noop k : forall i tb,
  Forall (fun rw => keeps_row_price rw = true) (tb_rows tb) -> on_calculate_loop k i tb = (tb, None).
Proof.
  induction k as [|k IH]; intros i tb H; simpl; [reflexivity|].
  destruct (nth_error (tb_rows tb) i) as [rw|] eqn:E; [|reflexivity].
  rewrite on_calculate_row_none; [apply IH, H|].
  rewrite Forall_forall in H. apply H. eapply nth_error_In. exact E.
Qed.

(** [on_calculate] writes only row-price and price-per-unit cells: every
    row keeps its name, quantity and unit spec, the rows stay as many, and
    a row with a blank name or a non-blank row price keeps its row price,
    even when the run ends with a warning. *)
Theorem on_calculate_kept (name_text : string) (tb : table) :
  Forall2 kept (tb_rows tb) (tb_rows (fst (on_calculate name_text tb))).
Proof.
  unfold on_calculate.
  destruct (recipe <- get_recipe name_text (tb_rows tb) ;; _) as [[|]|e];
    [|apply Forall2_kept_refl|apply Forall2_kept_refl].
  pose proof (on_calculate_loop_kept (length (tb_rows tb)) 0 tb) as H.
  destruct (on_calculate_loop _ _ _) as [tb' err]. exact H.
Qed.

(** When [on_calculate] ends without a warning, every row with a name has
    a row price that is not blank, and running [on_calculate] again, with
    any cocktail name, changes no cell. *)
Theorem on_calculate_complete (name_text : string) (tb tb' : table) :
  on_calculate name_text tb = (tb', None) ->
  Forall (fun rw => keeps_row_price rw = true) (tb_rows tb') /\
  forall name_text', fst (on_calculate name_text' tb') = tb'.
Proof.
  intros H.
  assert (G : Forall (fun rw => keeps_row_price rw = true) (tb_rows tb')).
  { unfold on_calculate in H.
    destruct (recipe <- get_recipe name_text (tb_rows tb) ;; _) as [[|]|e]; try discriminate.
    destruct (on_calculate_loop (length (tb_rows tb)) 0 tb) as [tb2 err] eqn:L.
    injection H as -> Herr. destruct err; [discriminate|].
    apply (on_calculate_loop_done _ _ _ _ L); [lia|]. intros j rw Hj; lia. }
  split; [exact G|]. intros nm. unfold on_calculate.
  destruct (recipe <- get_recipe nm (tb_rows tb') ;; _) as [[|]|e]; try reflexivity.
  rewrite on_calculate_loop_noop by exact G. reflexivity.
Qed.

Lemma get_ingredients_blank rows :
  Forall (fun rw => is_blank (t_name rw) = true) rows -> get_ingredients rows = Ok [].
Proof.
  induction 1 as [|rw rows Hrw _ IH]; simpl; [reflexivity|].
  rewrite get_recipe_row_blank by exact Hrw. exact IH.
Qed.

(** A table whose rows all have a blank name (an empty table too) gives
    only the warning "Add at least one ingredient" and no cell changes,
    whatever the cocktail name. *)
Theorem on_calculate_no_ingredient (name_text : string) (tb : table) :
  Forall (fun rw => is_blank (t_name rw) = true) (tb_rows tb) ->
  on_calculate name_text tb = (tb, Some NoIngredient).
Proof.
  intros H. unfold on_calculate, get_recipe. rewrite get_ingredients_blank by exact H.
  reflexivity.
Qed.

(** ** [_capitalize_first] *)

Lemma upper_char_upper c u :
  upper_char c = Some u -> exists d r, u = String d r /\ upper_char d = Some (String d EmptyString).
Proof.
  intros H. destruct c as [[] [] [] [] [] [] [] []]; vm_compute in H;
    (discriminate || (injection H as <-; eexists _, _; split; [reflexivity | vm_compute; reflexivity])).
Qed.

(** [_capitalize_first] changes at most the first character, and a second
    call leaves the text as the first call made it. *)
Theorem capitalize_first_idem (text text' : string) :
  capitalize_first text = Some text' ->
  capitalize_first text' = Some text' /\
  (forall c rest, text = String c rest -> exists u, text' = (u ++ rest)%string).
Proof.
  destruct text as [|c rest]; simpl.
  - intros H. injection H as <-. split; [reflexivity | intros c rest H; discriminate].
  - destruct (upper_char c) as [u|] eqn:U; [|discriminate].
    destruct (String.eqb (u ++ rest) (String c rest)) eqn:Q; simpl; intros H; injection H as <-.
    + split; [unfold capitalize_first; cbv beta iota zeta; rewrite U, Q; reflexivity|].
      intros c' rest' H. injection H as -> ->. exists u. symmetry. now apply String.eqb_eq.
    + split; [|intros c' rest' H; injection H as -> ->; now exists u].
      destruct (upper_char_upper c u U) as (d & r & -> & Ud).
      change ((String d r ++ rest)%string) with (String d (r ++ rest)).
      unfold capitalize_first. cbv beta iota. rewrite Ud. cbv zeta.
      change ((String d EmptyString ++ (r ++ rest))%string) with (String d (r ++ rest)).
      now rewrite String.eqb_refl.
Qed.

(** ** Instances of the properties *)

Lemma get_recipe_result_witness :
  rname sample_recipe = PStr (strip " G&T ") /\ servings sample_recipe = 1 /\
  map (fun i => (name i, unit i)) (ingredients sample_recipe) =
    map (fun rw => (strip (t_name rw), PStr (strip (t_unit rw)))) (filter named sample_rows) /\
  Forall (fun i => ingredient_ok i /\ is_blank (name i) = false /\
                   cmp_dec (quantity i) dzero = Gt /\
                   is_nan (price_per_unit i) = false /\ cmp_dec (price_per_unit i) dzero <> Lt)
         (ingredients sample_recipe).
Proof. apply (get_recipe_result " G&T " sample_rows sample_recipe). vm_compute. reflexivity. Defined.

Lemma get_recipe_bad_quantity_witness :
  get_recipe "Gimlet" (firstn 1 sample_rows ++ mkRow "Lime" "" "two" "" "" :: [])%list = Err ValueError /\
  get_recipe "Gimlet" ([mkRow "Gin" "" " 5_0 " "ml" "0.03"] ++ mkRow "Lime" "" "_ 5" "" "" :: [])%list =
    Err ValueError.
Proof.
  split.
  - apply (get_recipe_bad_quantity "Gimlet" (firstn 1 sample_rows) [] (mkRow "Lime" "" "two" "" "")
             [mkIngredient "Gin" (Fin false 50 0) (PStr "ml") (Fin false 3 (-2))]).
    + vm_compute. reflexivity.
    + vm_compute. reflexivity.
    + exists InvalidOperation. vm_compute. reflexivity.
  - apply (get_recipe_bad_quantity "Gimlet" [mkRow "Gin" "" " 5_0 " "ml" "0.03"] [] (mkRow "Lime" "" "_ 5" "" "")
             [mkIngredient "Gin" (Fin false 50 0) (PStr "ml") (Fin false 3 (-2))]).
    + vm_compute. reflexivity.
    + vm_compute. reflexivity.
    + exists InvalidOperation. vm_compute. reflexivity.
Defined.

Lemma cost_per_serving_one_witness :
  calculate_cost_per_serving gin_tonic = calculate_total_cost gin_tonic.
Proof. apply cost_per_serving_one. reflexivity. Defined.

Lemma dialog_validate_accept_witness :
  accept " G&T " sample_rows = Accepted <->
  is_blank " G&T " = false /\ exists is, get_ingredients sample_rows = Ok is.
Proof. apply (dialog_validate_accept " G&T " sample_rows). Defined.

Lemma ppu_sum_skips_witness :
  skipped_cell (t_ppu (mkRow "  " "" "" "" "abc")) = true /\
  update_ppu_sum sample_rows = update_ppu_sum [mkRow " Gin " "" "50" "ml" "0.03"; mkRow "Tonic" "2.50" "200" "100" ""] /\
  update_ppu_sum [mkRow "  " "" "" "" "abc"; mkRow "Lime" "" "" "" " "] = "PPU sum: 0.00" /\
  update_ppu_sum [mkRow "Lime" "" "" "" "_ 5"; mkRow "Gin" "" "" "" " 1_0 "] =
    update_ppu_sum [mkRow "Gin" "" "" "" " 1_0 "].
Proof.
  destruct (ppu_sum_skips [mkRow " Gin " "" "50" "ml" "0.03"] [mkRow "Tonic" "2.50" "200" "100" ""]
              [mkRow "  " "" "" "" "abc"; mkRow "Lime" "" "" "" " "] (mkRow "  " "" "" "" "abc"))
    as [H1 H2].
  split; [vm_compute; reflexivity|]. split; [|split].
  - apply H1. vm_compute. reflexivity.
  - apply H2. repeat constructor.
  - apply (proj1 (ppu_sum_skips [] [mkRow "Gin" "" "" "" " 1_0 "] [] (mkRow "Lime" "" "" "" "_ 5"))).
    vm_compute. reflexivity.
Defined.

Lemma ppu_sum_exact_witness :
  exists s c, update_ppu_sum calculated_table.(tb_rows) = "PPU sum: " ++ format_f (Fin s c (-2)) /\
              signed s c = round_half_up_cents (sum12 calculated_table.(tb_rows)).
Proof.
  apply ppu_sum_exact.
  - repeat constructor.
  - vm_compute. reflexivity.
Defined.

Lemma on_calculate_complete_witness :
  Forall (fun rw => keeps_row_price rw = true) (tb_rows calculated_table) /\
  forall name_text', fst (on_calculate name_text' calculated_table) = calculated_table.
Proof. apply (on_calculate_complete " G&T " sample_table). vm_compute. reflexivity. Defined.

Lemma on_calculate_no_ingredient_witness :
  on_calculate "Empty glass" (mkTable [mkRow "  " "" "" "" "abc"] "PPU sum: 0.00") =
  (mkTable [mkRow "  " "" "" "" "abc"] "PPU sum: 0.00", Some NoIngredient).
Proof. apply on_calculate_no_ingredient. repeat constructor. Defined.

Lemma capitalize_first_idem_witness :
  capitalize_first "Gin" = Some "Gin" /\
  (forall c rest, "gin" = String c rest -> exists u, "Gin" = (u ++ rest)%string).
Proof. apply (capitalize_first_idem "gin" "Gin"). vm_compute. reflexivity. Defined.
